(** * [PrettyDocumentController] (src/document.ts)

    A shallow embedding of [src/document.ts]: the incremental match index
    ([loadDecorations], [getUglyFromMatch], [parsePretty], [onChangeDocument],
    [refresh] and the constructor), [dispose] and the redraw timers of
    [applyDecorations], [arrayEqual] and [adjustCursor], together with the
    parts of the host (positions, ranges, documents, editors, global regular
    expressions) and of [disjointrangeset.ts] that they call. *)

From Stdlib Require Import String Ascii List Arith ZArith Lia Bool.
Import ListNotations.
Open Scope string_scope.
Open Scope nat_scope.

(** ** Positions and ranges of the editor host ([vscode.Position], [vscode.Range]) *)

Record Position : Type := mkPosition { line : nat; character : nat }.

Definition isBefore (a b : Position) : bool :=
  (line a <? line b) || ((line a =? line b) && (character a <? character b)).

Definition isEqualPos (a b : Position) : bool :=
  (line a =? line b) && (character a =? character b).

Definition isBeforeOrEqual (a b : Position) : bool :=
  isBefore a b || isEqualPos a b.

Definition isAfter (a b : Position) : bool := isBefore b a.

(** [pos.with({character: c})] *)
Definition with_character (p : Position) (c : nat) : Position :=
  mkPosition (line p) c.

Record Range : Type := mkRange { start : Position; end_ : Position }.

(** [new vscode.Range(a, b)]: the constructor orders its two positions. *)
Definition newRange (a b : Position) : Range :=
  if isBefore b a then mkRange b a else mkRange a b.

Definition isEqual (r q : Range) : bool :=
  isEqualPos (start r) (start q) && isEqualPos (end_ r) (end_ q).

(** ** Documents of the host ([vscode.TextDocument]) *)

Record TextDocument : Type := mkDocument { lines : list string }.

Definition lineCount (d : TextDocument) : nat := List.length (lines d).

(** [document.lineAt(idx).text]; [None] stands for the host's exception on a
    line number outside the document. *)
Definition lineAt (d : TextDocument) (idx : nat) : option string :=
  nth_error (lines d) idx.

(** [document.validatePosition]: a line past the last one becomes the end of
    the last line, a column past the end of its line becomes the line's
    length. *)
Definition validatePosition (d : TextDocument) (p : Position) : Position :=
  if lineCount d <=? line p then
    mkPosition (lineCount d - 1)
               (String.length (nth (lineCount d - 1) (lines d) EmptyString))
  else
    mkPosition (line p)
               (Nat.min (character p) (String.length (nth (line p) (lines d) EmptyString))).

Definition validateRange (d : TextDocument) (r : Range) : Range :=
  newRange (validatePosition d (start r)) (validatePosition d (end_ r)).

(** ** [disjointrangeset.ts] *)

Module drangeset.

(** Modelled from the spec: [disjointrangeset.ts] is not among the sources;
    the set is "an ordered sequence of Ranges ... sorted by start position
    and pairwise non-overlapping". *)
Definition DisjointRangeSet : Type := list Range.

(** Modelled from the spec: a set is "created empty". *)
Definition empty : DisjointRangeSet := [].

(** Modelled from the spec: two ranges "touch if one's end equals the
    other's start" and "overlap if their interiors intersect"; the flags of
    [removeOverlapping] add the ranges that touch the query at its start
    or at its end.  A stored range that strictly contains an empty query
    counts as overlapping it. *)
Definition overlaps (includeTouchingStart includeTouchingEnd : bool)
           (q r : Range) : bool :=
  (isBefore (start r) (end_ q) && isBefore (start q) (end_ r))
  || (includeTouchingStart && isEqualPos (end_ r) (start q))
  || (includeTouchingEnd && isEqualPos (start r) (end_ q)).

(** Modelled from the spec: the sequence stays "sorted by start position";
    the new range goes before the first range that starts after it. *)
Fixpoint insertSorted (r : Range) (s : DisjointRangeSet) : DisjointRangeSet :=
  match s with
  | [] => [r]
  | q :: s' =>
      if isBefore (start r) (start q) then r :: q :: s'
      else q :: insertSorted r s'
  end.

(** Modelled from the spec: [insert(range)] "adds a range" and "must
    reject/trim or assert against pre-existing overlap"; here a range that
    overlaps a stored one is rejected and the set is left as it was. *)
Definition insert (r : Range) (s : DisjointRangeSet) : DisjointRangeSet :=
  if existsb (overlaps false false r) s then s else insertSorted r s.

(** Modelled from the spec: [insertRanges(otherSet)], "bulk insert, same
    precondition". *)
Definition insertRanges (news : DisjointRangeSet) (s : DisjointRangeSet)
  : DisjointRangeSet :=
  fold_left (fun acc r => insert r acc) news s.

(** Modelled from the spec: [removeOverlapping(range, options)] "removes
    and returns every stored range overlapping (optionally touching) the
    query range".  The first component is what is removed, the second what
    stays. *)
Definition removeOverlapping (q : Range) (includeTouchingStart includeTouchingEnd : bool)
           (s : DisjointRangeSet) : list Range * DisjointRangeSet :=
  (filter (overlaps includeTouchingStart includeTouchingEnd q) s,
   filter (fun r => negb (overlaps includeTouchingStart includeTouchingEnd q r)) s).

(** Modelled from the spec: [findPreceding(position)] is "the closest range
    whose end <= position, or none". *)
Definition findPreceding (p : Position) (s : DisjointRangeSet) : option Range :=
  last (map Some (filter (fun r => isBeforeOrEqual (end_ r) p) s)) None.

(** Modelled from the spec: [getRangesStartingAt(position)] is the
    "ascending sequence of ranges with start >= position". *)
Definition getRangesStartingAt (p : Position) (s : DisjointRangeSet) : list Range :=
  filter (fun r => isBeforeOrEqual p (start r)) s.

(** Modelled from the spec: [getEnd()], the end of the furthest stored
    range; the origin for an empty set. *)
Definition getEnd (s : DisjointRangeSet) : Position :=
  match last (map Some s) None with
  | Some r => end_ r
  | None => mkPosition 0 0
  end.

(** Modelled from the spec: the accessor [isEmpty()]. *)
Definition isEmpty (s : DisjointRangeSet) : bool :=
  match s with [] => true | _ => false end.

(** Modelled from the spec: the accessor [getRanges()], the "ordered
    sequence of disjoint Ranges". *)
Definition getRanges (s : DisjointRangeSet) : list Range := s.

(** Modelled from the spec: [maxPosition], the later of two positions in
    the order "compare line then column". *)
Definition maxPosition (a b : Position) : Position :=
  if isBefore a b then b else a.

(** Modelled from the spec: an Edit Delta "describes one edit as (old Range
    replaced, new text inserted)", from which the new range and the shift
    of later positions are derived. *)
Record RangeDelta : Type := mkRangeDelta { oldRange : Range; newText : string }.

(** Modelled from the spec: [toRangeDelta(range, text)], the delta of the
    edit that replaces [range] by [text]. *)
Definition toRangeDelta (r : Range) (text : string) : RangeDelta :=
  mkRangeDelta r text.

(** Modelled from the spec: the line feed, which separates the lines of an
    inserted text. *)
Definition LF : ascii := Ascii.ascii_of_nat 10.

(** Modelled from the spec: the "text extent", the number of line breaks of
    a text and the length of its last line. *)
Fixpoint textExtent (text : string) (brk col : nat) : nat * nat :=
  match text with
  | EmptyString => (brk, col)
  | String c rest =>
      if Ascii.eqb c LF then textExtent rest (S brk) 0
      else textExtent rest brk (S col)
  end.

(** Modelled from the spec: the "new range (the span the inserted text now
    occupies)". *)
Definition rangeDeltaNewRange (d : RangeDelta) : Range :=
  let s := start (oldRange d) in
  let '(brk, col) := textExtent (newText d) 0 0 in
  if brk =? 0 then mkRange s (mkPosition (line s) (character s + col))
  else mkRange s (mkPosition (line s + brk) col).

(** Modelled from the spec: the "line-count delta" between the new and the
    old extent. *)
Definition linesDelta (d : RangeDelta) : Z :=
  (Z.of_nat (line (end_ (rangeDeltaNewRange d))) - Z.of_nat (line (end_ (oldRange d))))%Z.

(** Modelled from the spec: the "trailing-column delta" between the new and
    the old extent. *)
Definition endCharactersDelta (d : RangeDelta) : Z :=
  (Z.of_nat (character (end_ (rangeDeltaNewRange d)))
   - Z.of_nat (character (end_ (oldRange d))))%Z.

(** Modelled from the spec: "positions strictly after the old range's end
    are translated by the difference between new and old text extents
    (line-count delta and trailing-column delta); positions before the edit
    are untouched"; the column moves only on the line of the old end. *)
Definition shiftPosition (d : RangeDelta) (p : Position) : Position :=
  if isBefore (end_ (oldRange d)) p then
    mkPosition (Z.to_nat (Z.of_nat (line p) + linesDelta d))
               (if line p =? line (end_ (oldRange d))
                then Z.to_nat (Z.of_nat (character p) + endCharactersDelta d)
                else character p)
  else p.

(** Modelled from the spec: a range is translated at both ends. *)
Definition shiftRange (d : RangeDelta) (r : Range) : Range :=
  mkRange (shiftPosition d (start r)) (shiftPosition d (end_ r)).

(** Modelled from the spec: [shiftRangeDelta(delta)] "translates every
    stored range by the Edit Delta's shift function".  The range that the
    method returns is read by the debugging code alone and is left out. *)
Definition shiftRangeDelta (d : RangeDelta) (s : DisjointRangeSet) : DisjointRangeSet :=
  map (shiftRange d) s.

End drangeset.

Import drangeset.

(** ** Global regular expressions of the language ([RegExp] with the [g] flag)

    A compiled expression carries its matcher: applied to a text and an
    index, the matcher fails or gives the length of the match that starts at
    that index and the texts of the capturing groups ([None] for a group that
    did not take part).  [lastIndex] is the mutable search position. *)

Record RegExp : Type := mkRegExp {
  source : string;
  lastIndex : nat;
  matcher : string -> nat -> option (nat * list (option string))
}.

Definition set_lastIndex (re : RegExp) (i : nat) : RegExp :=
  mkRegExp (source re) i (matcher re).

(** The result array of [exec]: [match.index], [match[0]] and the groups
    [match[1]], [match[2]], ... *)
Record RegExpExecArray : Type := mkExecArray {
  index : nat;
  match0 : string;
  groups : list (option string)
}.

Definition toArray (m : RegExpExecArray) : list (option string) :=
  Some (match0 m) :: groups m.

(** The matcher is tried at [i], [i+1], ..., [i+n]. *)
Fixpoint searchFrom (mt : string -> nat -> option (nat * list (option string)))
         (s : string) (i n : nat) : option (nat * (nat * list (option string))) :=
  match mt s i with
  | Some r => Some (i, r)
  | None =>
      match n with
      | 0 => None
      | S n' => searchFrom mt s (S i) n'
      end
  end.

(** [re.exec(s)] of a global expression: the search starts at [lastIndex];
    a failure resets [lastIndex] to 0, a success moves it to the end of the
    match. *)
Definition exec (re : RegExp) (s : string) : option RegExpExecArray * RegExp :=
  if String.length s <? lastIndex re then (None, set_lastIndex re 0)
  else
    match searchFrom (matcher re) s (lastIndex re) (String.length s - lastIndex re) with
    | None => (None, set_lastIndex re 0)
    | Some (i, (len, caps)) =>
        (Some (mkExecArray i (substring i len s) caps), set_lastIndex re (i + len))
    end.

(** The initial value of [uglyAll], the global expression of the empty
    pattern: it matches the empty text everywhere. *)
Definition emptyRegExp : RegExp :=
  mkRegExp EmptyString 0 (fun _ _ => Some (0, [])).

(** ** Configuration ([configuration.ts], types only) *)

Module configuration.

(** Modelled from the spec: a Pattern Rule of the configuration, "{ugly
    pattern, optional pre/post context patterns, pretty display string}";
    the fields are the ones that [loadDecorations] reads. *)
Record Substitution : Type := mkSubstitution {
  ugly : string;
  pretty : string;
  pre : option string;
  post : option string
}.

(** Modelled from the spec: the configuration of a language, "an ordered
    list of Pattern Rules" with a reveal strategy, a flag for the cursor
    adjustment and a cursor style; only the list reaches the scanning code,
    the rest is read by the rendering and cursor code alone and is left
    out. *)
Record LanguageEntry : Type := mkLanguageEntry {
  substitutions : list Substitution
}.

End configuration.

(** ** The controller *)

(** [interface PrettySubstitution]; the decoration type is a handle of the
    renderer and is left out. *)
Record PrettySubstitution : Type := mkPrettySubstitution {
  ugly : RegExp;
  pretty : string;
  ranges : DisjointRangeSet
}.

Definition set_ranges (p : PrettySubstitution) (s : DisjointRangeSet) : PrettySubstitution :=
  mkPrettySubstitution (ugly p) (pretty p) s.

(** The fields of [PrettyDocumentController] that the scanning code reads or
    writes.  [document] is the content of the shared document object;
    [console] collects the messages of [console.warn] and [console.error];
    [applyDecorationsCalls] counts the calls of [applyDecorations], whose two
    timers are the pending flags. *)
Record PrettyDocumentController : Type := mkController {
  document : TextDocument;
  prettyDecorations : list PrettySubstitution;
  prettySubstitutions : list configuration.Substitution;
  uglyAll : RegExp;
  uglyDecorationRanges : DisjointRangeSet;
  changedUglies : bool;
  applyDecorationsTimeout : bool;
  applyDecorationsTimeoutActive : bool;
  applyDecorationsCalls : nat;
  console : list string
}.

Definition set_document (this : PrettyDocumentController) (d : TextDocument) :=
  mkController d (prettyDecorations this) (prettySubstitutions this) (uglyAll this)
    (uglyDecorationRanges this) (changedUglies this) (applyDecorationsTimeout this)
    (applyDecorationsTimeoutActive this) (applyDecorationsCalls this) (console this).

Definition set_prettyDecorations (this : PrettyDocumentController) (l : list PrettySubstitution) :=
  mkController (document this) l (prettySubstitutions this) (uglyAll this)
    (uglyDecorationRanges this) (changedUglies this) (applyDecorationsTimeout this)
    (applyDecorationsTimeoutActive this) (applyDecorationsCalls this) (console this).

Definition set_uglyAll (this : PrettyDocumentController) (re : RegExp) :=
  mkController (document this) (prettyDecorations this) (prettySubstitutions this) re
    (uglyDecorationRanges this) (changedUglies this) (applyDecorationsTimeout this)
    (applyDecorationsTimeoutActive this) (applyDecorationsCalls this) (console this).

Definition set_uglyDecorationRanges (this : PrettyDocumentController) (s : DisjointRangeSet) :=
  mkController (document this) (prettyDecorations this) (prettySubstitutions this) (uglyAll this)
    s (changedUglies this) (applyDecorationsTimeout this)
    (applyDecorationsTimeoutActive this) (applyDecorationsCalls this) (console this).

Definition set_changedUglies (this : PrettyDocumentController) (b : bool) :=
  mkController (document this) (prettyDecorations this) (prettySubstitutions this) (uglyAll this)
    (uglyDecorationRanges this) b (applyDecorationsTimeout this)
    (applyDecorationsTimeoutActive this) (applyDecorationsCalls this) (console this).

Definition log (this : PrettyDocumentController) (msg : string) :=
  mkController (document this) (prettyDecorations this) (prettySubstitutions this) (uglyAll this)
    (uglyDecorationRanges this) (changedUglies this) (applyDecorationsTimeout this)
    (applyDecorationsTimeoutActive this) (applyDecorationsCalls this) (console this ++ [msg])%list.

(** [this.uglyAll.lastIndex = i] *)
Definition set_uglyAll_lastIndex (this : PrettyDocumentController) (i : nat) :=
  set_uglyAll this (set_lastIndex (uglyAll this) i).

(** How a call ends: normally with a value, with an exception, or never (a
    scanning loop that repeats its state).  The controller is the one the
    call leaves behind. *)
Inductive Completion (A : Type) : Type :=
| Normal (a : A) (this : PrettyDocumentController)
| Throw (e : string) (this : PrettyDocumentController)
| Hang.

Arguments Normal {A} a this.
Arguments Hang {A}.
Arguments Throw {A} e this.

(** [applyDecorations]: both timers are armed unless they are pending; what
    the timers do when they fire belongs to the renderer. *)
Definition applyDecorations (this : PrettyDocumentController) : PrettyDocumentController :=
  mkController (document this) (prettyDecorations this) (prettySubstitutions this) (uglyAll this)
    (uglyDecorationRanges this) (changedUglies this) true true
    (S (applyDecorationsCalls this)) (console this).

Definition unloadDecorations (this : PrettyDocumentController) : PrettyDocumentController :=
  let this := set_uglyDecorationRanges this empty in
  let this := set_prettyDecorations this
                (map (fun subst => set_ranges subst empty) (prettyDecorations this)) in
  applyDecorations this.

Definition regexpOptionalGroup (re : option string) : string :=
  match re with
  | Some (String c r) => "(?:" ++ String c r ++ ")"
  | _ => EmptyString
  end.

Definition uglyStrOf (prettySubst : configuration.Substitution) : string :=
  regexpOptionalGroup (configuration.pre prettySubst)
  ++ "(" ++ configuration.ugly prettySubst ++ ")"
  ++ regexpOptionalGroup (configuration.post prettySubst).

Definition dquote : string := String (Ascii.ascii_of_nat 34) EmptyString.

Definition warning (prettySubst : configuration.Substitution) : string :=
  "Could not add rule " ++ dquote ++ uglyStrOf prettySubst ++ dquote ++ " --> "
  ++ dquote ++ configuration.pretty prettySubst ++ dquote
  ++ "; invalid regular expression".

Section Engine.

(** [new RegExp(pattern, "g")]; [None] is the [SyntaxError] of a pattern
    that does not compile.  A fresh expression has [lastIndex] 0. *)
Variable RegExp_new : string -> option RegExp.

(** The body of the [for] loop of [loadDecorations], with the strings
    collected for the combined expression. *)
Definition loadDecoration (acc : PrettyDocumentController * list string)
           (prettySubst : configuration.Substitution)
  : PrettyDocumentController * list string :=
  let '(this, uglyAllStrings) := acc in
  let uglyStr := uglyStrOf prettySubst in
  match RegExp_new uglyStr with
  | Some re =>
      (set_prettyDecorations this
         (prettyDecorations this
          ++ [mkPrettySubstitution re (configuration.pretty prettySubst) empty])%list,
       (uglyAllStrings ++ [("(?:" ++ uglyStr ++ ")")%string])%list)
  | None => (log this (warning prettySubst), uglyAllStrings)
  end.

Definition loadDecorations (this : PrettyDocumentController) : Completion unit :=
  let this := unloadDecorations this in
  let this := set_prettyDecorations this [] in
  let '(this, uglyAllStrings) :=
    fold_left loadDecoration (prettySubstitutions this) (this, []) in
  match RegExp_new (String.concat "|" uglyAllStrings) with
  | Some re => Normal tt (set_uglyAll this re)
  | None => Throw "SyntaxError" this
  end.

End Engine.

(** ** Scanning *)

(** What [getUglyFromMatch] returns for a match that names a rule. *)
Record Ugly : Type := mkUgly { range : Range; prettyIndex : nat }.

(** [match.map((value,idx) => ({index:idx,match:value}))
          .filter((value) => value.match !== undefined)] *)
Fixpoint definedFrom (idx : nat) (arr : list (option string)) : list (nat * string) :=
  match arr with
  | [] => []
  | Some v :: rest => (idx, v) :: definedFrom (S idx) rest
  | None :: rest => definedFrom (S idx) rest
  end.

(** [s.indexOf(t)], -1 when [t] does not occur in [s]. *)
Definition indexOf (s t : string) : Z :=
  match String.index 0 t s with
  | Some k => Z.of_nat k
  | None => (-1)%Z
  end.

(** [getUglyFromMatch(match, line)]: [None] is [undefined]; the exception is
    the one of [new vscode.Range] on a negative column. *)
Definition getUglyFromMatch (m : RegExpExecArray) (ln : nat)
           (this : PrettyDocumentController) : Completion (option Ugly) :=
  let matches := definedFrom 0 (toArray m) in
  if List.length matches <=? 1 then Normal None this
  else
    let matchIdx := fst (last matches (0, EmptyString)) in
    let matchStr := snd (last matches (0, EmptyString)) in
    let start := (Z.of_nat (index m) + indexOf (match0 m) matchStr)%Z in
    let end' := (start + Z.of_nat (String.length matchStr))%Z in
    if (start <? 0)%Z then Throw "illegal argument" this
    else
      let uglyRange := newRange (mkPosition ln (Z.to_nat start))
                                (mkPosition ln (Z.to_nat end')) in
      (* continue the search at the end of the ugly bit; not the whole match *)
      let this := set_uglyAll_lastIndex this (Z.to_nat end') in
      Normal (Some (mkUgly uglyRange (matchIdx - 1))) this.

(** The fresh sets of one [parsePretty] call. *)
Record Fresh : Type := mkFresh {
  newUglyRanges : DisjointRangeSet;
  newPrettyRanges : list DisjointRangeSet
}.

Fixpoint updateAt {A : Type} (l : list A) (i : nat) (x : A) : list A :=
  match l, i with
  | [], _ => []
  | _ :: t, 0 => x :: t
  | h :: t, S i' => h :: updateAt t i' x
  end.

(** The [while] loop over one of the lines before the last line of the
    range.  The loop leaves when [exec] fails; an exception leaves
    [parsePretty]; a round that does not move [lastIndex] repeats for ever.
    [lastIndex] never decreases, so [String.length text + 2] rounds are
    enough for every loop that ends. *)
Fixpoint scanLine (fuel : nat) (text : string) (idx : nat)
         (this : PrettyDocumentController) (fresh : Fresh) : Completion Fresh :=
  match fuel with
  | 0 => Hang
  | S fuel' =>
      let before := lastIndex (uglyAll this) in
      match exec (uglyAll this) text with
      | (None, re) => Normal fresh (set_uglyAll this re)
      | (Some m, re) =>
          match getUglyFromMatch m idx (set_uglyAll this re) with
          | Hang => Hang
          | Throw e this' => Throw e this'
          | Normal None this' =>
              if lastIndex (uglyAll this') <=? before then Hang
              else scanLine fuel' text idx this' fresh
          | Normal (Some ugly) this' =>
              let newU := insert (range ugly) (newUglyRanges fresh) in
              match nth_error (newPrettyRanges fresh) (prettyIndex ugly) with
              | None => Throw "TypeError" this'
              | Some s =>
                  let newP := updateAt (newPrettyRanges fresh) (prettyIndex ugly)
                                       (insert (range ugly) s) in
                  if lastIndex (uglyAll this') <=? before then Hang
                  else scanLine fuel' text idx this' (mkFresh newU newP)
              end
          end
      end
  end.

(** The [for] loop over the lines before the last line of the range. *)
Fixpoint scanLines (n idx : nat) (this : PrettyDocumentController) (fresh : Fresh)
  : Completion Fresh :=
  match n with
  | 0 => Normal fresh this
  | S n' =>
      match lineAt (document this) idx with
      | None => Throw "illegal value for line" this
      | Some text =>
          match scanLine (String.length text + 2) text idx this fresh with
          | Normal fresh' this' =>
              (* next search starts at the beginning of the line *)
              scanLines n' (S idx) (set_uglyAll_lastIndex this' 0) fresh'
          | Throw e this' => Throw e this'
          | Hang => Hang
          end
      end
  end.

(** The two insertions of the loop over the last line, inside its [try]: the
    candidate goes into the fresh aggregate set and then into the fresh set
    of its rule; when there is no such rule the exception is swallowed after
    the first insertion. *)
Definition insertFresh (ugly : Ugly) (fresh : Fresh) : Fresh :=
  let newU := insert (range ugly) (newUglyRanges fresh) in
  match nth_error (newPrettyRanges fresh) (prettyIndex ugly) with
  | None => mkFresh newU (newPrettyRanges fresh)
  | Some s =>
      mkFresh newU (updateAt (newPrettyRanges fresh) (prettyIndex ugly)
                             (insert (range ugly) s))
  end.

(** The [while] loop over the last line of the range.  [pre] is what the
    iterator [preexistingUgliesIter] has still to give, its head being
    [preexistingUgly] ([[]] when the iterator is done); the loop returns the
    fresh sets and the iterator as it leaves them.  The [try] of the loop body
    swallows every exception.  A round that moves neither [lastIndex] nor the
    iterator repeats for ever. *)
Fixpoint scanLastLine (fuel : nat) (text : string) (ln : nat)
         (this : PrettyDocumentController) (pre : list Range) (fresh : Fresh)
  : Completion (Fresh * list Range) :=
  match fuel with
  | 0 => Hang
  | S fuel' =>
      let before := lastIndex (uglyAll this) in
      match exec (uglyAll this) text with
      | (None, re) => Normal (fresh, pre) (set_uglyAll this re)
      | (Some m, re) =>
          match getUglyFromMatch m ln (set_uglyAll this re) with
          | Hang => Hang
          | Throw _ this' =>
              if lastIndex (uglyAll this') <=? before then Hang
              else scanLastLine fuel' text ln this' pre fresh
          | Normal None this' =>
              if lastIndex (uglyAll this') <=? before then Hang
              else scanLastLine fuel' text ln this' pre fresh
          | Normal (Some ugly) this' =>
              let stop :=
                match pre with
                | p :: _ => isEqual p (range ugly)
                | [] => false
                end in
              (* if we have just matched a preexisting ugly, then we are done *)
              if stop then Normal (fresh, pre) this'
              else
                let pre' :=
                  match pre with
                  | p :: rest =>
                      if isBefore (start p) (end_ (range ugly)) then rest else pre
                  | [] => pre
                  end in
                if (lastIndex (uglyAll this') <=? before)
                   && (List.length pre <=? List.length pre') then Hang
                else scanLastLine fuel' text ln this' pre' (insertFresh ugly fresh)
          end
      end
  end.

Fixpoint zipRanges (f : DisjointRangeSet -> DisjointRangeSet -> DisjointRangeSet)
         (l : list PrettySubstitution) (news : list DisjointRangeSet)
  : list PrettySubstitution :=
  match l, news with
  | p :: l', n :: news' => set_ranges p (f n (ranges p)) :: zipRanges f l' news'
  | _, _ => l
  end.

(** The end of [parsePretty], after the two scanning loops: stale ranges past
    the end of the range are removed, the fresh sets are merged in and the
    range that was parsed is returned. *)
Definition mergeFresh (range : Range) (startCharacter : nat) (fresh : Fresh)
           (this : PrettyDocumentController) : Range * PrettyDocumentController :=
  let newEnd := getEnd (newUglyRanges fresh) in
  (* remove any freshly discarded uglies: from range.end to the last new ugly position *)
  let this :=
    if isBefore (end_ range) newEnd then
      let extraOverlap := newRange (end_ range) newEnd in
      let this := set_uglyDecorationRanges this
                    (snd (removeOverlapping extraOverlap false false
                                            (uglyDecorationRanges this))) in
      set_prettyDecorations this
        (map (fun subst =>
                set_ranges subst
                  (snd (removeOverlapping extraOverlap false false (ranges subst))))
             (prettyDecorations this))
    else this in
  (* add the new pretties & ugly ducklings *)
  let this := set_uglyDecorationRanges this
                (insertRanges (newUglyRanges fresh) (uglyDecorationRanges this)) in
  let this := set_prettyDecorations this
                (zipRanges insertRanges (prettyDecorations this) (newPrettyRanges fresh)) in
  if negb (isEmpty (newUglyRanges fresh)) then
    (newRange (with_character (start range) startCharacter)
              (maxPosition (end_ range) newEnd),
     set_changedUglies this true)
  else
    (newRange (with_character (start range) startCharacter) (end_ range), this).

(** The column at which [parsePretty] resumes the scan of the first line of
    the (validated) range. *)
Definition resumeCharacter (range : Range) (this : PrettyDocumentController) : nat :=
  match findPreceding (start range) (uglyDecorationRanges this) with
  | Some precedingRange =>
      if line (end_ precedingRange) =? line (start range)
      then character (end_ precedingRange)
      else 0
  | None => 0
  end.

(** The two scanning loops of [parsePretty], run on the validated range from
    the controller whose [lastIndex] is the column at which the scan
    resumes. *)
Definition scanRange (range : Range) (this : PrettyDocumentController)
  : Completion Fresh :=
  let fresh := mkFresh empty (map (fun _ => empty) (prettyDecorations this)) in
  (* parse all but the last line *)
  match scanLines (line (end_ range) - line (start range)) (line (start range))
                  this fresh with
  | Hang => Hang
  | Throw e this' => Throw e this'
  | Normal fresh this =>
      (* handle the last line with special care *)
      match lineAt (document this) (line (end_ range)) with
      | None => Throw "illegal value for line" this
      | Some text =>
          let pre := getRangesStartingAt (end_ range) (uglyDecorationRanges this) in
          match scanLastLine (String.length text + 2 + List.length pre) text
                             (line (end_ range)) this pre fresh with
          | Hang => Hang
          | Throw e this' => Throw e this'
          | Normal (fresh, _) this => Normal fresh this
          end
      end
  end.

(** [parsePretty(range)] *)
Definition parsePretty (range : Range) (this : PrettyDocumentController)
  : Completion Range :=
  if List.length (prettyDecorations this) =? 0 then Normal range this
  else
    let range := validateRange (document this) range in
    let this := set_uglyAll_lastIndex this (resumeCharacter range this) in
    let startCharacter := lastIndex (uglyAll this) in
    match scanRange range this with
    | Hang => Hang
    | Throw e this' => Throw e this'
    | Normal fresh this =>
        let '(reparsed, this) := mergeFresh range startCharacter fresh this in
        Normal reparsed this
    end.

(** ** Edits *)

Module vscode.

(** [vscode.TextDocumentContentChangeEvent]: the range that is replaced and
    the text that replaces it. *)
Record TextDocumentContentChangeEvent : Type := mkChange {
  range : Range;
  text : string
}.

(** [vscode.TextDocumentChangeEvent]; [document] is the content of the
    document when the event is delivered, that is after the changes. *)
Record TextDocumentChangeEvent : Type := mkChangeEvent {
  document : TextDocument;
  contentChanges : list TextDocumentContentChangeEvent
}.

End vscode.

(** The body of the [for] loop of [onChangeDocument]; its [try] swallows the
    exceptions and reports them with [console.error]. *)
Definition onChange (this : PrettyDocumentController)
           (change : vscode.TextDocumentContentChangeEvent) : Completion unit :=
  let delta := toRangeDelta (vscode.range change) (vscode.text change) in
  let editRange := rangeDeltaNewRange delta in
  let '(removed, kept) :=
    removeOverlapping (vscode.range change) true true (uglyDecorationRanges this) in
  let this := set_uglyDecorationRanges this (shiftRangeDelta delta kept) in
  let this := if 0 <? List.length removed then set_changedUglies this true else this in
  let this :=
    set_prettyDecorations this
      (map (fun subst =>
              set_ranges subst
                (shiftRangeDelta delta
                   (snd (removeOverlapping (vscode.range change) true true (ranges subst)))))
           (prettyDecorations this)) in
  match parsePretty editRange this with
  | Normal _ this => Normal tt this
  | Throw e this => Normal tt (log this e)
  | Hang => Hang
  end.

Fixpoint onChanges (this : PrettyDocumentController)
         (changes : list vscode.TextDocumentContentChangeEvent) : Completion unit :=
  match changes with
  | [] => Normal tt this
  | change :: rest =>
      match onChange this change with
      | Normal _ this => onChanges this rest
      | Throw e this => Throw e this
      | Hang => Hang
      end
  end.

(** [onChangeDocument(event)] *)
Definition onChangeDocument (event : vscode.TextDocumentChangeEvent)
           (this : PrettyDocumentController) : Completion unit :=
  let this := set_changedUglies this false in
  match onChanges this (vscode.contentChanges event) with
  | Normal _ this =>
      if changedUglies this || true then Normal tt (applyDecorations this)
      else Normal tt this
  | Throw e this => Throw e this
  | Hang => Hang
  end.

(** The subscription made by the constructor: the controller holds the
    document object that the host has changed before it delivers the
    event. *)
Definition onDidChangeTextDocument (event : vscode.TextDocumentChangeEvent)
           (this : PrettyDocumentController) : Completion unit :=
  onChangeDocument event (set_document this (vscode.document event)).

(** [new vscode.Range(0,0,this.document.lineCount,0)] *)
Definition docRange (this : PrettyDocumentController) : Range :=
  newRange (mkPosition 0 0) (mkPosition (lineCount (document this)) 0).

(** [refresh()] *)
Definition refresh (this : PrettyDocumentController) : Completion unit :=
  let this := set_uglyDecorationRanges this empty in
  let this := set_prettyDecorations this
                (map (fun subst => set_ranges subst empty) (prettyDecorations this)) in
  match parsePretty (docRange this) this with
  | Normal _ this => Normal tt (applyDecorations this)
  | Throw e this => Throw e this
  | Hang => Hang
  end.

Section Construction.

Variable RegExp_new : string -> option RegExp.

(** The field initialisers of the class. *)
Definition initial (doc : TextDocument) : PrettyDocumentController :=
  mkController doc [] [] emptyRegExp empty false false false 0 [].

(** [new PrettyDocumentController(doc, settings)] *)
Definition construct (doc : TextDocument) (settings : configuration.LanguageEntry)
  : Completion unit :=
  let this := initial doc in
  let this :=
    mkController (document this) (prettyDecorations this)
      (configuration.substitutions settings) (uglyAll this)
      (uglyDecorationRanges this) (changedUglies this) (applyDecorationsTimeout this)
      (applyDecorationsTimeoutActive this) (applyDecorationsCalls this) (console this) in
  match loadDecorations RegExp_new this with
  | Normal _ this =>
      (* Parse whole document *)
      match parsePretty (docRange this) this with
      | Normal _ this => Normal tt (applyDecorations this)
      | Throw e this => Throw e this
      | Hang => Hang
      end
  | Throw e this => Throw e this
  | Hang => Hang
  end.

End Construction.

(** The indices as the renderer reads them: the aggregate index and the index
    of every rule. *)
Definition indices (this : PrettyDocumentController) : list Range * list (list Range) :=
  (getRanges (uglyDecorationRanges this),
   map (fun subst => getRanges (ranges subst)) (prettyDecorations this)).

(** ** A small regular expression engine

    The language's engine on the patterns made of literal characters, the
    dot, groups (capturing and [(?:...)]), alternation and the greedy [?]:
    leftmost match, the first alternative that leads to a match, the optional
    part taken when it can be.  It is the engine at which the scanning code
    is run on concrete rules, on lines of one-byte characters, for which the
    columns are those of the language.  [compile] accepts these patterns
    alone; of the patterns that it refuses, the one used below, [(()], has an
    unbalanced parenthesis and is refused by the language as well. *)

Module MiniRegExp.

Inductive re : Type :=
| Eps
| Chr (c : ascii)
| Any
| Seq (a b : re)
| Alt (a b : re)
| Opt (a : re)
| Cap (k : nat) (a : re).

Definition isMeta (c : ascii) : bool :=
  existsb (Ascii.eqb c)
          (list_ascii_of_string "^$\.*+?()[]{}|").

(** Recursive descent over the pattern; the number is the next capturing
    group. *)
Fixpoint parseDisj (fuel : nat) (s : string) (n : nat) : option (re * string * nat) :=
  match fuel with
  | 0 => None
  | S f =>
      match parseAlt f s n with
      | Some (a, String "|" s', n') =>
          match parseDisj f s' n' with
          | Some (b, s'', n'') => Some (Alt a b, s'', n'')
          | None => None
          end
      | other => other
      end
  end
with parseAlt (fuel : nat) (s : string) (n : nat) : option (re * string * nat) :=
  match fuel with
  | 0 => None
  | S f =>
      match s with
      | EmptyString => Some (Eps, s, n)
      | String "|" _ => Some (Eps, s, n)
      | String ")" _ => Some (Eps, s, n)
      | _ =>
          match parseTerm f s n with
          | Some (a, s', n') =>
              match parseAlt f s' n' with
              | Some (Eps, s'', n'') => Some (a, s'', n'')
              | Some (b, s'', n'') => Some (Seq a b, s'', n'')
              | None => None
              end
          | None => None
          end
      end
  end
with parseTerm (fuel : nat) (s : string) (n : nat) : option (re * string * nat) :=
  match fuel with
  | 0 => None
  | S f =>
      let quantified (r : option (re * string * nat)) :=
        match r with
        | Some (a, String "?" s', n') =>
            match s' with
            | String "?" _ => None
            | _ => Some (Opt a, s', n')
            end
        | other => other
        end in
      match s with
      | String "(" (String "?" (String ":" s')) =>
          quantified
            match parseDisj f s' n with
            | Some (a, String ")" s'', n') => Some (a, s'', n')
            | _ => None
            end
      | String "(" s' =>
          quantified
            match parseDisj f s' (S n) with
            | Some (a, String ")" s'', n') => Some (Cap n a, s'', n')
            | _ => None
            end
      | String "." s' => quantified (Some (Any, s', n))
      | String "\" (String c s') =>
          if isMeta c then quantified (Some (Chr c, s', n)) else None
      | String c s' =>
          if isMeta c then None else quantified (Some (Chr c, s', n))
      | EmptyString => None
      end
  end.

Definition isLineTerminator (c : ascii) : bool :=
  Ascii.eqb c (Ascii.ascii_of_nat 10) || Ascii.eqb c (Ascii.ascii_of_nat 13).

(** The text that was consumed between the input [s] and the rest [s']. *)
Definition consumed (s s' : string) : string :=
  substring 0 (String.length s - String.length s') s.

(** Backtracking matcher: every way of matching [r] at the head of [s], in
    the order in which the language's engine tries them, each with the rest
    of the input and the groups.  A group that took part is kept with the
    length of the input that was left when it began, and with its text.  An
    optional part that would match the empty text is not taken, as in the
    language, so that the groups inside it stay undefined. *)
Fixpoint mt (r : re) (s : string) (c : list (option (nat * string)))
  : list (string * list (option (nat * string))) :=
  match r with
  | Eps => [(s, c)]
  | Chr a =>
      match s with
      | String b s' => if Ascii.eqb a b then [(s', c)] else []
      | EmptyString => []
      end
  | Any =>
      match s with
      | String b s' => if isLineTerminator b then [] else [(s', c)]
      | EmptyString => []
      end
  | Seq a b => flat_map (fun x => mt b (fst x) (snd x)) (mt a s c)
  | Alt a b => (mt a s c ++ mt b s c)%list
  | Opt a =>
      (filter (fun x => negb (String.length (fst x) =? String.length s)) (mt a s c)
       ++ [(s, c)])%list
  | Cap k a =>
      map (fun x => (fst x,
                     updateAt (snd x) k (Some (String.length s, consumed s (fst x)))))
          (mt a s c)
  end.

(** The first way of matching [r] at column [i] of [text]: the rest of the
    line and the groups. *)
Definition firstAt (r : re) (ngroups : nat) (text : string) (i : nat)
  : option (string * list (option (nat * string))) :=
  hd_error (mt r (substring i (String.length text - i) text) (repeat None ngroups)).

Definition matchAt (r : re) (ngroups : nat) (text : string) (i : nat)
  : option (nat * list (option string)) :=
  match firstAt r ngroups text i with
  | None => None
  | Some x =>
      Some (String.length text - i - String.length (fst x),
            map (option_map snd) (snd x))
  end.

(** The columns between which each group of the match at column [i] matched
    ([None] for a group that did not take part). *)
Definition groupSpansAt (r : re) (ngroups : nat) (text : string) (i : nat)
  : option (list (option (nat * nat))) :=
  match firstAt r ngroups text i with
  | None => None
  | Some x =>
      Some (map (option_map
                   (fun g => (String.length text - fst g,
                              String.length text - fst g + String.length (snd g))))
                (snd x))
  end.

Definition parse (pattern : string) : option (re * nat) :=
  match parseDisj (3 * String.length pattern + 3) pattern 0 with
  | Some (r, EmptyString, n) => Some (r, n)
  | _ => None
  end.

(** [new RegExp(pattern, "g")] *)
Definition compile (pattern : string) : option RegExp :=
  match parse pattern with
  | Some (r, n) => Some (mkRegExp pattern 0 (matchAt r n))
  | None => None
  end.

(** Where the groups of the match of [pattern] at column [i] matched. *)
Definition groupSpans (pattern : string) (text : string) (i : nat)
  : option (list (option (nat * nat))) :=
  match parse pattern with
  | Some (r, n) => groupSpansAt r n text i
  | None => None
  end.

End MiniRegExp.

(** ** The host's side of an edit *)

(** The lines of a text, separated by line feeds. *)
Fixpoint splitLines (text : string) (cur : string) : list string :=
  match text with
  | EmptyString => [cur]
  | String c rest =>
      if Ascii.eqb c LF then cur :: splitLines rest EmptyString
      else splitLines rest (cur ++ String c EmptyString)
  end.

(** The document after the host has replaced the text of the change's range
    by the change's text. *)
Definition applyChange (d : TextDocument) (change : vscode.TextDocumentContentChangeEvent)
  : TextDocument :=
  let r := vscode.range change in
  let first := nth (line (start r)) (lines d) EmptyString in
  let last := nth (line (end_ r)) (lines d) EmptyString in
  let prefix := substring 0 (character (start r)) first in
  let suffix := substring (character (end_ r)) (String.length last - character (end_ r)) last in
  mkDocument (firstn (line (start r)) (lines d)
              ++ splitLines (prefix ++ vscode.text change ++ suffix) EmptyString
              ++ skipn (S (line (end_ r))) (lines d))%list.

(** One edit of the document as the controller sees it: the host changes the
    document and delivers the event with this one change. *)
Definition edit (change : vscode.TextDocumentContentChangeEvent)
           (this : PrettyDocumentController) : Completion unit :=
  onDidChangeTextDocument
    (vscode.mkChangeEvent (applyChange (document this) change) [change]) this.

(** A sequence of edits, each delivered as an event of its own. *)
Fixpoint edits (changes : list vscode.TextDocumentContentChangeEvent)
         (this : PrettyDocumentController) : Completion unit :=
  match changes with
  | [] => Normal tt this
  | change :: rest =>
      match edit change this with
      | Normal _ this => edits rest this
      | Throw e this => Throw e this
      | Hang => Hang
      end
  end.

(** ** Rules and documents on which the code is run *)

Module Examples.

(** A substitution without context, with context before or after it. *)
Definition rule (ugly : string) : configuration.Substitution :=
  configuration.mkSubstitution ugly "~" None None.

Definition ruleAfter (pre ugly : string) : configuration.Substitution :=
  configuration.mkSubstitution ugly "~" (Some pre) None.

Definition ruleBefore (ugly post : string) : configuration.Substitution :=
  configuration.mkSubstitution ugly "~" None (Some post).

(** A controller is made for a document with the given lines. *)
Definition openDocument (rules : list configuration.Substitution) (doc : list string)
  : Completion unit :=
  construct MiniRegExp.compile (mkDocument doc) (configuration.mkLanguageEntry rules).

(** The controller that a call leaves behind (the initial controller of an
    empty document for a call that never ends). *)
Definition controller {A : Type} (c : Completion A) : PrettyDocumentController :=
  match c with
  | Normal _ this => this
  | Throw _ this => this
  | Hang => initial (mkDocument [])
  end.

Definition rangeOf (l1 c1 l2 c2 : nat) : Range :=
  mkRange (mkPosition l1 c1) (mkPosition l2 c2).

Definition change (l1 c1 l2 c2 : nat) (text : string)
  : vscode.TextDocumentContentChangeEvent :=
  vscode.mkChange (rangeOf l1 c1 l2 c2) text.

End Examples.

(** ** Arrays *)

(** The [for] loop of [arrayEqual], which runs over two arrays of the same
    length and leaves at the first pair that [isEqual] refuses. *)
Fixpoint arrayEqualFrom {T : Type} (isEqual : T -> T -> bool) (a1 a2 : list T) : bool :=
  match a1, a2 with
  | x :: r1, y :: r2 =>
      if negb (isEqual x y) then false else arrayEqualFrom isEqual r1 r2
  | _, _ => true
  end.

(** [arrayEqual(a1, a2, isEqual)] *)
Definition arrayEqual {T : Type} (a1 a2 : list T) (isEqual : T -> T -> bool) : bool :=
  if negb (List.length a1 =? List.length a2) then false
  else arrayEqualFrom isEqual a1 a2.

(** ** Editors and the redraw timers *)

(** [vscode.Selection]: where the selection was started and where the cursor
    is. *)
Record Selection : Type := mkSelection { anchor : Position; active : Position }.

(** [vscode.TextEditor]: the editor object and the document object it shows,
    each by its identity, and the selections of the editor. *)
Record TextEditor : Type := mkEditor {
  editorId : nat;
  editorDocument : nat;
  selections : list Selection
}.

Definition set_selections (editor : TextEditor) (l : list Selection) : TextEditor :=
  mkEditor (editorId editor) (editorDocument editor) l.

(** [editor === vscode.window.activeTextEditor]; there may be no active
    editor. *)
Definition isActiveTextEditor (activeTextEditor : option TextEditor) (editor : TextEditor)
  : bool :=
  match activeTextEditor with
  | Some a => editorId editor =? editorId a
  | None => false
  end.

(** [getEditors()]; [doc] is the identity of the object [this.document]. *)
Definition getEditors (visibleTextEditors : list TextEditor) (doc : nat) : list TextEditor :=
  filter (fun editor => editorDocument editor =? doc) visibleTextEditors.

(** The decoration types that the timers set: [this.uglyDecoration] and the
    [decorationType] of the rule [prettyDecorations[idx]]. *)
Inductive DecorationType : Type :=
| uglyDecoration
| decorationTypeOf (idx : nat).

(** A call [editor.setDecorations(decorationType, ranges)]. *)
Record SetDecorations : Type := mkSetDecorations {
  decoratedEditor : nat;
  decorationType : DecorationType;
  decorationRanges : list Range
}.

(** [for(const subst of this.prettyDecorations)
       editor.setDecorations(subst.decorationType,subst.ranges.getRanges())] *)
Fixpoint setPrettyDecorations (editor : TextEditor) (idx : nat)
         (substs : list PrettySubstitution) : list SetDecorations :=
  match substs with
  | [] => []
  | subst :: rest =>
      mkSetDecorations (editorId editor) (decorationTypeOf idx) (getRanges (ranges subst))
      :: setPrettyDecorations editor (S idx) rest
  end.

(** What both timers do for an editor that they handle ([debugging] is
    false). *)
Definition setDecorationsOf (this : PrettyDocumentController) (editor : TextEditor)
  : list SetDecorations :=
  mkSetDecorations (editorId editor) uglyDecoration (getRanges (uglyDecorationRanges this))
  :: setPrettyDecorations editor 0 (prettyDecorations this).

(** The loop of the timer of the active editor: it leaves at the first editor
    that is not the active one. *)
Fixpoint activeEditorLoop (activeTextEditor : option TextEditor)
         (this : PrettyDocumentController) (editors : list TextEditor)
  : list SetDecorations :=
  match editors with
  | [] => []
  | editor :: rest =>
      if negb (isActiveTextEditor activeTextEditor editor) then [] (* break *)
      else (setDecorationsOf this editor
            ++ activeEditorLoop activeTextEditor this rest)%list
  end.

(** The loop of the timer of the other editors: it leaves at the first editor
    that is the active one. *)
Fixpoint inactiveEditorsLoop (activeTextEditor : option TextEditor)
         (this : PrettyDocumentController) (editors : list TextEditor)
  : list SetDecorations :=
  match editors with
  | [] => []
  | editor :: rest =>
      if isActiveTextEditor activeTextEditor editor then [] (* break *)
      else (setDecorationsOf this editor
            ++ inactiveEditorsLoop activeTextEditor this rest)%list
  end.

(** The timer armed when [applyDecorationsTimeoutActive] is not set fires:
    [editors] is the array that [applyDecorations] was given, the active
    editor and the indices are those of the moment at which the timer
    fires. *)
Definition activeTimeoutFires (activeTextEditor : option TextEditor)
           (editors : list TextEditor) (this : PrettyDocumentController)
  : list SetDecorations * PrettyDocumentController :=
  (activeEditorLoop activeTextEditor this editors,
   mkController (document this) (prettyDecorations this) (prettySubstitutions this)
     (uglyAll this) (uglyDecorationRanges this) (changedUglies this)
     (applyDecorationsTimeout this) false (applyDecorationsCalls this) (console this)).

(** The timer armed when [applyDecorationsTimeout] is not set fires. *)
Definition inactiveTimeoutFires (activeTextEditor : option TextEditor)
           (editors : list TextEditor) (this : PrettyDocumentController)
  : list SetDecorations * PrettyDocumentController :=
  (inactiveEditorsLoop activeTextEditor this editors,
   mkController (document this) (prettyDecorations this) (prettySubstitutions this)
     (uglyAll this) (uglyDecorationRanges this) (changedUglies this)
     false (applyDecorationsTimeoutActive this) (applyDecorationsCalls this) (console this)).

(** [dispose()]: the indices are unloaded, which arms the timers; the
    decoration types and the subscriptions that are disposed after that are
    handles of the host and no part of the controller's state. *)
Definition dispose (this : PrettyDocumentController) : PrettyDocumentController :=
  unloadDecorations this.

(** ** The cursor *)

(** [Map<vscode.TextEditor, vscode.Selection[]>], keyed by the identity of
    the editor. *)
Definition SelectionsMap : Type := nat -> option (list Selection).

Definition SelectionsMap_set (m : SelectionsMap) (editor : TextEditor) (l : list Selection)
  : SelectionsMap :=
  fun k => if k =? editorId editor then Some l else m k.

Section Cursor.

(** [pos.adjustCursorMovement(start, end, doc, avoidRanges).pos]; the
    function is defined in [position.ts]. *)
Variable adjustCursorMovement : Position -> Position -> TextDocument -> list Range -> Position.

(** [x == y] on two selection objects. *)
Variable sameObject : Selection -> Selection -> bool.

(** The body of [after.forEach((sel,idx) => ...)]: the selection that is
    pushed on [adjustedSelections] and whether [updated] is set. *)
Definition adjustSelection (before : list Selection) (this : PrettyDocumentController)
           (sel : Selection) (idx : nat) : Selection * bool :=
  match nth_error before idx with
  | None => (mkSelection (anchor sel) (active sel), false)
  | Some b =>
      let adjusted :=
        adjustCursorMovement (active b) (active sel) (document this)
                             (getRanges (uglyDecorationRanges this)) in
      let updated := negb (isEqualPos adjusted (active sel)) in
      (* if anchor==active, then adjust both; otherwise just adjust the active position *)
      if isEqualPos (anchor sel) (active sel)
      then (mkSelection adjusted adjusted, updated)
      else (mkSelection (anchor sel) adjusted, updated)
  end.

(** [after.forEach], from the index [idx] on. *)
Fixpoint adjustSelections (before : list Selection) (this : PrettyDocumentController)
         (idx : nat) (after : list Selection) : list Selection * bool :=
  match after with
  | [] => ([], false)
  | sel :: rest =>
      let '(adjusted, updated) := adjustSelection before this sel idx in
      let '(adjustedSelections, updated') := adjustSelections before this (S idx) rest in
      (adjusted :: adjustedSelections, updated || updated')
  end.

(** [adjustCursor(editor)]: the map [lastSelections] and the editor as the
    call leaves them. *)
Definition adjustCursor (lastSelections : SelectionsMap) (editor : TextEditor)
           (this : PrettyDocumentController) : SelectionsMap * TextEditor :=
  match lastSelections (editorId editor) with
  | None => (SelectionsMap_set lastSelections editor (selections editor), editor)
  | Some before =>
      let after := selections editor in
      if arrayEqual before after sameObject then (lastSelections, editor)
      else
        let '(adjustedSelections, updated) := adjustSelections before this 0 after in
        (SelectionsMap_set lastSelections editor adjustedSelections,
         if updated then set_selections editor adjustedSelections else editor)
  end.

End Cursor.

(** ** Notions used in the statements *)

(** [a] and [b] differ at most in the [lastIndex] of the combined
    expression. *)
Definition sameButLastIndex (a b : PrettyDocumentController) : Prop :=
  b = set_uglyAll_lastIndex a (lastIndex (uglyAll b)).

(** The completion leaves a controller that differs from [a] at most in the
    [lastIndex] of the combined expression. *)
Definition framed {A : Type} (a : PrettyDocumentController) (c : Completion A) : Prop :=
  match c with
  | Normal _ b => sameButLastIndex a b
  | Throw _ b => sameButLastIndex a b
  | Hang => True
  end.

(** The completion leaves a controller with [n] calls of
    [applyDecorations]. *)
Definition keepsCalls {A : Type} (n : nat) (c : Completion A) : Prop :=
  match c with
  | Normal _ b => applyDecorationsCalls b = n
  | Throw _ b => applyDecorationsCalls b = n
  | Hang => True
  end.

(** The reading of "the last non-empty capturing group": the last group
    (numbered from 0) whose text is defined and is not the empty text. *)
Definition lastNonEmptyGroup (m : RegExpExecArray) : option nat :=
  last (map (fun x => Some (fst x))
            (filter (fun x => negb (String.eqb (snd x) EmptyString))
                    (definedFrom 0 (groups m))))
       None.

(** The match of the rule [a(b?)] on the line [a]: the second group takes
    part and matches the empty text. *)
Definition emptyGroupMatch : RegExpExecArray :=
  mkExecArray 0 "a" [Some "a"; Some EmptyString].

(** The span from the end of the range to the furthest fresh match. *)
Definition extraOverlapOf (range : Range) (fresh : Fresh) : Range :=
  mkRange (end_ range) (getEnd (newUglyRanges fresh)).


(** The ranges of the aggregate index are those of the indices of the
    rules. *)
Definition aggregateIsUnion (this : PrettyDocumentController) : Prop :=
  forall q : Range,
    In q (uglyDecorationRanges this)
    <-> exists subst, In subst (prettyDecorations this) /\ In q (ranges subst).

(** The [lastIndex] that [getUglyFromMatch] leaves, from the match and the
    [lastIndex] that [exec] left. *)
Definition lastIndexAfter (m : RegExpExecArray) (after : nat) : nat :=
  let matches := definedFrom 0 (toArray m) in
  if List.length matches <=? 1 then after
  else
    let matchStr := snd (last matches (0, EmptyString)) in
    let start := (Z.of_nat (index m) + indexOf (match0 m) matchStr)%Z in
    if (start <? 0)%Z then after
    else Z.to_nat (start + Z.of_nat (String.length matchStr)).

(** The round that starts at column [L] of [text] moves [lastIndex]
    forward. *)
Definition progressesAt (re : RegExp) (text : string) (L : nat) : bool :=
  match exec (set_lastIndex re L) text with
  | (None, _) => true
  | (Some m, re') => L <? lastIndexAfter m (lastIndex re')
  end.

(** Every round on [text] moves [lastIndex] forward. *)
Definition progressesOn (re : RegExp) (text : string) : bool :=
  forallb (progressesAt re text) (seq 0 (S (String.length text))).

(** The call ends, normally or with an exception. *)
Definition ended {A : Type} (c : Completion A) : Prop :=
  match c with
  | Hang => False
  | _ => True
  end.

(** Every round of a scanning loop on a line of the document moves
    [lastIndex] forward, as it does when no match has an empty ugly text. *)
Definition scansEnd (this : PrettyDocumentController) : bool :=
  forallb (progressesOn (uglyAll this)) (lines (document this)).

(** The call ends and leaves a controller whose scans end. *)
Definition endsWell {A : Type} (c : Completion A) : Prop :=
  match c with
  | Normal _ this' => scansEnd this' = true
  | Throw _ this' => scansEnd this' = true
  | Hang => False
  end.

(** The fresh matches end at or before column [L] of line [ln]. *)
Definition freshBehind (fresh : Fresh) (ln L : nat) : Prop :=
  forall x : Range,
    In x (newUglyRanges fresh) -> isBeforeOrEqual (end_ x) (mkPosition ln L) = true.

Section Loading.

Variable RegExp_new : string -> option RegExp.

(** The substitution's pattern compiles. *)
Definition compiles (prettySubst : configuration.Substitution) : bool :=
  match RegExp_new (uglyStrOf prettySubst) with
  | Some _ => true
  | None => false
  end.

(** The entry of [prettyDecorations] of a substitution whose pattern
    compiles, nothing for the others. *)
Definition compiledRule (prettySubst : configuration.Substitution)
  : list PrettySubstitution :=
  match RegExp_new (uglyStrOf prettySubst) with
  | Some re => [mkPrettySubstitution re (configuration.pretty prettySubst) empty]
  | None => []
  end.

(** The alternative of a substitution in the combined expression. *)
Definition alternative (prettySubst : configuration.Substitution) : string :=
  "(?:" ++ uglyStrOf prettySubst ++ ")".

(** The controller after the loop of [loadDecorations] has gone through
    [substs]. *)
Definition loaded (this : PrettyDocumentController)
           (substs : list configuration.Substitution) : PrettyDocumentController :=
  mkController (document this)
    (prettyDecorations this ++ flat_map compiledRule substs)
    (prettySubstitutions this) (uglyAll this) (uglyDecorationRanges this)
    (changedUglies this) (applyDecorationsTimeout this)
    (applyDecorationsTimeoutActive this) (applyDecorationsCalls this)
    (console this ++ map warning (filter (fun s => negb (compiles s)) substs)).

End Loading.

(** [b] has the document, the configured substitutions, the rules (their
    expressions and pretty texts, in order), the combined expression (its
    [lastIndex] apart), the console, the timers and the calls of
    [applyDecorations] of [a]: they differ at most in the indices, in
    [changedUglies] and in [lastIndex]. *)
Definition sameRules (a b : PrettyDocumentController) : Prop :=
  document b = document a
  /\ prettySubstitutions b = prettySubstitutions a
  /\ map ugly (prettyDecorations b) = map ugly (prettyDecorations a)
  /\ map pretty (prettyDecorations b) = map pretty (prettyDecorations a)
  /\ source (uglyAll b) = source (uglyAll a)
  /\ matcher (uglyAll b) = matcher (uglyAll a)
  /\ console b = console a
  /\ applyDecorationsTimeout b = applyDecorationsTimeout a
  /\ applyDecorationsTimeoutActive b = applyDecorationsTimeoutActive a
  /\ applyDecorationsCalls b = applyDecorationsCalls a.

(** [this] with the fields that the scanning loops neither read nor write
    taken from [src]. *)
Definition withRest (src this : PrettyDocumentController) : PrettyDocumentController :=
  mkController (document this) (prettyDecorations this) (prettySubstitutions src)
    (uglyAll this) (uglyDecorationRanges this) (changedUglies src)
    (applyDecorationsTimeout src) (applyDecorationsTimeoutActive src)
    (applyDecorationsCalls src) (console src).

Definition mapCompletion {A : Type} (f : PrettyDocumentController -> PrettyDocumentController)
           (c : Completion A) : Completion A :=
  match c with
  | Normal a this => Normal a (f this)
  | Throw e this => Throw e (f this)
  | Hang => Hang
  end.

(** Two calls end in the same way: with the same value and the same indices,
    or with the same exception, or not at all. *)
Definition alike {A : Type} (c1 c2 : Completion A) : Prop :=
  match c1, c2 with
  | Normal a1 this1, Normal a2 this2 => a1 = a2 /\ indices this1 = indices this2
  | Throw e1 _, Throw e2 _ => e1 = e2
  | Hang, Hang => True
  | _, _ => False
  end.

(** The aggregate index moved by the changes of an event, one after the
    other, nothing removed and nothing added. *)
Definition shiftedBy (changes : list vscode.TextDocumentContentChangeEvent)
           (s : DisjointRangeSet) : DisjointRangeSet :=
  fold_left
    (fun s change =>
       shiftRangeDelta (toRangeDelta (vscode.range change) (vscode.text change)) s)
    changes s.

(** The match that [exec] finds from column [L] of [text] names an ugly text:
    a group took part in it, with a text that is not empty and that occurs in
    the whole match. *)
Definition namesUglyAt (re : RegExp) (text : string) (L : nat) : bool :=
  match exec (set_lastIndex re L) text with
  | (None, _) => true
  | (Some m, _) =>
      let matches := definedFrom 0 (toArray m) in
      let matchStr := snd (last matches (0, EmptyString)) in
      (1 <? List.length matches)
      && (0 <? String.length matchStr)
      && (0 <=? indexOf (match0 m) matchStr)%Z
  end.

(** Every match on [text] names an ugly text. *)
Definition namesUglyOn (re : RegExp) (text : string) : bool :=
  forallb (namesUglyAt re text) (seq 0 (S (String.length text))).

(** Every match of the combined expression on a line of the document names
    an ugly text. *)
Definition namesUglies (this : PrettyDocumentController) : bool :=
  forallb (namesUglyOn (uglyAll this)) (lines (document this)).


(** The range that [onChangeDocument] has parsed again for a change. *)
Definition editRangeOf (change : vscode.TextDocumentContentChangeEvent) : Range :=
  rangeDeltaNewRange (toRangeDelta (vscode.range change) (vscode.text change)).

(** The controller that the loop of [onChangeDocument] hands to [parsePretty]
    for a change: the ranges that overlap or touch the change are removed, the
    others are shifted, in the aggregate index and in the index of every
    rule. *)
Definition prepared (this : PrettyDocumentController)
           (change : vscode.TextDocumentContentChangeEvent) : PrettyDocumentController :=
  let delta := toRangeDelta (vscode.range change) (vscode.text change) in
  let '(removed, kept) :=
    removeOverlapping (vscode.range change) true true (uglyDecorationRanges this) in
  let this := set_uglyDecorationRanges this (shiftRangeDelta delta kept) in
  let this := if 0 <? List.length removed then set_changedUglies this true else this in
  set_prettyDecorations this
    (map (fun subst =>
            set_ranges subst
              (shiftRangeDelta delta
                 (snd (removeOverlapping (vscode.range change) true true (ranges subst)))))
         (prettyDecorations this)).

(** * Properties *)

(** ** Order of positions *)

Create Rewrite HintDb posb.
#[local] Hint Rewrite Bool.orb_true_iff Bool.andb_true_iff Bool.orb_false_iff
  Bool.andb_false_iff Bool.negb_true_iff Bool.negb_false_iff
  Nat.ltb_lt Nat.eqb_eq Nat.leb_le Nat.ltb_ge Nat.eqb_neq Nat.leb_gt : posb.

Ltac pos_bool :=
  unfold isBeforeOrEqual, isAfter, isBefore, isEqualPos in *; simpl in *;
  autorewrite with posb in *; try lia.

Lemma Normal_controller {A : Type} (a a' : A) (this this' : PrettyDocumentController) :
  Normal a this = Normal a' this' -> this = this'.
Proof. intros H. injection H. auto. Qed.

(** Splits the conjunctions of the goal and nothing else. *)
Ltac split_all := repeat match goal with |- _ /\ _ => split end.

Lemma isBefore_irrefl (a : Position) : isBefore a a = false.
Proof. pos_bool. Qed.

Lemma isBeforeOrEqual_refl (a : Position) : isBeforeOrEqual a a = true.
Proof. pos_bool. Qed.

Lemma isBeforeOrEqual_trans (a b c : Position) :
  isBeforeOrEqual a b = true -> isBeforeOrEqual b c = true -> isBeforeOrEqual a c = true.
Proof. intros H1 H2. pos_bool. Qed.

Lemma isBefore_false_iff (a b : Position) :
  isBefore a b = false <-> isBeforeOrEqual b a = true.
Proof. split; intros H; pos_bool. Qed.

Lemma isBeforeOrEqual_not_before (a b : Position) :
  isBeforeOrEqual a b = true -> isBefore b a = false.
Proof. intros H. pos_bool. Qed.

Lemma isEqualPos_eq (a b : Position) : isEqualPos a b = true <-> a = b.
Proof.
  destruct a as [la ca], b as [lb cb]. split; intros H.
  - pos_bool. destruct H; subst; reflexivity.
  - inversion H; subst. pos_bool.
Qed.

Lemma isEqual_eq (r q : Range) : isEqual r q = true <-> r = q.
Proof.
  destruct r as [rs re], q as [qs qe]. unfold isEqual; simpl.
  rewrite Bool.andb_true_iff, !isEqualPos_eq. split.
  - intros [-> ->]; reflexivity.
  - intros H; inversion H; auto.
Qed.

Lemma newRange_ordered (a b : Position) :
  isBeforeOrEqual a b = true -> newRange a b = mkRange a b.
Proof.
  intros H. unfold newRange. rewrite (isBeforeOrEqual_not_before _ _ H). reflexivity.
Qed.

Lemma newRange_start_le_end (a b : Position) :
  isBeforeOrEqual (start (newRange a b)) (end_ (newRange a b)) = true.
Proof.
  unfold newRange. destruct (isBefore b a) eqn:E; simpl.
  - pos_bool.
  - apply isBefore_false_iff; exact E.
Qed.

(** ** What the scanning loops leave untouched

    The scanning loops write nothing of the controller but the [lastIndex]
    of the combined expression. *)

Lemma set_lastIndex_same (re : RegExp) : set_lastIndex re (lastIndex re) = re.
Proof. destruct re; reflexivity. Qed.

Lemma exec_lastIndex_only (re : RegExp) (s : string) :
  snd (exec re s) = set_lastIndex re (lastIndex (snd (exec re s))).
Proof.
  unfold exec. destruct (String.length s <? lastIndex re); [reflexivity|].
  destruct (searchFrom _ _ _ _) as [[i [len caps]]|]; reflexivity.
Qed.

Lemma sameButLastIndex_refl (a : PrettyDocumentController) : sameButLastIndex a a.
Proof.
  unfold sameButLastIndex, set_uglyAll_lastIndex. rewrite set_lastIndex_same.
  destruct a; reflexivity.
Qed.

Lemma sameButLastIndex_set (a : PrettyDocumentController) (i : nat) :
  sameButLastIndex a (set_uglyAll_lastIndex a i).
Proof. reflexivity. Qed.

Lemma sameButLastIndex_exec (a : PrettyDocumentController) (s : string) :
  sameButLastIndex a (set_uglyAll a (snd (exec (uglyAll a) s))).
Proof.
  unfold sameButLastIndex, set_uglyAll_lastIndex. simpl.
  rewrite <- exec_lastIndex_only. reflexivity.
Qed.

Lemma sameButLastIndex_trans (a b c : PrettyDocumentController) :
  sameButLastIndex a b -> sameButLastIndex b c -> sameButLastIndex a c.
Proof.
  unfold sameButLastIndex. intros Hab Hbc. rewrite Hbc at 1. rewrite Hab. reflexivity.
Qed.

Lemma getUglyFromMatch_framed (m : RegExpExecArray) (ln : nat)
      (this : PrettyDocumentController) :
  framed this (getUglyFromMatch m ln this).
Proof.
  unfold getUglyFromMatch.
  destruct (_ <=? 1); [apply sameButLastIndex_refl|].
  destruct (_ <? _)%Z; simpl; [apply sameButLastIndex_refl | reflexivity].
Qed.

Lemma framed_after {A : Type} (a b : PrettyDocumentController) (c : Completion A) :
  sameButLastIndex a b -> framed b c -> framed a c.
Proof.
  intros Hab. destruct c; simpl; auto; apply sameButLastIndex_trans; exact Hab.
Qed.

(** [exec] followed by [getUglyFromMatch]. *)
Lemma exec_getUglyFromMatch_framed (this : PrettyDocumentController) (text : string)
      (m : RegExpExecArray) (ln : nat) :
  framed this (getUglyFromMatch m ln (set_uglyAll this (snd (exec (uglyAll this) text)))).
Proof.
  eapply framed_after; [apply sameButLastIndex_exec | apply getUglyFromMatch_framed].
Qed.

Lemma scanLine_framed (fuel : nat) (text : string) (idx : nat) :
  forall (this : PrettyDocumentController) (fresh : Fresh),
    framed this (scanLine fuel text idx this fresh).
Proof.
  induction fuel as [|fuel IH]; intros this fresh; simpl; [exact I|].
  pose proof (sameButLastIndex_exec this text) as Hx.
  pose proof (fun m => exec_getUglyFromMatch_framed this text m idx) as Hg.
  destruct (exec (uglyAll this) text) as [[m|] re]; simpl in Hx, Hg; [|exact Hx].
  specialize (Hg m).
  destruct (getUglyFromMatch m idx (set_uglyAll this re)) as [[ugly|] this'|e this'|];
    simpl in Hg; try exact I.
  - destruct (nth_error _ _); simpl; [|exact Hg].
    destruct (_ <=? _); [exact I|].
    eapply framed_after; [exact Hg | apply IH].
  - destruct (_ <=? _); [exact I|].
    eapply framed_after; [exact Hg | apply IH].
  - exact Hg.
Qed.

Lemma scanLines_framed (n : nat) :
  forall (idx : nat) (this : PrettyDocumentController) (fresh : Fresh),
    framed this (scanLines n idx this fresh).
Proof.
  induction n as [|n IH]; intros idx this fresh; simpl; [apply sameButLastIndex_refl|].
  destruct (lineAt (document this) idx) as [text|]; [|apply sameButLastIndex_refl].
  pose proof (scanLine_framed (String.length text + 2) text idx this fresh) as Hs.
  destruct (scanLine _ text idx this fresh) as [fresh' this'|e this'|]; simpl in *; auto.
  eapply framed_after; [|apply IH].
  eapply sameButLastIndex_trans; [exact Hs | apply sameButLastIndex_set].
Qed.

Lemma scanLastLine_framed (fuel : nat) (text : string) (ln : nat) :
  forall (this : PrettyDocumentController) (pre : list Range) (fresh : Fresh),
    framed this (scanLastLine fuel text ln this pre fresh).
Proof.
  induction fuel as [|fuel IH]; intros this pre fresh; simpl; [exact I|].
  pose proof (sameButLastIndex_exec this text) as Hx.
  pose proof (fun m => exec_getUglyFromMatch_framed this text m ln) as Hg.
  destruct (exec (uglyAll this) text) as [[m|] re]; simpl in Hx, Hg; [|exact Hx].
  specialize (Hg m).
  destruct (getUglyFromMatch m ln (set_uglyAll this re)) as [[ugly|] this'|e this'|];
    simpl in Hg; try exact I.
  - destruct (match pre with [] => false | p :: _ => isEqual p (range ugly) end);
      [exact Hg|].
    destruct (_ && _); [exact I|].
    eapply framed_after; [exact Hg | apply IH].
  - destruct (_ <=? _); [exact I|]. eapply framed_after; [exact Hg | apply IH].
  - destruct (_ <=? _); [exact I|]. eapply framed_after; [exact Hg | apply IH].
Qed.

Lemma scanRange_framed (range : Range) (this : PrettyDocumentController) :
  framed this (scanRange range this).
Proof.
  unfold scanRange.
  pose proof (scanLines_framed (line (end_ range) - line (start range))
                (line (start range)) this
                (mkFresh empty (map (fun _ => empty) (prettyDecorations this)))) as H1.
  destruct (scanLines _ _ this _) as [fresh this1|e this1|]; simpl in *; auto.
  destruct (lineAt (document this1) (line (end_ range))) as [text|]; simpl; auto.
  pose proof (scanLastLine_framed
                (String.length text + 2
                 + List.length (getRangesStartingAt (end_ range) (uglyDecorationRanges this1)))
                text (line (end_ range)) this1
                (getRangesStartingAt (end_ range) (uglyDecorationRanges this1)) fresh) as H2.
  destruct (scanLastLine _ text _ this1 _ fresh) as [[fresh' pre'] this2|e this2|];
    simpl in *; auto; eapply sameButLastIndex_trans; eauto.
Qed.

(** ** Calls of [applyDecorations] *)

Lemma sameButLastIndex_calls (a b : PrettyDocumentController) :
  sameButLastIndex a b -> applyDecorationsCalls b = applyDecorationsCalls a.
Proof. intros H; rewrite H; reflexivity. Qed.

Lemma mergeFresh_calls (range : Range) (startCharacter : nat) (fresh : Fresh)
      (this : PrettyDocumentController) :
  applyDecorationsCalls (snd (mergeFresh range startCharacter fresh this))
  = applyDecorationsCalls this.
Proof.
  unfold mergeFresh.
  destruct (isBefore (end_ range) (getEnd (newUglyRanges fresh)));
    destruct (negb (isEmpty (newUglyRanges fresh))); reflexivity.
Qed.

Lemma parsePretty_calls (range : Range) (this : PrettyDocumentController) :
  keepsCalls (applyDecorationsCalls this) (parsePretty range this).
Proof.
  unfold parsePretty.
  destruct (List.length (prettyDecorations this) =? 0); [reflexivity|].
  set (r := validateRange (document this) range).
  set (this0 := set_uglyAll_lastIndex this (resumeCharacter r this)).
  pose proof (scanRange_framed r this0) as Hf.
  destruct (scanRange r this0) as [fresh this1|e this1|]; simpl in *; auto.
  - apply sameButLastIndex_calls in Hf.
    match goal with
    | |- context [mergeFresh ?a ?b ?c ?d] =>
        pose proof (mergeFresh_calls a b c d) as Hm;
        destruct (mergeFresh a b c d) as [reparsed this2]
    end.
    simpl in *. congruence.
  - apply sameButLastIndex_calls in Hf. exact Hf.
Qed.

Lemma onChange_calls (this : PrettyDocumentController)
      (change : vscode.TextDocumentContentChangeEvent) :
  match onChange this change with
  | Normal _ b => applyDecorationsCalls b = applyDecorationsCalls this
  | Throw _ _ => False
  | Hang => True
  end.
Proof.
  unfold onChange.
  destruct (removeOverlapping (vscode.range change) true true (uglyDecorationRanges this))
    as [removed kept].
  match goal with
  | |- context [parsePretty ?r ?t] =>
      pose proof (parsePretty_calls r t) as Hp;
      destruct (parsePretty r t) as [reparsed this1|e this1|]; simpl in *; auto;
      rewrite Hp; destruct (0 <? List.length removed); reflexivity
  end.
Qed.

Lemma onChanges_calls (changes : list vscode.TextDocumentContentChangeEvent) :
  forall this : PrettyDocumentController,
    match onChanges this changes with
    | Normal _ b => applyDecorationsCalls b = applyDecorationsCalls this
    | Throw _ _ => False
    | Hang => True
    end.
Proof.
  induction changes as [|change rest IH]; intros this; simpl; [reflexivity|].
  pose proof (onChange_calls this change) as Hc.
  destruct (onChange this change) as [u this1|e this1|]; auto.
  specialize (IH this1).
  destruct (onChanges this1 rest) as [u' this2|e this2|]; auto.
  congruence.
Qed.

(** ** [parsePretty] without rules *)

(** C9.  With no compiled rule [parsePretty] returns the range it was given,
    as it was given, and leaves the controller, with the aggregate index and
    every rule's index, as it was. *)
Theorem parsePretty_without_rules :
  forall (range : Range) (this : PrettyDocumentController),
    prettyDecorations this = [] ->
    parsePretty range this = Normal range this.
Proof.
  intros range this H. unfold parsePretty. rewrite H. reflexivity.
Qed.

(** ** The search of [exec] *)

Lemma searchFrom_sound (mt : string -> nat -> option (nat * list (option string)))
      (s : string) (n : nat) :
  forall (i k : nat) (r : nat * list (option string)),
    searchFrom mt s i n = Some (k, r) -> i <= k <= i + n /\ mt s k = Some r.
Proof.
  induction n as [|n IH]; intros i k r; simpl.
  - destruct (mt s i) eqn:E; [|discriminate].
    intros H; inversion H; subst. split; [lia | exact E].
  - destruct (mt s i) eqn:E.
    + intros H; inversion H; subst. split; [lia | exact E].
    + intros H. apply IH in H. destruct H as [H1 H2]. split; [lia | exact H2].
Qed.

Lemma searchFrom_finds (mt : string -> nat -> option (nat * list (option string)))
      (s : string) (n : nat) :
  forall (i j : nat) (r : nat * list (option string)),
    i <= j <= i + n -> mt s j = Some r ->
    exists k r', searchFrom mt s i n = Some (k, r') /\ i <= k <= j.
Proof.
  induction n as [|n IH]; intros i j r Hj Hm; simpl.
  - assert (j = i) by lia. subst. rewrite Hm. exists i, r. split; [reflexivity | lia].
  - destruct (mt s i) eqn:E.
    + exists i, p. split; [reflexivity | lia].
    + assert (j <> i) by (intros ->; congruence).
      destruct (IH (S i) j r) as (k & r' & Hk & Hle); [lia | exact Hm |].
      exists k, r'. split; [exact Hk | lia].
Qed.

(** A successful [exec] gives a match that starts at or after [lastIndex]
    and leaves [lastIndex] at or after the start of the match. *)
Lemma exec_some (re re' : RegExp) (s : string) (m : RegExpExecArray) :
  exec re s = (Some m, re') ->
  lastIndex re <= index m <= String.length s
  /\ index m <= lastIndex re'
  /\ matcher re' = matcher re
  /\ source re' = source re.
Proof.
  unfold exec. destruct (String.length s <? lastIndex re) eqn:E; [discriminate|].
  apply Nat.ltb_ge in E.
  destruct (searchFrom _ _ _ _) as [[i [len caps]]|] eqn:Es; [|discriminate].
  intros H; inversion H; subst; simpl.
  apply searchFrom_sound in Es. repeat split; lia.
Qed.

Lemma exec_finds (re : RegExp) (s : string) (j : nat) (r : nat * list (option string)) :
  lastIndex re <= j <= String.length s ->
  matcher re s j = Some r ->
  exists m re', exec re s = (Some m, re') /\ lastIndex re <= index m <= j.
Proof.
  intros Hj Hm. unfold exec.
  assert (E : (String.length s <? lastIndex re) = false) by (apply Nat.ltb_ge; lia).
  rewrite E.
  destruct (searchFrom_finds (matcher re) s (String.length s - lastIndex re)
                             (lastIndex re) j r) as (k & [len caps] & Hk & Hle);
    [lia | exact Hm |].
  rewrite Hk. eexists _, _. split; [reflexivity | simpl; lia].
Qed.

(** ** [getUglyFromMatch] *)

(** The value of [getUglyFromMatch] for a match in which some group took
    part and whose last such group has its text at a column that is not
    negative. *)
Lemma getUglyFromMatch_some (m : RegExpExecArray) (ln : nat)
      (this this' : PrettyDocumentController) (ugly : Ugly) :
  getUglyFromMatch m ln this = Normal (Some ugly) this' ->
  let matches := definedFrom 0 (toArray m) in
  let matchStr := snd (last matches (0, EmptyString)) in
  let start := (Z.of_nat (index m) + indexOf (match0 m) matchStr)%Z in
  let end' := (start + Z.of_nat (String.length matchStr))%Z in
  (0 <= start)%Z
  /\ 1 < List.length matches
  /\ ugly = mkUgly (mkRange (mkPosition ln (Z.to_nat start)) (mkPosition ln (Z.to_nat end')))
                   (fst (last matches (0, EmptyString)) - 1)
  /\ this' = set_uglyAll_lastIndex this (Z.to_nat end').
Proof.
  unfold getUglyFromMatch. cbv zeta.
  destruct (List.length (definedFrom 0 (toArray m)) <=? 1) eqn:E1; [discriminate|].
  apply Nat.leb_gt in E1.
  destruct (_ <? 0)%Z eqn:E2; [discriminate|].
  apply Z.ltb_ge in E2.
  intros H; inversion H; subst; clear H.
  repeat split; auto.
  f_equal. apply newRange_ordered. pos_bool.
Qed.

(** X6.  When a match names a rule, [getUglyFromMatch] leaves [lastIndex] at
    the end of the range it records, whatever position [exec] had left (the
    end of the whole match); the next [exec] on the line therefore finds a
    match at or before every column from the end of that range on at which the
    combined expression matches, the columns of the post-context included. *)
Theorem getUglyFromMatch_resumes_at_range_end :
  forall (text : string) (ln : nat) (this this' : PrettyDocumentController)
         (m : RegExpExecArray) (re : RegExp) (ugly : Ugly),
    exec (uglyAll this) text = (Some m, re) ->
    getUglyFromMatch m ln (set_uglyAll this re) = Normal (Some ugly) this' ->
    lastIndex (uglyAll this') = character (end_ (range ugly))
    /\ line (end_ (range ugly)) = ln
    /\ this' = set_uglyAll_lastIndex this (character (end_ (range ugly)))
    /\ forall (j : nat) (r : nat * list (option string)),
        character (end_ (range ugly)) <= j <= String.length text ->
        matcher (uglyAll this) text j = Some r ->
        exists m' re',
          exec (uglyAll this') text = (Some m', re')
          /\ character (end_ (range ugly)) <= index m' <= j.
Proof.
  intros text ln this this' m re ugly He Hg.
  apply getUglyFromMatch_some in Hg. cbv zeta in Hg.
  destruct Hg as (Hs & _ & Hu & Ht).
  apply exec_some in He. destruct He as (_ & _ & Hm & Hsrc).
  subst ugly; simpl.
  assert (Hthis : this' = set_uglyAll_lastIndex this
            (Z.to_nat (Z.of_nat (index m)
               + indexOf (match0 m) (snd (last (definedFrom 0 (toArray m)) (0, EmptyString)))
               + Z.of_nat (String.length
                    (snd (last (definedFrom 0 (toArray m)) (0, EmptyString))))))).
  { rewrite Ht. unfold set_uglyAll_lastIndex, set_lastIndex; simpl.
    rewrite Hm, Hsrc. reflexivity. }
  repeat split.
  - rewrite Ht. reflexivity.
  - exact Hthis.
  - intros j r Hj Hr. rewrite Hthis.
    destruct (exec_finds (uglyAll (set_uglyAll_lastIndex this
                (Z.to_nat (Z.of_nat (index m)
                   + indexOf (match0 m)
                       (snd (last (definedFrom 0 (toArray m)) (0, EmptyString)))
                   + Z.of_nat (String.length
                        (snd (last (definedFrom 0 (toArray m)) (0, EmptyString))))))))
                text j r) as (m' & re' & He' & Hle); simpl; auto.
    exists m', re'. split; [exact He' | exact Hle].
Qed.

(** ** Texts *)

Lemma length_substring (s : string) :
  forall n m : nat, String.length (substring n m s) = Nat.min m (String.length s - n).
Proof.
  induction s as [|c s IH]; intros n m; simpl.
  - destruct n, m; reflexivity.
  - destruct n as [|n].
    + destruct m as [|m]; simpl; [reflexivity|].
      rewrite IH, Nat.sub_0_r. reflexivity.
    + rewrite IH. reflexivity.
Qed.

Lemma substring_none (s : string) : forall n : nat, substring n 0 s = EmptyString.
Proof.
  induction s as [|c s IH]; intros [|n]; simpl; auto.
Qed.

Lemma substring_substring (s : string) :
  forall i L a n : nat,
    a + n <= L -> substring a n (substring i L s) = substring (i + a) n s.
Proof.
  induction s as [|c s IH]; intros i L a n H; simpl.
  - destruct i, L; simpl; destruct a, n; reflexivity.
  - destruct i as [|i]; simpl.
    + destruct L as [|L]; simpl.
      * assert (a = 0) by lia. assert (n = 0) by lia. subst. reflexivity.
      * destruct a as [|a]; simpl.
        -- destruct n as [|n]; [reflexivity|]. f_equal.
           rewrite (IH 0 L 0 n); [reflexivity | lia].
        -- rewrite (IH 0 L a n); [reflexivity | lia].
    + apply IH. exact H.
Qed.

(** A text found by [indexOf] in a part of a line lies at the same place in
    the line. *)
Lemma found_in_line (text whole str : string) (i off : nat) :
  substring i (String.length whole) text = whole ->
  String.index 0 str whole = Some off ->
  substring (i + off) (String.length str) text = str.
Proof.
  intros Hw Hi. apply index_correct1 in Hi.
  destruct (String.length str) as [|n] eqn:El.
  - destruct str; [apply substring_none | discriminate].
  - assert (Hlen : off + S n <= String.length whole).
    { pose proof (length_substring whole off (S n)) as H.
      rewrite Hi, El in H. lia. }
    rewrite <- (substring_substring text i (String.length whole) off (S n) Hlen).
    rewrite Hw. exact Hi.
Qed.

(** ** The rule of a match *)

Lemma definedFrom_app (a b : list (option string)) :
  forall idx : nat,
    definedFrom idx (a ++ b) = (definedFrom idx a ++ definedFrom (idx + List.length a) b)%list.
Proof.
  induction a as [|[v|] a IH]; intros idx; simpl.
  - rewrite Nat.add_0_r. reflexivity.
  - rewrite IH. do 3 f_equal. lia.
  - rewrite IH. do 2 f_equal. lia.
Qed.

Lemma definedFrom_none (a : list (option string)) :
  forall idx : nat,
    (forall j : nat, nth j a None = None) -> definedFrom idx a = [].
Proof.
  induction a as [|[v|] a IH]; intros idx H; simpl; auto.
  - specialize (H 0). discriminate.
  - apply IH. intros j. exact (H (S j)).
Qed.

(** The last entry of the filtered array is the last group that took
    part. *)
Lemma definedFrom_last (arr : list (option string)) (k : nat) (str : string) :
  nth_error arr k = Some (Some str) ->
  (forall j : nat, k < j -> nth j arr None = None) ->
  forall (idx : nat) (d : nat * string),
    exists l, definedFrom idx arr = (l ++ [(idx + k, str)])%list.
Proof.
  intros Hk Hlast idx d.
  destruct (nth_error_split arr k Hk) as (a & b & -> & Hlen).
  rewrite definedFrom_app. simpl.
  rewrite (definedFrom_none b).
  - exists (definedFrom idx a). rewrite Hlen. reflexivity.
  - intros j. specialize (Hlast (S (k + j))).
    rewrite app_nth2 in Hlast by lia.
    replace (S (k + j) - List.length a) with (S j) in Hlast by lia.
    simpl in Hlast. apply Hlast. lia.
Qed.

(** X5.  What [getUglyFromMatch] computes.  The rule of a match is the number
    of the last capturing group that took part in the match, also when that
    group matched the empty text; the recorded range lies on the scanned line
    at the first place of the group's text in the whole match, and the line
    reads the group's text there. *)
Theorem getUglyFromMatch_last_defined_group :
  forall (m : RegExpExecArray) (ln : nat) (this : PrettyDocumentController)
         (k : nat) (str : string) (off : nat),
    nth_error (groups m) k = Some (Some str) ->
    (forall j : nat, k < j -> nth j (groups m) None = None) ->
    String.index 0 str (match0 m) = Some off ->
    getUglyFromMatch m ln this
    = Normal (Some (mkUgly (mkRange (mkPosition ln (index m + off))
                                    (mkPosition ln (index m + off + String.length str)))
                           k))
             (set_uglyAll_lastIndex this (index m + off + String.length str))
    /\ forall text : string,
        substring (index m) (String.length (match0 m)) text = match0 m ->
        substring (index m + off) (String.length str) text = str.
Proof.
  intros m ln this k str off Hk Hlast Hoff. split.
  - unfold getUglyFromMatch.
    destruct (definedFrom_last (toArray m) (S k) str) with (idx := 0) (d := (0, EmptyString))
      as [l Hl].
    + exact Hk.
    + intros [|j] Hj; [lia|]. simpl. apply Hlast. lia.
    + rewrite Hl. simpl toArray in Hl.
      assert (Hlen : (List.length (l ++ [(0 + S k, str)]) <=? 1) = false).
      { apply Nat.leb_gt. simpl in Hl. destruct l as [|x l]; [discriminate|].
        rewrite length_app. simpl. lia. }
      rewrite Hlen, last_last. simpl fst; simpl snd.
      unfold indexOf. rewrite Hoff.
      assert (Hneg : (Z.of_nat (index m) + Z.of_nat off <? 0)%Z = false)
        by (apply Z.ltb_ge; lia).
      rewrite Hneg.
      replace (Z.to_nat (Z.of_nat (index m) + Z.of_nat off)) with (index m + off) by lia.
      replace (Z.to_nat (Z.of_nat (index m) + Z.of_nat off + Z.of_nat (String.length str)))
        with (index m + off + String.length str) by lia.
      rewrite newRange_ordered by pos_bool.
      replace (S k - 1) with k by lia. reflexivity.
  - intros text Hw. eapply found_in_line; eauto.
Qed.

Lemma emptyGroupMatch_from_rule :
  option_map (fun re => fst (exec re "a"))
             (MiniRegExp.compile ("(?:" ++ uglyStrOf (Examples.rule "a(b?)") ++ ")"))
  = Some (Some emptyGroupMatch).
Proof. vm_compute. reflexivity. Qed.

(** The scan of a line with such a match never ends: the empty ugly text
    leaves [lastIndex] where the match starts. *)
Lemma emptyGroupMatch_scan_hangs :
  Examples.openDocument [Examples.rule "a(b?)"] ["a"] = Hang.
Proof. vm_compute. reflexivity. Qed.

Lemma getUglyFromMatch_last_defined_group_witness :
  getUglyFromMatch emptyGroupMatch 0 (initial (mkDocument ["a"]))
  = Normal (Some (mkUgly (Examples.rangeOf 0 0 0 0) 1))
           (set_uglyAll_lastIndex (initial (mkDocument ["a"])) 0)
  /\ forall text : string,
      substring 0 1 text = "a" -> substring 0 0 text = EmptyString.
Proof.
  apply (getUglyFromMatch_last_defined_group emptyGroupMatch 0 (initial (mkDocument ["a"]))
           1 EmptyString 0).
  - reflexivity.
  - intros j Hj. destruct j as [|[|[|j]]]; try lia; reflexivity.
  - reflexivity.
Defined.

(** On the match of [a(b?)] on [a] the last group whose text is not empty
    is the first group; the code names the second one, which took part with
    the empty text, and records the empty range at column 0. *)
Lemma getUglyFromMatch_not_last_nonempty_group :
  lastNonEmptyGroup emptyGroupMatch = Some 0
  /\ exists (ugly : Ugly) (this' : PrettyDocumentController),
      getUglyFromMatch emptyGroupMatch 0 (initial (mkDocument ["a"]))
      = Normal (Some ugly) this'
      /\ prettyIndex ugly = 1
      /\ range ugly = Examples.rangeOf 0 0 0 0
      /\ lastNonEmptyGroup emptyGroupMatch <> Some (prettyIndex ugly).
Proof.
  split; [reflexivity|].
  eexists _, _. split; [reflexivity|].
  split_all; try reflexivity. vm_compute. discriminate.
Qed.

Lemma parsePretty_without_rules_witness :
  let this := Examples.controller (Examples.openDocument [Examples.rule "("] ["a -> b"]) in
  prettyDecorations this = []
  /\ parsePretty (docRange this) this = Normal (docRange this) this
  /\ validateRange (document this) (docRange this) <> docRange this.
Proof.
  cbv zeta. split; [reflexivity|]. split.
  - apply parsePretty_without_rules. reflexivity.
  - vm_compute. discriminate.
Defined.

Lemma getUglyFromMatch_resumes_at_range_end_example :
  let this := Examples.controller
                (Examples.openDocument [Examples.ruleBefore "a" "b"; Examples.rule "b"] ["ab"]) in
  let found := exec (uglyAll this) "ab" in
  let m := mkExecArray 0 "ab" [Some "a"; None] in
  let this' := Examples.controller (getUglyFromMatch m 0 (set_uglyAll this (snd found))) in
  fst found = Some m
  /\ lastIndex (snd found) = 2
  /\ lastIndex (uglyAll this') = 1
  /\ exists m' re', exec (uglyAll this') "ab" = (Some m', re') /\ 1 <= index m' <= 1.
Proof.
  cbv zeta.
  set (this := Examples.controller
                 (Examples.openDocument [Examples.ruleBefore "a" "b"; Examples.rule "b"] ["ab"])).
  set (m := mkExecArray 0 "ab" [Some "a"; None]).
  set (re := snd (exec (uglyAll this) "ab")).
  set (this' := Examples.controller (getUglyFromMatch m 0 (set_uglyAll this re))).
  destruct (getUglyFromMatch_resumes_at_range_end "ab" 0 this this' m re
              (mkUgly (Examples.rangeOf 0 0 0 1) 0))
    as (H1 & _ & _ & H4).
  - reflexivity.
  - reflexivity.
  - split_all; try reflexivity.
    destruct (H4 1 (1, [None; Some "b"])) as (m' & re' & He & Hi).
    + simpl. lia.
    + reflexivity.
    + exists m', re'. split; [exact He | exact Hi].
Defined.

(** C3 at the rule with ugly text [a] after the context [a], on the line
    [aa].  The combined expression matches the whole line, its group matches
    between the columns 1 and 2; [getUglyFromMatch] names the rule of that
    group but records the range between the columns 0 and 1, the first place
    of the text [a] in the match, which is the context.  The initial scan
    leaves that range in both indices. *)
Theorem getUglyFromMatch_range_in_context :
  let rules := [Examples.ruleAfter "a" "a"] in
  let pattern := "(?:" ++ uglyStrOf (Examples.ruleAfter "a" "a") ++ ")" in
  let m := mkExecArray 0 "aa" [Some "a"] in
  option_map (fun re => fst (exec re "aa")) (MiniRegExp.compile pattern) = Some (Some m)
  /\ MiniRegExp.groupSpans pattern "aa" 0 = Some [Some (1, 2)]
  /\ getUglyFromMatch m 0 (initial (mkDocument ["aa"]))
     = Normal (Some (mkUgly (Examples.rangeOf 0 0 0 1) 0))
              (set_uglyAll_lastIndex (initial (mkDocument ["aa"])) 1)
  /\ Examples.openDocument rules ["aa"]
     = Normal tt (Examples.controller (Examples.openDocument rules ["aa"]))
  /\ indices (Examples.controller (Examples.openDocument rules ["aa"]))
     = ([Examples.rangeOf 0 0 0 1], [[Examples.rangeOf 0 0 0 1]]).
Proof.
  cbv zeta. split_all; vm_compute; reflexivity.
Qed.

(** C10 at the same rule, on the line [aaa].  [exec] finds the whole match
    [aa] at column 0 and leaves [lastIndex] at its end, column 2, which is
    also where the group ends; [getUglyFromMatch] sets [lastIndex] to 1, the
    end of the first place of the text [a] in the match, where the group
    begins.  The next match is searched from column 1, and the scan records
    the ranges at the columns 0 and 1 where the groups matched at the
    columns 1 and 2. *)
Theorem getUglyFromMatch_lastIndex_in_context :
  let rules := [Examples.ruleAfter "a" "a"] in
  let pattern := "(?:" ++ uglyStrOf (Examples.ruleAfter "a" "a") ++ ")" in
  let m := mkExecArray 0 "aa" [Some "a"] in
  option_map (fun re => (fst (exec re "aaa"), lastIndex (snd (exec re "aaa"))))
             (MiniRegExp.compile pattern)
  = Some (Some m, 2)
  /\ MiniRegExp.groupSpans pattern "aaa" 0 = Some [Some (1, 2)]
  /\ lastIndex (uglyAll (Examples.controller
                           (getUglyFromMatch m 0 (initial (mkDocument ["aaa"]))))) = 1
  /\ MiniRegExp.groupSpans pattern "aaa" 1 = Some [Some (2, 3)]
  /\ Examples.openDocument rules ["aaa"]
     = Normal tt (Examples.controller (Examples.openDocument rules ["aaa"]))
  /\ indices (Examples.controller (Examples.openDocument rules ["aaa"]))
     = ([Examples.rangeOf 0 0 0 1; Examples.rangeOf 0 1 0 2],
        [[Examples.rangeOf 0 0 0 1; Examples.rangeOf 0 1 0 2]]).
Proof.
  cbv zeta. split_all; vm_compute; reflexivity.
Qed.

(** ** [loadDecorations] *)

Section LoadDecorations.

Variable RegExp_new : string -> option RegExp.

Lemma loadDecoration_fold (substs : list configuration.Substitution) :
  forall (this : PrettyDocumentController) (uglyAllStrings : list string),
    fold_left (loadDecoration RegExp_new) substs (this, uglyAllStrings)
    = (loaded RegExp_new this substs,
       (uglyAllStrings ++ map alternative (filter (compiles RegExp_new) substs))%list).
Proof.
  induction substs as [|s substs IH]; intros this strs.
  - simpl. unfold loaded; simpl. rewrite !app_nil_r. destruct this; reflexivity.
  - change (fold_left (loadDecoration RegExp_new) (s :: substs) (this, strs))
      with (fold_left (loadDecoration RegExp_new) substs
                      (loadDecoration RegExp_new (this, strs) s)).
    unfold loadDecoration at 2.
    assert (Hc : compiles RegExp_new s = match RegExp_new (uglyStrOf s) with
                              | Some _ => true
                              | None => false
                              end) by reflexivity.
    assert (Hr : compiledRule RegExp_new s
                 = match RegExp_new (uglyStrOf s) with
                   | Some re => [mkPrettySubstitution re (configuration.pretty s) empty]
                   | None => []
                   end) by reflexivity.
    destruct (RegExp_new (uglyStrOf s)) as [re|] eqn:E; rewrite IH;
      unfold loaded, log, alternative; simpl; rewrite Hc, Hr; simpl;
      rewrite <- ?app_assoc; reflexivity.
Qed.

(** C7.  [loadDecorations] goes through every configured substitution: one
    whose pattern does not compile gets a warning on the console and is in
    neither [prettyDecorations] nor the alternatives of the combined
    expression; every other one is compiled into [prettyDecorations], in
    order and with an empty index, and is an alternative of the combined
    expression.  The loop itself never throws: the call ends normally as
    soon as the combined expression of the valid rules compiles. *)
Theorem loadDecorations_drops_invalid_rules :
  forall this : PrettyDocumentController,
    let substs := prettySubstitutions this in
    let valid := filter (compiles RegExp_new) substs in
    let invalid := filter (fun s => negb (compiles RegExp_new s)) substs in
    let this1 := loaded RegExp_new (set_prettyDecorations (unloadDecorations this) []) substs in
    loadDecorations RegExp_new this
    = match RegExp_new (String.concat "|" (map alternative valid)) with
      | Some re => Normal tt (set_uglyAll this1 re)
      | None => Throw "SyntaxError" this1
      end
    /\ prettyDecorations this1 = flat_map (compiledRule RegExp_new) valid
    /\ map pretty (prettyDecorations this1) = map configuration.pretty valid
    /\ Forall (fun p => ranges p = empty) (prettyDecorations this1)
    /\ console this1 = (console this ++ map warning invalid)%list
    /\ (forall s : configuration.Substitution,
          In s substs -> RegExp_new (uglyStrOf s) = None ->
          In (warning s) (console this1) /\ ~ In s valid).
Proof.
  intros this substs valid invalid this1.
  assert (Hflat : forall l, flat_map (compiledRule RegExp_new) l = flat_map (compiledRule RegExp_new) (filter (compiles RegExp_new) l)).
  { induction l as [|s l IH]; simpl; [reflexivity|].
    unfold compiles at 1, compiledRule at 1.
    destruct (RegExp_new (uglyStrOf s)) eqn:E; simpl.
    - unfold compiledRule at 2. rewrite E. simpl. f_equal. exact IH.
    - exact IH. }
  split; [|split; [|split; [|split; [|split]]]].
  - unfold loadDecorations.
    rewrite (surjective_pairing (fold_left _ _ _)).
    replace (prettySubstitutions (set_prettyDecorations (unloadDecorations this) []))
      with substs by reflexivity.
    rewrite loadDecoration_fold. simpl fst; simpl snd. reflexivity.
  - subst this1. unfold loaded; simpl. apply Hflat.
  - subst this1. unfold loaded; simpl. fold valid.
    rewrite Hflat. fold valid.
    assert (Hv : Forall (fun s => compiles RegExp_new s = true) valid)
      by (apply Forall_forall; intros s Hs; apply filter_In in Hs; tauto).
    induction Hv as [|s l Hs Hl IH]; simpl; [reflexivity|].
    unfold compiles in Hs. unfold compiledRule at 1.
    destruct (RegExp_new (uglyStrOf s)); [|discriminate]. simpl. f_equal. exact IH.
  - subst this1. unfold loaded; simpl. apply Forall_forall. intros p Hp.
    apply in_flat_map in Hp. destruct Hp as (s & _ & Hp).
    unfold compiledRule in Hp. destruct (RegExp_new (uglyStrOf s)); simpl in Hp.
    + destruct Hp as [<-|[]]. reflexivity.
    + destruct Hp.
  - reflexivity.
  - intros s Hs Hnone. split.
    + subst this1. unfold loaded; simpl. apply in_or_app. right.
      apply in_map. apply filter_In. split; [exact Hs|].
      unfold compiles. rewrite Hnone. reflexivity.
    + intros Hin. apply filter_In in Hin. destruct Hin as [_ Hc].
      unfold compiles in Hc. rewrite Hnone in Hc. discriminate.
Qed.

End LoadDecorations.

(** The rules [(] and [->] with the small engine: the first is refused with a
    warning, the second is compiled and the document is scanned with it. *)
Lemma loadDecorations_drops_invalid_rules_witness :
  let this := mkController (mkDocument ["a -> b"]) []
                [Examples.rule "("; Examples.rule "->"] emptyRegExp empty false false false 0 [] in
  let this' := Examples.controller (loadDecorations MiniRegExp.compile this) in
  MiniRegExp.compile (uglyStrOf (Examples.rule "(")) = None
  /\ loadDecorations MiniRegExp.compile this = Normal tt this'
  /\ map pretty (prettyDecorations this') = ["~"]
  /\ source (uglyAll this') = "(?:(->))"
  /\ console this' = [warning (Examples.rule "(")]
  /\ In (warning (Examples.rule "(")) (console this')
  /\ indices (Examples.controller
                (Examples.openDocument [Examples.rule "("; Examples.rule "->"] ["a -> b"]))
     = ([Examples.rangeOf 0 2 0 4], [[Examples.rangeOf 0 2 0 4]]).
Proof.
  cbv zeta.
  set (this := mkController (mkDocument ["a -> b"]) []
                 [Examples.rule "("; Examples.rule "->"] emptyRegExp empty false false false
                 0 []).
  pose proof (loadDecorations_drops_invalid_rules MiniRegExp.compile this) as Hthm.
  cbv zeta in Hthm. destruct Hthm as (Hload & _ & _ & _ & _ & Hbad).
  assert (Hrun : loadDecorations MiniRegExp.compile this
                 = Normal tt (Examples.controller (loadDecorations MiniRegExp.compile this)))
    by (rewrite Hload; vm_compute; reflexivity).
  split; [vm_compute; reflexivity|]. split; [exact Hrun|].
  split; [vm_compute; reflexivity|]. split; [vm_compute; reflexivity|].
  split; [vm_compute; reflexivity|]. split; [|vm_compute; reflexivity].
  destruct (Hbad (Examples.rule "(")) as [Hwarned _].
  - left. reflexivity.
  - vm_compute. reflexivity.
  - rewrite Hload in Hrun. vm_compute in Hwarned. vm_compute. exact Hwarned.
Defined.

(** ** Members of a range set *)

Lemma insertSorted_In (r q : Range) (s : DisjointRangeSet) :
  In q (insertSorted r s) <-> q = r \/ In q s.
Proof.
  induction s as [|x s IH]; simpl.
  - intuition.
  - destruct (isBefore (start r) (start x)); simpl; [intuition|].
    rewrite IH. intuition.
Qed.

Lemma insert_In (r q : Range) (s : DisjointRangeSet) :
  In q (insert r s) -> q = r \/ In q s.
Proof.
  unfold insert. destruct (existsb _ s); [auto|]. apply insertSorted_In.
Qed.

Lemma insert_keeps (r q : Range) (s : DisjointRangeSet) :
  In q s -> In q (insert r s).
Proof.
  unfold insert. destruct (existsb _ s); [auto|].
  intros H. apply insertSorted_In. auto.
Qed.

Lemma insertRanges_In (news : DisjointRangeSet) :
  forall (s : DisjointRangeSet) (q : Range),
    In q (insertRanges news s) -> In q news \/ In q s.
Proof.
  unfold insertRanges.
  induction news as [|r news IH]; intros s q; simpl; [auto|].
  intros H. apply IH in H. destruct H as [H|H]; [auto|].
  apply insert_In in H. intuition.
Qed.

Lemma insertRanges_keeps (news : DisjointRangeSet) :
  forall (s : DisjointRangeSet) (q : Range),
    In q s -> In q (insertRanges news s).
Proof.
  unfold insertRanges.
  induction news as [|r news IH]; intros s q H; simpl; [exact H|].
  apply IH. apply insert_keeps. exact H.
Qed.

Lemma removeOverlapping_kept (q x : Range) (ts te : bool) (s : DisjointRangeSet) :
  In x (snd (removeOverlapping q ts te s)) <-> In x s /\ overlaps ts te q x = false.
Proof.
  unfold removeOverlapping; simpl. rewrite filter_In, Bool.negb_true_iff. tauto.
Qed.

Lemma removeOverlapping_removed (q x : Range) (ts te : bool) (s : DisjointRangeSet) :
  In x (fst (removeOverlapping q ts te s)) <-> In x s /\ overlaps ts te q x = true.
Proof.
  unfold removeOverlapping; simpl. rewrite filter_In. tauto.
Qed.

Lemma zipRanges_In (f : DisjointRangeSet -> DisjointRangeSet -> DisjointRangeSet)
      (l : list PrettySubstitution) :
  forall (news : list DisjointRangeSet) (p' : PrettySubstitution),
    In p' (zipRanges f l news) ->
    exists p, In p l /\ (p' = p \/ exists n, In n news /\ ranges p' = f n (ranges p)).
Proof.
  induction l as [|p l IH]; intros news p' H; simpl in H.
  - destruct news; destruct H.
  - destruct news as [|n news].
    + exists p'. split; [exact H | auto].
    + destruct H as [<-|H].
      * exists p. split; [left; reflexivity|]. right. exists n. simpl. auto.
      * apply IH in H. destruct H as (p0 & Hp0 & [->|(n0 & Hn0 & Hr)]).
        -- exists p0. split; [right; exact Hp0 | auto].
        -- exists p0. split; [right; exact Hp0|]. right. exists n0. simpl. auto.
Qed.

(** ** The end of [parsePretty] *)

(** [parsePretty] with rules is the scan of the validated range from the
    resumed column, followed by [mergeFresh]. *)
Lemma parsePretty_with_rules (range reparsed : Range)
      (this this' : PrettyDocumentController) :
  prettyDecorations this <> [] ->
  parsePretty range this = Normal reparsed this' ->
  let r := validateRange (document this) range in
  exists (fresh : Fresh) (this1 : PrettyDocumentController),
    scanRange r (set_uglyAll_lastIndex this (resumeCharacter r this)) = Normal fresh this1
    /\ sameButLastIndex this this1
    /\ mergeFresh r (resumeCharacter r this) fresh this1 = (reparsed, this').
Proof.
  intros Hrules Hp r. unfold parsePretty in Hp.
  destruct (prettyDecorations this) as [|p l] eqn:Ep; [congruence|].
  simpl List.length in Hp. cbv iota beta in Hp. simpl Nat.eqb in Hp. cbv iota in Hp.
  fold r in Hp.
  pose proof (scanRange_framed r (set_uglyAll_lastIndex this (resumeCharacter r this))) as Hf.
  destruct (scanRange r (set_uglyAll_lastIndex this (resumeCharacter r this)))
    as [fresh this1|e this1|]; try discriminate.
  simpl in Hf.
  exists fresh, this1. split; [reflexivity|]. split.
  - eapply sameButLastIndex_trans; [apply sameButLastIndex_set | exact Hf].
  - simpl lastIndex in Hp.
    destruct (mergeFresh r (resumeCharacter r this) fresh this1) as [rp t].
    inversion Hp; subst. reflexivity.
Qed.

(** C6.  When the furthest end of the fresh matches lies past the end of the
    parsed range, [parsePretty] removes every pre-existing range that
    overlaps the span from the end of the range to that furthest end, from
    the aggregate index and from the index of every rule, and only then
    merges the fresh matches: the aggregate index is the fresh set inserted
    into what the removal left, and a range of the aggregate index or of a
    rule's index that overlaps the span is a fresh match. *)
Theorem parsePretty_removes_stale_ranges :
  forall (range reparsed : Range) (this this' : PrettyDocumentController),
    prettyDecorations this <> [] ->
    parsePretty range this = Normal reparsed this' ->
    let r := validateRange (document this) range in
    exists (fresh : Fresh) (this1 : PrettyDocumentController),
      scanRange r (set_uglyAll_lastIndex this (resumeCharacter r this)) = Normal fresh this1
      /\ (isBefore (end_ r) (getEnd (newUglyRanges fresh)) = true ->
          uglyDecorationRanges this'
          = insertRanges (newUglyRanges fresh)
              (filter (fun q => negb (overlaps false false (extraOverlapOf r fresh) q))
                      (uglyDecorationRanges this))
          /\ prettyDecorations this'
             = zipRanges insertRanges
                 (map (fun subst =>
                         set_ranges subst
                           (filter (fun q => negb (overlaps false false
                                                            (extraOverlapOf r fresh) q))
                                   (ranges subst)))
                      (prettyDecorations this))
                 (newPrettyRanges fresh)
          /\ (forall q : Range,
                 In q (uglyDecorationRanges this') ->
                 overlaps false false (extraOverlapOf r fresh) q = true ->
                 In q (newUglyRanges fresh))
          /\ (forall (subst : PrettySubstitution) (q : Range),
                 In subst (prettyDecorations this') ->
                 In q (ranges subst) ->
                 overlaps false false (extraOverlapOf r fresh) q = true ->
                 exists news, In news (newPrettyRanges fresh) /\ In q news)).
Proof.
  intros range reparsed this this' Hrules Hp r.
  destruct (parsePretty_with_rules range reparsed this this' Hrules Hp)
    as (fresh & this1 & Hscan & Hsame & Hmerge).
  fold r in Hscan, Hmerge.
  exists fresh, this1. split; [exact Hscan|].
  intros Hpast.
  assert (Hextra : newRange (end_ r) (getEnd (newUglyRanges fresh)) = extraOverlapOf r fresh).
  { apply newRange_ordered. unfold isBeforeOrEqual. rewrite Hpast. reflexivity. }
  assert (Hugly : uglyDecorationRanges this1 = uglyDecorationRanges this)
    by (rewrite Hsame; reflexivity).
  assert (Hpretty : prettyDecorations this1 = prettyDecorations this)
    by (rewrite Hsame; reflexivity).
  unfold mergeFresh in Hmerge. rewrite Hpast, Hextra in Hmerge.
  assert (Hagg : uglyDecorationRanges this'
                 = insertRanges (newUglyRanges fresh)
                     (filter (fun q => negb (overlaps false false (extraOverlapOf r fresh) q))
                             (uglyDecorationRanges this))).
  { destruct (negb (isEmpty (newUglyRanges fresh)));
      inversion Hmerge; subst; simpl; rewrite Hugly; reflexivity. }
  assert (Hrules' : prettyDecorations this'
                    = zipRanges insertRanges
                        (map (fun subst =>
                                set_ranges subst
                                  (snd (removeOverlapping (extraOverlapOf r fresh) false false
                                                          (ranges subst))))
                             (prettyDecorations this))
                        (newPrettyRanges fresh)).
  { destruct (negb (isEmpty (newUglyRanges fresh)));
      inversion Hmerge; subst; simpl; rewrite Hpretty; reflexivity. }
  split; [exact Hagg|]. split; [exact Hrules'|]. split.
  - intros q Hq Hov. rewrite Hagg in Hq. apply insertRanges_In in Hq.
    destruct Hq as [Hq|Hq]; [exact Hq|].
    apply filter_In in Hq. destruct Hq as [_ Hq]. rewrite Hov in Hq. discriminate.
  - intros subst q Hs Hq Hov. rewrite Hrules' in Hs.
    apply zipRanges_In in Hs. destruct Hs as (p & Hp0 & Hcase).
    apply in_map_iff in Hp0. destruct Hp0 as (p0 & <- & _).
    destruct Hcase as [->|(n & Hn & Hr)].
    + simpl in Hq. apply removeOverlapping_kept in Hq. destruct Hq as [_ Hq]. congruence.
    + rewrite Hr in Hq. simpl in Hq. apply insertRanges_In in Hq.
      destruct Hq as [Hq|Hq]; [exists n; auto|].
      apply removeOverlapping_kept in Hq. destruct Hq as [_ Hq]. congruence.
Qed.

(** The line [yab] with the rules [xab] and [b] has the match [b]; the host
    turns [y] into [x].  The scan of the edited range finds [xab], which ends
    past the range, and the old match [b] is removed before [xab] is
    merged. *)
Lemma parsePretty_removes_stale_ranges_witness :
  let before := Examples.controller
                  (Examples.openDocument [Examples.rule "xab"; Examples.rule "b"] ["yab"]) in
  let this := set_document before (mkDocument ["xab"]) in
  let range := Examples.rangeOf 0 0 0 1 in
  let this' := Examples.controller (parsePretty range this) in
  indices this = ([Examples.rangeOf 0 2 0 3], [[]; [Examples.rangeOf 0 2 0 3]])
  /\ indices this' = ([Examples.rangeOf 0 0 0 3], [[Examples.rangeOf 0 0 0 3]; []])
  /\ exists (fresh : Fresh) (this1 : PrettyDocumentController),
      scanRange range (set_uglyAll_lastIndex this 0) = Normal fresh this1
      /\ newUglyRanges fresh = [Examples.rangeOf 0 0 0 3]
      /\ forall q : Range,
          In q (uglyDecorationRanges this') ->
          overlaps false false (Examples.rangeOf 0 1 0 3) q = true ->
          In q (newUglyRanges fresh).
Proof.
  cbv zeta.
  set (this := set_document
                 (Examples.controller
                    (Examples.openDocument [Examples.rule "xab"; Examples.rule "b"] ["yab"]))
                 (mkDocument ["xab"])).
  set (range := Examples.rangeOf 0 0 0 1).
  split; [vm_compute; reflexivity|]. split; [vm_compute; reflexivity|].
  destruct (parsePretty_removes_stale_ranges range (Examples.rangeOf 0 0 0 3) this
              (Examples.controller (parsePretty range this)))
    as (fresh & this1 & Hscan & Hrest).
  - vm_compute. discriminate.
  - vm_compute. reflexivity.
  - exists fresh, this1.
    assert (Hfresh : newUglyRanges fresh = [Examples.rangeOf 0 0 0 3]).
    { assert (H : Normal fresh this1
                  = scanRange (validateRange (document this) range)
                      (set_uglyAll_lastIndex this
                         (resumeCharacter (validateRange (document this) range) this)))
        by (symmetry; exact Hscan).
      vm_compute in H. inversion H. reflexivity. }
    split; [exact Hscan|]. split; [exact Hfresh|].
    destruct Hrest as (_ & _ & Hagg & _).
    + rewrite Hfresh. reflexivity.
    + intros q Hq Hov. apply Hagg; [exact Hq|].
      unfold extraOverlapOf. rewrite Hfresh. exact Hov.
Defined.

(** ** Where the scan resumes *)

Lemma last_map_Some_cons (a : Range) (l : list Range) :
  last (map Some (a :: l)) None <> None.
Proof.
  revert a. induction l as [|b l IH]; intros a; simpl; [discriminate|].
  apply (IH b).
Qed.

Lemma last_cons_map_Some (a : Range) (l : list Range) :
  last (map Some (a :: l)) None
  = match last (map Some l) None with
    | Some x => Some x
    | None => Some a
    end.
Proof.
  destruct l as [|b l]; [reflexivity|].
  change (last (map Some (a :: b :: l)) None) with (last (map Some (b :: l)) None).
  pose proof (last_map_Some_cons b l) as H.
  destruct (last (map Some (b :: l)) None); [reflexivity | congruence].
Qed.

Lemma findPreceding_cons (p : Position) (a : Range) (s : DisjointRangeSet) :
  findPreceding p (a :: s)
  = match findPreceding p s with
    | Some x => Some x
    | None => if isBeforeOrEqual (end_ a) p then Some a else None
    end.
Proof.
  unfold findPreceding. simpl filter.
  destruct (isBeforeOrEqual (end_ a) p).
  - apply last_cons_map_Some.
  - destruct (last _ None); reflexivity.
Qed.

Lemma findPreceding_sound (p : Position) (s : DisjointRangeSet) (x : Range) :
  findPreceding p s = Some x -> In x s /\ isBeforeOrEqual (end_ x) p = true.
Proof.
  induction s as [|a s IH]; [discriminate|].
  rewrite findPreceding_cons.
  destruct (findPreceding p s) as [y|].
  - intros H; inversion H; subst. destruct (IH eq_refl). split; [right|]; assumption.
  - destruct (isBeforeOrEqual (end_ a) p) eqn:E; [|discriminate].
    intros H; inversion H; subst. split; [left; reflexivity | exact E].
Qed.



Lemma resumeCharacter_le (range : Range) (this : PrettyDocumentController) :
  resumeCharacter range this <= character (start range).
Proof.
  unfold resumeCharacter.
  destruct (findPreceding (start range) (uglyDecorationRanges this)) as [p|] eqn:E; [|lia].
  destruct (line (end_ p) =? line (start range)) eqn:El; [|lia].
  apply findPreceding_sound in E. destruct E as [_ E]. pos_bool.
Qed.

Lemma validateRange_ordered (d : TextDocument) (range : Range) :
  isBeforeOrEqual (start (validateRange d range)) (end_ (validateRange d range)) = true.
Proof. apply newRange_start_le_end. Qed.

Lemma mergeFresh_start (range : Range) (startCharacter : nat) (fresh : Fresh)
      (this : PrettyDocumentController) :
  isBeforeOrEqual (start range) (end_ range) = true ->
  startCharacter <= character (start range) ->
  start (fst (mergeFresh range startCharacter fresh this))
  = mkPosition (line (start range)) startCharacter.
Proof.
  intros Hord Hle. unfold mergeFresh.
  destruct (negb (isEmpty (newUglyRanges fresh))); simpl.
  - rewrite newRange_ordered; [reflexivity|].
    unfold maxPosition, with_character.
    destruct (isBefore (end_ range) (getEnd (newUglyRanges fresh))) eqn:E; pos_bool.
  - rewrite newRange_ordered; [reflexivity|]. unfold with_character. pos_bool.
Qed.

(** ** The loop over the last line *)

Lemma last_map_Some_In (s : list Range) (x : Range) :
  last (map Some s) None = Some x -> In x s.
Proof.
  induction s as [|a s IH]; [discriminate|].
  rewrite last_cons_map_Some.
  destruct (last (map Some s) None) as [y|].
  - intros H; inversion H; subst. right. apply IH. reflexivity.
  - intros H; inversion H; subst. left. reflexivity.
Qed.

Lemma getEnd_le (s : DisjointRangeSet) (p : Position) :
  (forall x : Range, In x s -> isBeforeOrEqual (end_ x) p = true) ->
  isBeforeOrEqual (getEnd s) p = true.
Proof.
  intros H. unfold getEnd.
  destruct (last (map Some s) None) as [x|] eqn:E.
  - apply H. apply last_map_Some_In. exact E.
  - destruct p as [[|l] [|c]]; reflexivity.
Qed.

Lemma zipRanges_nth (f : DisjointRangeSet -> DisjointRangeSet -> DisjointRangeSet)
      (l : list PrettySubstitution) :
  forall (news : list DisjointRangeSet) (i : nat) (p : PrettySubstitution),
    nth_error l i = Some p ->
    nth_error (zipRanges f l news) i
    = Some (match nth_error news i with
            | Some n => set_ranges p (f n (ranges p))
            | None => p
            end).
Proof.
  induction l as [|a l IH]; intros news i p H.
  - destruct i; discriminate.
  - destruct news as [|n news]; simpl.
    + rewrite H. destruct i; reflexivity.
    + destruct i as [|i]; simpl in *.
      * inversion H; subst. reflexivity.
      * apply IH. exact H.
Qed.

(** A range that starts at or after the furthest fresh end goes through
    [mergeFresh] untouched, in the aggregate index and in the index of its
    rule. *)
Lemma mergeFresh_keeps (range : Range) (startCharacter : nat) (fresh : Fresh)
      (this : PrettyDocumentController) (q : Range) :
  isBeforeOrEqual (getEnd (newUglyRanges fresh)) (start q) = true ->
  (In q (uglyDecorationRanges this) ->
   In q (uglyDecorationRanges (snd (mergeFresh range startCharacter fresh this))))
  /\ (forall (i : nat) (subst : PrettySubstitution),
         nth_error (prettyDecorations this) i = Some subst ->
         In q (ranges subst) ->
         exists subst',
           nth_error (prettyDecorations (snd (mergeFresh range startCharacter fresh this))) i
           = Some subst'
           /\ In q (ranges subst')).
Proof.
  intros Hq.
  assert (Hno : forall a : Position,
             overlaps false false (mkRange a (getEnd (newUglyRanges fresh))) q = false).
  { intros a. unfold overlaps. simpl.
    rewrite (isBeforeOrEqual_not_before _ _ Hq). reflexivity. }
  unfold mergeFresh.
  destruct (isBefore (end_ range) (getEnd (newUglyRanges fresh))) eqn:E.
  - rewrite (newRange_ordered (end_ range) (getEnd (newUglyRanges fresh)))
      by (unfold isBeforeOrEqual; rewrite E; reflexivity).
    split.
    + intros Hin.
      destruct (negb (isEmpty (newUglyRanges fresh))); simpl;
        apply insertRanges_keeps; apply removeOverlapping_kept; auto.
    + intros i subst Hi Hin.
      assert (Hi' : nth_error
                      (map (fun subst0 =>
                              set_ranges subst0
                                (snd (removeOverlapping
                                        (mkRange (end_ range) (getEnd (newUglyRanges fresh)))
                                        false false (ranges subst0))))
                           (prettyDecorations this)) i
                    = Some (set_ranges subst
                              (snd (removeOverlapping
                                      (mkRange (end_ range) (getEnd (newUglyRanges fresh)))
                                      false false (ranges subst)))))
        by (rewrite nth_error_map, Hi; reflexivity).
      eexists. split.
      * destruct (negb (isEmpty (newUglyRanges fresh))); simpl;
          apply (zipRanges_nth insertRanges _ (newPrettyRanges fresh) i _ Hi').
      * destruct (nth_error (newPrettyRanges fresh) i); simpl.
        -- apply insertRanges_keeps. apply removeOverlapping_kept. auto.
        -- apply removeOverlapping_kept. auto.
  - split.
    + intros Hin.
      destruct (negb (isEmpty (newUglyRanges fresh))); simpl;
        apply insertRanges_keeps; exact Hin.
    + intros i subst Hi Hin. eexists. split.
      * destruct (negb (isEmpty (newUglyRanges fresh))); simpl;
          apply (zipRanges_nth insertRanges _ (newPrettyRanges fresh) i _ Hi).
      * destruct (nth_error (newPrettyRanges fresh) i); simpl; [|exact Hin].
        apply insertRanges_keeps. exact Hin.
Qed.

(** On a range of one line the scan is the loop over the last line, with the
    iterator over the pre-existing matches that start at or after the end of
    the range. *)
Lemma scanRange_single_line (range : Range) (this : PrettyDocumentController)
      (text : string) :
  line (start range) = line (end_ range) ->
  lineAt (document this) (line (end_ range)) = Some text ->
  let pre := getRangesStartingAt (end_ range) (uglyDecorationRanges this) in
  scanRange range this
  = match scanLastLine (String.length text + 2 + List.length pre) text (line (end_ range))
                       this pre
                       (mkFresh empty (map (fun _ => empty) (prettyDecorations this))) with
    | Normal (fresh, _) this' => Normal fresh this'
    | Throw e this' => Throw e this'
    | Hang => Hang
    end.
Proof.
  intros Hline Htext pre. unfold scanRange.
  rewrite Hline, Nat.sub_diag. cbn [scanLines]. rewrite Htext. reflexivity.
Qed.

(** One round of the loop over the last line, for a candidate [ugly]
    found by [exec] and named by [getUglyFromMatch], with [pre] what the
    iterator over the pre-existing matches at or after the end of the range
    has still to give:
    - the iterator gives the ranges of the aggregate index that start at or
      after the end of the range;
    - if the candidate equals the current pre-existing match, the loop
      stops, with the fresh sets and the iterator as they are;
    - the merge that follows such a stop keeps, in the aggregate index and
      in the index of its rule, the pre-existing match and every range that
      starts at or after it, given that the fresh matches lie before the
      column at which the candidate was searched and the candidate at or
      after it;
    - otherwise, if the current pre-existing match starts before the end of
      the candidate, the iterator moves past it and the candidate is
      inserted into the fresh sets;
    - otherwise the candidate is inserted and the iterator stays, unless the
      round has moved nothing. *)
Theorem scanLastLine_reconciles :
  forall (fuel : nat) (text : string) (ln : nat)
         (this this' : PrettyDocumentController) (pre : list Range) (fresh : Fresh)
         (m : RegExpExecArray) (re : RegExp) (ugly : Ugly),
    exec (uglyAll this) text = (Some m, re) ->
    getUglyFromMatch m ln (set_uglyAll this re) = Normal (Some ugly) this' ->
    (forall (parsed q : Range),
        In q (getRangesStartingAt (end_ parsed) (uglyDecorationRanges this))
        <-> In q (uglyDecorationRanges this)
            /\ isBeforeOrEqual (end_ parsed) (start q) = true)
    /\ (forall (p : Range) (rest : list Range),
           pre = p :: rest ->
           isEqual p (range ugly) = true ->
           scanLastLine (S fuel) text ln this pre fresh = Normal (fresh, pre) this')
    /\ (forall (p : Range) (rest : list Range),
           pre = p :: rest ->
           isEqual p (range ugly) = true ->
           (forall x : Range,
               In x (newUglyRanges fresh) ->
               isBeforeOrEqual (end_ x) (mkPosition ln (lastIndex (uglyAll this))) = true) ->
           isBeforeOrEqual (mkPosition ln (lastIndex (uglyAll this))) (start (range ugly))
           = true ->
           forall (parsed : Range) (startCharacter : nat) (q : Range),
             isBeforeOrEqual (start p) (start q) = true ->
             (In q (uglyDecorationRanges this') ->
              In q (uglyDecorationRanges (snd (mergeFresh parsed startCharacter fresh this'))))
             /\ (forall (i : nat) (subst : PrettySubstitution),
                    nth_error (prettyDecorations this') i = Some subst ->
                    In q (ranges subst) ->
                    exists subst',
                      nth_error (prettyDecorations
                                   (snd (mergeFresh parsed startCharacter fresh this'))) i
                      = Some subst'
                      /\ In q (ranges subst')))
    /\ (forall (p : Range) (rest : list Range),
           pre = p :: rest ->
           isEqual p (range ugly) = false ->
           isBefore (start p) (end_ (range ugly)) = true ->
           scanLastLine (S fuel) text ln this pre fresh
           = scanLastLine fuel text ln this' rest (insertFresh ugly fresh))
    /\ ((pre = []
         \/ exists (p : Range) (rest : list Range),
             pre = p :: rest
             /\ isEqual p (range ugly) = false
             /\ isBefore (start p) (end_ (range ugly)) = false) ->
        lastIndex (uglyAll this) < lastIndex (uglyAll this') ->
        scanLastLine (S fuel) text ln this pre fresh
        = scanLastLine fuel text ln this' pre (insertFresh ugly fresh)).
Proof.
  intros fuel text ln this this' pre fresh m re ugly He Hg.
  split; [|split; [|split; [|split]]].
  - intros parsed q. unfold getRangesStartingAt. apply filter_In.
  - intros p rest -> Heq. cbn [scanLastLine]. rewrite He, Hg, Heq. reflexivity.
  - intros p rest -> Heq Hbehind Hahead parsed startCharacter q Hq.
    apply isEqual_eq in Heq. subst p.
    apply mergeFresh_keeps.
    apply (isBeforeOrEqual_trans _ (mkPosition ln (lastIndex (uglyAll this))) _).
    + apply getEnd_le. exact Hbehind.
    + apply (isBeforeOrEqual_trans _ (start (range ugly)) _); assumption.
  - intros p rest -> Hne Hadv. cbn [scanLastLine]. rewrite He, Hg, Hne, Hadv.
    assert (Hlen : (List.length (p :: rest) <=? List.length rest) = false)
      by (apply Nat.leb_gt; simpl; lia).
    rewrite Hlen, Bool.andb_false_r. reflexivity.
  - intros Hcase Hprog. cbn [scanLastLine]. rewrite He, Hg.
    assert (Hlt : (lastIndex (uglyAll this') <=? lastIndex (uglyAll this)) = false)
      by (apply Nat.leb_gt; exact Hprog).
    destruct Hcase as [->|(p & rest & -> & Hne & Hadv)].
    + rewrite Hlt. reflexivity.
    + rewrite Hne, Hadv, Hlt. reflexivity.
Qed.

(** The line [b  b b] with the rule [b]; the host turns the blank at column
    1 into [x], which takes the match at column 0 out of the indices.  In
    the second round of the loop over the edited line the candidate at
    column 3 equals the current pre-existing match: the loop stops, and the
    merge keeps that match and the one after it. *)
Lemma scanLastLine_reconciles_witness :
  let r01 := Examples.rangeOf 0 0 0 1 in
  let r34 := Examples.rangeOf 0 3 0 4 in
  let r56 := Examples.rangeOf 0 5 0 6 in
  let loaded := Examples.controller (Examples.openDocument [Examples.rule "b"] ["bx b b"]) in
  let this :=
    set_uglyAll_lastIndex
      (set_prettyDecorations (set_uglyDecorationRanges loaded [r34; r56])
         (map (fun subst => set_ranges subst [r34; r56]) (prettyDecorations loaded)))
      1 in
  let fresh := mkFresh [r01] [[r01]] in
  let this' := set_uglyAll_lastIndex this 4 in
  scanLastLine 9 "bx b b" 0 this [r34; r56] fresh = Normal (fresh, [r34; r56]) this'
  /\ In r34 (uglyDecorationRanges (snd (mergeFresh (Examples.rangeOf 0 1 0 2) 0 fresh this')))
  /\ In r56 (uglyDecorationRanges (snd (mergeFresh (Examples.rangeOf 0 1 0 2) 0 fresh this')))
  /\ indices (Examples.controller
                (edit (Examples.change 0 1 0 2 "x")
                      (Examples.controller
                         (Examples.openDocument [Examples.rule "b"] ["b  b b"]))))
     = ([r01; r34; r56], [[r01; r34; r56]]).
Proof.
  cbv zeta.
  set (r01 := Examples.rangeOf 0 0 0 1).
  set (r34 := Examples.rangeOf 0 3 0 4).
  set (r56 := Examples.rangeOf 0 5 0 6).
  set (loaded := Examples.controller (Examples.openDocument [Examples.rule "b"] ["bx b b"])).
  set (this := set_uglyAll_lastIndex
                 (set_prettyDecorations (set_uglyDecorationRanges loaded [r34; r56])
                    (map (fun subst => set_ranges subst [r34; r56])
                         (prettyDecorations loaded)))
                 1).
  set (fresh := mkFresh [r01] [[r01]]).
  destruct (scanLastLine_reconciles 8 "bx b b" 0 this (set_uglyAll_lastIndex this 4)
              [r34; r56] fresh (mkExecArray 3 "b" [Some "b"])
              (snd (exec (uglyAll this) "bx b b")) (mkUgly r34 0))
    as (_ & Hstop & Hkept & _ & _).
  - vm_compute. reflexivity.
  - vm_compute. reflexivity.
  - split; [apply (Hstop r34 [r56]); reflexivity|].
    assert (Hbehind : forall x : Range,
               In x (newUglyRanges fresh) ->
               isBeforeOrEqual (end_ x) (mkPosition 0 (lastIndex (uglyAll this))) = true).
    { intros x [<-|[]]. reflexivity. }
    split; [|split].
    + apply (Hkept r34 [r56] eq_refl eq_refl Hbehind eq_refl
                   (Examples.rangeOf 0 1 0 2) 0 r34 eq_refl).
      left. reflexivity.
    + apply (Hkept r34 [r56] eq_refl eq_refl Hbehind eq_refl
                   (Examples.rangeOf 0 1 0 2) 0 r56 eq_refl).
      right. left. reflexivity.
    + vm_compute. reflexivity.
Defined.

(** C5 at the rules [x axbx], [a], [b] and [c], on the line [y axbx c],
    which has the matches [a], [b] and [c], when the host turns [y] into
    [x].  The sequence of the pre-existing matches at or after the end of the
    parsed range is [a], [b], [c].  The first candidate, [x axbx], reaches
    over [a] and [b], and the iterator moves past [a] alone.  In the second
    round the candidate is [c], which equals the pre-existing match [c] of
    the sequence, but the current pre-existing match is [b]: the loop does
    not stop, the candidate is inserted into the fresh sets, the iterator
    moves to [c], and the scan goes on to the end of the line.  The scan of
    the edited range therefore gives [c] as a fresh match. *)
Theorem scanLastLine_passes_equal_match :
  let rules := [Examples.rule "x axbx"; Examples.rule "a"; Examples.rule "b";
                Examples.rule "c"] in
  let before := Examples.controller (Examples.openDocument rules ["y axbx c"]) in
  let text := "x axbx c" in
  let change := Examples.change 0 0 0 1 "x" in
  let handed := prepared (set_document before (mkDocument [text])) change in
  let r := validateRange (document handed) (editRangeOf change) in
  let this := set_uglyAll_lastIndex (set_document before (mkDocument [text])) 6 in
  let a := Examples.rangeOf 0 2 0 3 in
  let b := Examples.rangeOf 0 4 0 5 in
  let c := Examples.rangeOf 0 7 0 8 in
  let found := Examples.rangeOf 0 0 0 6 in
  let pre := [b; c] in
  let fresh := mkFresh [found] [[found]; []; []; []] in
  let m := mkExecArray 7 "c" [None; None; None; Some "c"] in
  let candidate := mkUgly c 3 in
  uglyDecorationRanges this = [a; b; c]
  /\ getRangesStartingAt (end_ r) (uglyDecorationRanges handed) = [a; b; c]
  /\ scanLastLine 13 text 0 (set_uglyAll_lastIndex handed 0) [a; b; c]
                  (mkFresh [] [[]; []; []; []])
     = scanLastLine 12 text 0 this pre fresh
  /\ fst (exec (uglyAll this) text) = Some m
  /\ getUglyFromMatch m 0 (set_uglyAll this (snd (exec (uglyAll this) text)))
     = Normal (Some candidate) (set_uglyAll_lastIndex this 8)
  /\ In (range candidate) pre
  /\ scanLastLine 12 text 0 this pre fresh
     = Normal (insertFresh candidate fresh, [c]) (set_uglyAll_lastIndex this 0)
  /\ scanLastLine 12 text 0 this pre fresh
     <> Normal (fresh, pre) (set_uglyAll_lastIndex this 8)
  /\ scanRange r (set_uglyAll_lastIndex handed (resumeCharacter r handed))
     = Normal (mkFresh [found; c] [[found]; []; []; [c]]) (set_uglyAll_lastIndex this 0)
  /\ indices (Examples.controller (edit change before))
     = ([found; c], [[found]; []; []; [c]]).
Proof.
  cbv zeta. split_all; try (vm_compute; reflexivity).
  - right. left. reflexivity.
  - vm_compute. discriminate.
Qed.

(** ** Incremental processing against a full scan *)

(** C1 at the rule with ugly text [a] after the context [xb], on the line
    [xba], when the host turns the [x] at column 0 into [y].  The match at
    column 2 neither overlaps nor touches the change, so it stays; the scan
    of the edited range starts at column 0 and finds nothing.  The indices
    keep the match; a full scan of the edited line [yba], by [refresh] or by
    a new controller, finds no match. *)
Theorem incremental_indices_differ_from_full_scan :
  let rules := [Examples.ruleAfter "xb" "a"] in
  let before := Examples.controller (Examples.openDocument rules ["xba"]) in
  let change := Examples.change 0 0 0 1 "y" in
  let after := Examples.controller (edit change before) in
  let rescanned := Examples.controller (refresh after) in
  Examples.openDocument rules ["xba"] = Normal tt before
  /\ edit change before = Normal tt after
  /\ edits [change] before = Normal tt after
  /\ refresh after = Normal tt rescanned
  /\ document after = mkDocument ["yba"]
  /\ indices before = ([Examples.rangeOf 0 2 0 3], [[Examples.rangeOf 0 2 0 3]])
  /\ indices after = ([Examples.rangeOf 0 2 0 3], [[Examples.rangeOf 0 2 0 3]])
  /\ indices rescanned = ([], [[]])
  /\ indices (Examples.controller (Examples.openDocument rules ["yba"])) = ([], [[]])
  /\ indices after <> indices rescanned.
Proof.
  cbv zeta. split_all; try (vm_compute; reflexivity).
  vm_compute. discriminate.
Qed.

(** The same with context after the ugly text: the rule [a] before [bx] and
    the rule [y], the line [abx], the [x] turned into [y].  The scan resumes
    after the match of [a], finds [y], and the match of [a], whose context is
    gone, stays. *)
Lemma incremental_indices_differ_after_context :
  let rules := [Examples.ruleBefore "a" "bx"; Examples.rule "y"] in
  let before := Examples.controller (Examples.openDocument rules ["abx"]) in
  let after := Examples.controller (edit (Examples.change 0 2 0 3 "y") before) in
  edit (Examples.change 0 2 0 3 "y") before = Normal tt after
  /\ indices after
     = ([Examples.rangeOf 0 0 0 1; Examples.rangeOf 0 2 0 3],
        [[Examples.rangeOf 0 0 0 1]; [Examples.rangeOf 0 2 0 3]])
  /\ indices (Examples.controller (refresh after))
     = ([Examples.rangeOf 0 2 0 3], [[]; [Examples.rangeOf 0 2 0 3]]).
Proof. cbv zeta. split_all; vm_compute; reflexivity. Qed.

(** ** The aggregate index and the indices of the rules *)

(** C2 at the rule [a(b)] on the document with the one line [ab], after the
    initial scan of the constructor.  The match names its second group, for
    which there is no rule: the range of [b] is inserted into the fresh
    aggregate set, the insertion into the set of the rule throws, the [try]
    of the loop swallows it, and the merge puts the range into the aggregate
    index alone.  The rule [foo(bar)?] on the line [xxfoobarxx] does the
    same with the range of [bar]. *)
Theorem aggregate_index_has_range_of_no_rule :
  let this := Examples.controller (Examples.openDocument [Examples.rule "a(b)"] ["ab"]) in
  let that := Examples.controller
                (Examples.openDocument [Examples.rule "foo(bar)?"] ["xxfoobarxx"]) in
  Examples.openDocument [Examples.rule "a(b)"] ["ab"] = Normal tt this
  /\ option_map (fun re => fst (exec re "ab"))
                (MiniRegExp.compile ("(?:" ++ uglyStrOf (Examples.rule "a(b)") ++ ")"))
     = Some (Some (mkExecArray 0 "ab" [Some "ab"; Some "b"]))
  /\ uglyDecorationRanges this = [Examples.rangeOf 0 1 0 2]
  /\ map ranges (prettyDecorations this) = [[]]
  /\ ~ aggregateIsUnion this
  /\ Examples.openDocument [Examples.rule "foo(bar)?"] ["xxfoobarxx"] = Normal tt that
  /\ uglyDecorationRanges that = [Examples.rangeOf 0 5 0 8]
  /\ map ranges (prettyDecorations that) = [[]].
Proof.
  cbv zeta. split_all; try (vm_compute; reflexivity).
  intros H.
  destruct (proj1 (H (Examples.rangeOf 0 1 0 2))) as (subst & Hs & Hq).
  - vm_compute. left. reflexivity.
  - vm_compute in Hs. destruct Hs as [<-|[]]. destruct Hq.
Qed.

(** ** The scenarios of the specification *)

(** The rule [->] on the line [a -> b]: the full scan finds the one match at
    the columns 2 to 4; a character inserted at column 0 moves it to the
    columns 3 to 5; the [-] turned into [=] removes it.  The rule
    [foo(?:bar)?] on the line [xxfoobarxx]: a character inserted between
    [foo] and [bar] leaves the one match of [foo]. *)
Lemma specification_scenarios :
  let arrow := Examples.controller (Examples.openDocument [Examples.rule "->"] ["a -> b"]) in
  let foobar := Examples.controller
                  (Examples.openDocument [Examples.rule "foo(?:bar)?"] ["xxfoobarxx"]) in
  indices arrow = ([Examples.rangeOf 0 2 0 4], [[Examples.rangeOf 0 2 0 4]])
  /\ indices (Examples.controller (edit (Examples.change 0 0 0 0 "x") arrow))
     = ([Examples.rangeOf 0 3 0 5], [[Examples.rangeOf 0 3 0 5]])
  /\ indices (Examples.controller (edit (Examples.change 0 2 0 3 "=") arrow)) = ([], [[]])
  /\ indices foobar = ([Examples.rangeOf 0 2 0 8], [[Examples.rangeOf 0 2 0 8]])
  /\ indices (Examples.controller (edit (Examples.change 0 5 0 5 "z") foobar))
     = ([Examples.rangeOf 0 2 0 5], [[Examples.rangeOf 0 2 0 5]])
  /\ indices (Examples.controller (refresh arrow)) = indices arrow.
Proof. cbv zeta. split_all; vm_compute; reflexivity. Qed.

(** ** Scans that end *)

Lemma getUglyFromMatch_lastIndex (m : RegExpExecArray) (ln : nat)
      (this : PrettyDocumentController) :
  match getUglyFromMatch m ln this with
  | Normal _ this' => lastIndex (uglyAll this') = lastIndexAfter m (lastIndex (uglyAll this))
  | Throw _ this' => lastIndex (uglyAll this') = lastIndexAfter m (lastIndex (uglyAll this))
  | Hang => False
  end.
Proof.
  unfold getUglyFromMatch, lastIndexAfter.
  destruct (_ <=? 1); [reflexivity|].
  destruct (_ <? 0)%Z; reflexivity.
Qed.

Lemma indexOf_ge (s t : string) : (-1 <= indexOf s t)%Z.
Proof. unfold indexOf. destruct (String.index 0 t s); lia. Qed.

Lemma indexOf_absent (s t : string) : indexOf s t = (-1)%Z -> 1 <= String.length t.
Proof.
  unfold indexOf. destruct (String.index 0 t s) eqn:E; [lia|].
  intros _. destruct t; [|simpl; lia].
  apply index_correct4 in E. lia.
Qed.

(** [lastIndex] never moves back in a round of a scanning loop. *)
Lemma lastIndex_never_back (re re' : RegExp) (text : string) (m : RegExpExecArray) :
  exec re text = (Some m, re') ->
  lastIndex re <= lastIndexAfter m (lastIndex re').
Proof.
  intros He. apply exec_some in He. destruct He as (Hi & Hl & _).
  unfold lastIndexAfter.
  destruct (_ <=? 1); [lia|].
  set (str := snd (last (definedFrom 0 (toArray m)) (0, EmptyString))).
  destruct (_ <? 0)%Z eqn:E; [lia|].
  apply Z.ltb_ge in E.
  pose proof (indexOf_ge (match0 m) str) as Hge.
  destruct (Z.eq_dec (indexOf (match0 m) str) (-1)) as [Heq|Hne].
  - apply indexOf_absent in Heq. lia.
  - lia.
Qed.

Lemma progressesOn_round (this : PrettyDocumentController) (text : string)
      (m : RegExpExecArray) (re : RegExp) :
  progressesOn (uglyAll this) text = true ->
  exec (uglyAll this) text = (Some m, re) ->
  lastIndex (uglyAll this) <= String.length text
  /\ lastIndex (uglyAll this) < lastIndexAfter m (lastIndex re).
Proof.
  intros Hp He. pose proof (exec_some _ _ _ _ He) as (Hi & _).
  split; [lia|].
  unfold progressesOn in Hp. rewrite forallb_forall in Hp.
  specialize (Hp (lastIndex (uglyAll this))).
  unfold progressesAt in Hp. rewrite set_lastIndex_same, He in Hp.
  apply Nat.ltb_lt. apply Hp. apply in_seq. lia.
Qed.

(** The controller that a round leaves scans as [this] does. *)
Lemma progressesOn_framed (this this' : PrettyDocumentController) (text : string) :
  sameButLastIndex this this' ->
  progressesOn (uglyAll this') text = progressesOn (uglyAll this) text.
Proof. intros H. rewrite H. reflexivity. Qed.

Lemma scanLine_ends (text : string) (idx : nat) (fuel : nat) :
  forall (this : PrettyDocumentController) (fresh : Fresh),
    progressesOn (uglyAll this) text = true ->
    String.length text + 2 <= fuel + lastIndex (uglyAll this) ->
    1 <= fuel ->
    ended (scanLine fuel text idx this fresh).
Proof.
  induction fuel as [|fuel IH]; intros this fresh Hp Hfuel H1; [lia|].
  cbn [scanLine].
  pose proof (progressesOn_round this text) as Hr.
  pose proof (fun m => exec_getUglyFromMatch_framed this text m idx) as Hf.
  destruct (exec (uglyAll this) text) as [[m|] re]; [|exact I].
  destruct (Hr m re Hp eq_refl) as [Hlen Hlt]. specialize (Hf m). simpl snd in Hf.
  pose proof (getUglyFromMatch_lastIndex m idx (set_uglyAll this re)) as Hl.
  destruct (getUglyFromMatch m idx (set_uglyAll this re)) as [[ugly|] this'|e this'|];
    simpl in Hf, Hl; try exact I; try contradiction.
  - destruct (nth_error _ _); [|exact I].
    assert (Hgo : (lastIndex (uglyAll this') <=? lastIndex (uglyAll this)) = false)
      by (apply Nat.leb_gt; lia).
    rewrite Hgo. apply IH; [|lia|lia].
    rewrite (progressesOn_framed this this' text Hf). exact Hp.
  - assert (Hgo : (lastIndex (uglyAll this') <=? lastIndex (uglyAll this)) = false)
      by (apply Nat.leb_gt; lia).
    rewrite Hgo. apply IH; [|lia|lia].
    rewrite (progressesOn_framed this this' text Hf). exact Hp.
Qed.

Lemma scanLastLine_ends (text : string) (ln : nat) (fuel : nat) :
  forall (this : PrettyDocumentController) (pre : list Range) (fresh : Fresh),
    progressesOn (uglyAll this) text = true ->
    String.length text + 2 <= fuel + lastIndex (uglyAll this) ->
    1 <= fuel ->
    ended (scanLastLine fuel text ln this pre fresh).
Proof.
  induction fuel as [|fuel IH]; intros this pre fresh Hp Hfuel H1; [lia|].
  cbn [scanLastLine].
  pose proof (progressesOn_round this text) as Hr.
  pose proof (fun m => exec_getUglyFromMatch_framed this text m ln) as Hf.
  destruct (exec (uglyAll this) text) as [[m|] re]; [|exact I].
  destruct (Hr m re Hp eq_refl) as [Hlen Hlt]. specialize (Hf m). simpl snd in Hf.
  pose proof (getUglyFromMatch_lastIndex m ln (set_uglyAll this re)) as Hl.
  destruct (getUglyFromMatch m ln (set_uglyAll this re)) as [[ugly|] this'|e this'|];
    simpl in Hf, Hl; try contradiction;
    assert (Hgo : (lastIndex (uglyAll this') <=? lastIndex (uglyAll this)) = false)
      by (apply Nat.leb_gt; lia);
    rewrite Hgo.
  - destruct (match pre with [] => false | p :: _ => isEqual p (range ugly) end);
      [exact I|].
    simpl andb. apply IH; [|lia|lia].
    rewrite (progressesOn_framed this this' text Hf). exact Hp.
  - apply IH; [|lia|lia].
    rewrite (progressesOn_framed this this' text Hf). exact Hp.
  - apply IH; [|lia|lia].
    rewrite (progressesOn_framed this this' text Hf). exact Hp.
Qed.

Lemma scansEnd_framed (this this' : PrettyDocumentController) :
  sameButLastIndex this this' -> scansEnd this' = scansEnd this.
Proof. intros H. rewrite H. reflexivity. Qed.

Lemma framed_endsWell {A : Type} (this : PrettyDocumentController) (c : Completion A) :
  scansEnd this = true -> framed this c -> ended c -> endsWell c.
Proof.
  intros Hs Hf He. destruct c; simpl in *; auto;
    rewrite (scansEnd_framed _ _ Hf); exact Hs.
Qed.

Lemma scansEnd_line (this : PrettyDocumentController) (idx : nat) (text : string) :
  scansEnd this = true ->
  lineAt (document this) idx = Some text ->
  progressesOn (uglyAll this) text = true.
Proof.
  unfold scansEnd, lineAt. intros Hs Hl. rewrite forallb_forall in Hs.
  apply Hs. eapply nth_error_In; eauto.
Qed.

Lemma scanLines_ends (n : nat) :
  forall (idx : nat) (this : PrettyDocumentController) (fresh : Fresh),
    scansEnd this = true -> ended (scanLines n idx this fresh).
Proof.
  induction n as [|n IH]; intros idx this fresh Hs; cbn [scanLines]; [exact I|].
  destruct (lineAt (document this) idx) as [text|] eqn:El; [|exact I].
  pose proof (scanLine_ends text idx (String.length text + 2) this fresh
                (scansEnd_line this idx text Hs El)) as He.
  pose proof (scanLine_framed (String.length text + 2) text idx this fresh) as Hf.
  destruct (scanLine (String.length text + 2) text idx this fresh)
    as [fresh' this'|e this'|]; simpl in *; auto; [|apply He; lia].
  apply IH.
  rewrite (scansEnd_framed this'); [|apply sameButLastIndex_set].
  rewrite (scansEnd_framed this this' Hf). exact Hs.
Qed.

Lemma scanRange_ends (range : Range) (this : PrettyDocumentController) :
  scansEnd this = true -> ended (scanRange range this).
Proof.
  intros Hs. unfold scanRange.
  pose proof (scanLines_ends (line (end_ range) - line (start range)) (line (start range))
                this (mkFresh empty (map (fun _ => empty) (prettyDecorations this))) Hs) as He.
  pose proof (scanLines_framed (line (end_ range) - line (start range)) (line (start range))
                this (mkFresh empty (map (fun _ => empty) (prettyDecorations this)))) as Hf.
  destruct (scanLines _ _ this _) as [fresh this1|e this1|]; simpl in *; auto.
  destruct (lineAt (document this1) (line (end_ range))) as [text|] eqn:El; [|exact I].
  assert (Hs1 : scansEnd this1 = true) by (rewrite (scansEnd_framed this this1 Hf); exact Hs).
  pose proof (scanLastLine_ends text (line (end_ range))
                (String.length text + 2
                 + List.length (getRangesStartingAt (end_ range) (uglyDecorationRanges this1)))
                this1 (getRangesStartingAt (end_ range) (uglyDecorationRanges this1)) fresh
                (scansEnd_line this1 _ text Hs1 El)) as He2.
  destruct (scanLastLine _ text _ this1 _ fresh) as [[fresh' pre'] this2|e this2|];
    simpl in *; auto. apply He2; lia.
Qed.

Lemma mergeFresh_scansEnd (range : Range) (startCharacter : nat) (fresh : Fresh)
      (this : PrettyDocumentController) :
  scansEnd (snd (mergeFresh range startCharacter fresh this)) = scansEnd this.
Proof.
  unfold mergeFresh.
  destruct (isBefore (end_ range) (getEnd (newUglyRanges fresh)));
    destruct (negb (isEmpty (newUglyRanges fresh))); reflexivity.
Qed.

Lemma parsePretty_ends (range : Range) (this : PrettyDocumentController) :
  scansEnd this = true -> endsWell (parsePretty range this).
Proof.
  intros Hs. unfold parsePretty.
  destruct (List.length (prettyDecorations this) =? 0); [exact Hs|].
  set (r := validateRange (document this) range).
  set (this0 := set_uglyAll_lastIndex this (resumeCharacter r this)).
  assert (Hs0 : scansEnd this0 = true) by exact Hs.
  pose proof (scanRange_ends r this0 Hs0) as He.
  pose proof (scanRange_framed r this0) as Hf.
  destruct (scanRange r this0) as [fresh this1|e this1|]; simpl in *; auto.
  - match goal with
    | |- context [mergeFresh ?a ?b ?c ?d] =>
        pose proof (mergeFresh_scansEnd a b c d) as Hm;
        destruct (mergeFresh a b c d) as [reparsed this2]
    end.
    simpl in *. rewrite Hm, (scansEnd_framed this0 this1 Hf). exact Hs0.
  - rewrite (scansEnd_framed this0 this1 Hf). exact Hs0.
Qed.

Lemma onChange_ends (this : PrettyDocumentController)
      (change : vscode.TextDocumentContentChangeEvent) :
  scansEnd this = true ->
  exists this', onChange this change = Normal tt this' /\ scansEnd this' = true.
Proof.
  intros Hs. unfold onChange.
  destruct (removeOverlapping (vscode.range change) true true (uglyDecorationRanges this))
    as [removed kept].
  match goal with
  | |- context [parsePretty ?r ?t] =>
      assert (Ht : scansEnd t = true)
        by (destruct (0 <? List.length removed); exact Hs);
      pose proof (parsePretty_ends r t Ht) as Hp;
      destruct (parsePretty r t) as [reparsed this1|e this1|]; simpl in Hp
  end.
  - eexists. split; [reflexivity | exact Hp].
  - eexists. split; [reflexivity | exact Hp].
  - contradiction.
Qed.

Lemma onChanges_ends (changes : list vscode.TextDocumentContentChangeEvent) :
  forall this : PrettyDocumentController,
    scansEnd this = true ->
    exists this', onChanges this changes = Normal tt this' /\ scansEnd this' = true.
Proof.
  induction changes as [|change rest IH]; intros this Hs; simpl.
  - exists this. auto.
  - destruct (onChange_ends this change Hs) as (this1 & -> & Hs1).
    apply IH. exact Hs1.
Qed.

(** ** Redraw after every change event *)

(** C8.  [onChangeDocument] ends in a call of [applyDecorations] whatever the
    changes did to the matches.  It never leaves with an exception; when the
    loop over the changes ends it returns with exactly one more call of
    [applyDecorations] and both redraw timers armed, the flag
    [changedUglies] having no part in it; and the loop over the changes does
    end when every round of the scanning loops on the lines of the document
    moves [lastIndex] forward. *)
Theorem onChangeDocument_always_applies_decorations :
  forall (event : vscode.TextDocumentChangeEvent) (this : PrettyDocumentController),
    match onChanges (set_changedUglies this false) (vscode.contentChanges event) with
    | Normal _ this1 =>
        onChangeDocument event this = Normal tt (applyDecorations this1)
        /\ applyDecorationsCalls (applyDecorations this1) = S (applyDecorationsCalls this)
        /\ applyDecorationsTimeout (applyDecorations this1) = true
        /\ applyDecorationsTimeoutActive (applyDecorations this1) = true
    | Throw _ _ => False
    | Hang => onChangeDocument event this = Hang
    end
    /\ (scansEnd this = true ->
        exists this1 : PrettyDocumentController,
          onChanges (set_changedUglies this false) (vscode.contentChanges event)
          = Normal tt this1
          /\ onChangeDocument event this = Normal tt (applyDecorations this1)
          /\ applyDecorationsCalls (applyDecorations this1) = S (applyDecorationsCalls this)).
Proof.
  intros event this.
  assert (Hfirst :
    match onChanges (set_changedUglies this false) (vscode.contentChanges event) with
    | Normal _ this1 =>
        onChangeDocument event this = Normal tt (applyDecorations this1)
        /\ applyDecorationsCalls (applyDecorations this1) = S (applyDecorationsCalls this)
        /\ applyDecorationsTimeout (applyDecorations this1) = true
        /\ applyDecorationsTimeoutActive (applyDecorations this1) = true
    | Throw _ _ => False
    | Hang => onChangeDocument event this = Hang
    end).
  { unfold onChangeDocument.
    pose proof (onChanges_calls (vscode.contentChanges event) (set_changedUglies this false))
      as H.
    destruct (onChanges (set_changedUglies this false) (vscode.contentChanges event))
      as [u this1|e this1|]; auto.
    rewrite Bool.orb_true_r. destruct u. simpl in *. rewrite H. auto. }
  split; [exact Hfirst|].
  intros Hs.
  destruct (onChanges_ends (vscode.contentChanges event) (set_changedUglies this false) Hs)
    as (this1 & Hon & _).
  rewrite Hon in Hfirst. destruct Hfirst as (H1 & H2 & _).
  exists this1. auto.
Qed.

(** The rule [->] on the line [a -> b]; the host appends [x].  No match is
    added or removed, [changedUglies] stays false, and [applyDecorations] is
    called. *)
Lemma onChangeDocument_always_applies_decorations_witness :
  let before := Examples.controller (Examples.openDocument [Examples.rule "->"] ["a -> b"]) in
  let event := vscode.mkChangeEvent (mkDocument ["a -> bx"]) [Examples.change 0 6 0 6 "x"] in
  let this := set_document before (vscode.document event) in
  scansEnd this = true
  /\ exists this1 : PrettyDocumentController,
      onChangeDocument event this = Normal tt (applyDecorations this1)
      /\ changedUglies this1 = false
      /\ indices this1 = indices before
      /\ applyDecorationsCalls (applyDecorations this1) = S (applyDecorationsCalls this).
Proof.
  cbv zeta.
  set (event := vscode.mkChangeEvent (mkDocument ["a -> bx"]) [Examples.change 0 6 0 6 "x"]).
  set (this := set_document
                 (Examples.controller (Examples.openDocument [Examples.rule "->"] ["a -> b"]))
                 (vscode.document event)).
  assert (Hs : scansEnd this = true) by (vm_compute; reflexivity).
  split; [exact Hs|].
  pose proof (onChangeDocument_always_applies_decorations event this) as Hthm.
  apply proj2 in Hthm. specialize (Hthm Hs).
  destruct Hthm as (this1 & Hon & Hdoc & Hcalls).
  exists this1.
  assert (Hrun : onChanges (set_changedUglies this false) (vscode.contentChanges event)
                 = Normal tt (Examples.controller
                                (onChanges (set_changedUglies this false)
                                           (vscode.contentChanges event))))
    by (vm_compute; reflexivity).
  rewrite Hon in Hrun at 1. apply Normal_controller in Hrun.
  split; [exact Hdoc|]. split; [|split; [|exact Hcalls]].
  - rewrite Hrun. vm_compute. reflexivity.
  - rewrite Hrun. vm_compute. reflexivity.
Defined.

(** ** Fresh matches lie behind the search

    The two conditions under which the merge keeps the pre-existing match at
    which the loop over the last line stops hold from round to round. *)

Lemma freshBehind_start (ln L : nat) (l : list DisjointRangeSet) :
  freshBehind (mkFresh empty l) ln L.
Proof. intros x []. Qed.

(** A candidate whose text is found in the whole match starts at or after
    the column from which it was searched. *)
Lemma candidate_ahead (text : string) (ln : nat) (this this' : PrettyDocumentController)
      (m : RegExpExecArray) (re : RegExp) (ugly : Ugly) :
  exec (uglyAll this) text = (Some m, re) ->
  getUglyFromMatch m ln (set_uglyAll this re) = Normal (Some ugly) this' ->
  (0 <= indexOf (match0 m) (snd (last (definedFrom 0 (toArray m)) (0%nat, EmptyString))))%Z ->
  isBeforeOrEqual (mkPosition ln (lastIndex (uglyAll this))) (start (range ugly)) = true.
Proof.
  intros He Hg Hoff. apply exec_some in He. destruct He as (Hi & _).
  apply getUglyFromMatch_some in Hg. cbv zeta in Hg. destruct Hg as (_ & _ & -> & _).
  simpl. pos_bool.
Qed.

(** After a round the fresh matches end at or before the new [lastIndex]. *)
Lemma freshBehind_round (text : string) (ln : nat) (this this' : PrettyDocumentController)
      (m : RegExpExecArray) (re : RegExp) (ugly : Ugly) (fresh : Fresh) :
  exec (uglyAll this) text = (Some m, re) ->
  getUglyFromMatch m ln (set_uglyAll this re) = Normal (Some ugly) this' ->
  freshBehind fresh ln (lastIndex (uglyAll this)) ->
  freshBehind (insertFresh ugly fresh) ln (lastIndex (uglyAll this')).
Proof.
  intros He Hg Hb x Hx.
  pose proof (lastIndex_never_back _ _ _ _ He) as Hmono.
  pose proof (getUglyFromMatch_lastIndex m ln (set_uglyAll this re)) as Hl.
  rewrite Hg in Hl. simpl in Hl. rewrite <- Hl in Hmono.
  assert (Hend : end_ (range ugly) = mkPosition ln (lastIndex (uglyAll this'))).
  { apply getUglyFromMatch_some in Hg. cbv zeta in Hg.
    destruct Hg as (_ & _ & -> & ->). reflexivity. }
  assert (Hin : In x (insert (range ugly) (newUglyRanges fresh))).
  { unfold insertFresh in Hx. destruct (nth_error _ _); exact Hx. }
  apply insert_In in Hin. destruct Hin as [->|Hin].
  - rewrite Hend. apply isBeforeOrEqual_refl.
  - specialize (Hb x Hin).
    apply (isBeforeOrEqual_trans _ (mkPosition ln (lastIndex (uglyAll this))) _);
      [exact Hb|]. pos_bool.
Qed.

(** ** The rounds given to the loops are enough

    With the rounds that [scanLines] and [scanRange] give them, the loops
    never run out of rounds: more rounds give the same result, so [Hang] is
    the result of a round that moves nothing. *)

Lemma round_lastIndex (this : PrettyDocumentController) (text : string)
      (m : RegExpExecArray) (re : RegExp) (ln : nat) :
  exec (uglyAll this) text = (Some m, re) ->
  match getUglyFromMatch m ln (set_uglyAll this re) with
  | Normal _ t => lastIndex (uglyAll this) <= lastIndex (uglyAll t)
  | Throw _ t => lastIndex (uglyAll this) <= lastIndex (uglyAll t)
  | Hang => True
  end
  /\ lastIndex (uglyAll this) <= String.length text.
Proof.
  intros He.
  pose proof (lastIndex_never_back _ _ _ _ He) as Hmono.
  pose proof (getUglyFromMatch_lastIndex m ln (set_uglyAll this re)) as Hl.
  apply exec_some in He. destruct He as (Hi & _).
  split; [|lia].
  destruct (getUglyFromMatch m ln (set_uglyAll this re)); simpl in Hl; auto; lia.
Qed.

Lemma scanLine_rounds (text : string) (idx : nat) (fuel1 : nat) :
  forall (fuel2 : nat) (this : PrettyDocumentController) (fresh : Fresh),
    String.length text + 2 <= fuel1 + lastIndex (uglyAll this) ->
    String.length text + 2 <= fuel2 + lastIndex (uglyAll this) ->
    1 <= fuel1 -> 1 <= fuel2 ->
    scanLine fuel1 text idx this fresh = scanLine fuel2 text idx this fresh.
Proof.
  induction fuel1 as [|fuel1 IH]; intros fuel2 this fresh H1 H2 Hp1 Hp2; [lia|].
  destruct fuel2 as [|fuel2]; [lia|].
  cbn [scanLine].
  pose proof (fun m re => round_lastIndex this text m re idx) as Hr.
  destruct (exec (uglyAll this) text) as [[m|] re]; [|reflexivity].
  destruct (Hr m re eq_refl) as [Hmono Hlen]. clear Hr.
  destruct (getUglyFromMatch m idx (set_uglyAll this re)) as [[ugly|] this'|e this'|];
    try reflexivity.
  - destruct (nth_error _ _); [|reflexivity].
    destruct (lastIndex (uglyAll this') <=? lastIndex (uglyAll this)) eqn:E; [reflexivity|].
    apply Nat.leb_gt in E. apply IH; lia.
  - destruct (lastIndex (uglyAll this') <=? lastIndex (uglyAll this)) eqn:E; [reflexivity|].
    apply Nat.leb_gt in E. apply IH; lia.
Qed.

Lemma scanLastLine_rounds (text : string) (ln : nat) (fuel1 : nat) :
  forall (fuel2 : nat) (this : PrettyDocumentController) (pre : list Range) (fresh : Fresh),
    String.length text + 2 + List.length pre <= fuel1 + lastIndex (uglyAll this) ->
    String.length text + 2 + List.length pre <= fuel2 + lastIndex (uglyAll this) ->
    1 <= fuel1 -> 1 <= fuel2 ->
    scanLastLine fuel1 text ln this pre fresh = scanLastLine fuel2 text ln this pre fresh.
Proof.
  induction fuel1 as [|fuel1 IH]; intros fuel2 this pre fresh H1 H2 Hp1 Hp2; [lia|].
  destruct fuel2 as [|fuel2]; [lia|].
  cbn [scanLastLine].
  pose proof (fun m re => round_lastIndex this text m re ln) as Hr.
  destruct (exec (uglyAll this) text) as [[m|] re]; [|reflexivity].
  destruct (Hr m re eq_refl) as [Hmono Hlen]. clear Hr.
  destruct (getUglyFromMatch m ln (set_uglyAll this re)) as [[ugly|] this'|e this'|];
    try reflexivity.
  - destruct (match pre with [] => false | p :: _ => isEqual p (range ugly) end);
      [reflexivity|].
    set (pre' := match pre with
                 | [] => pre
                 | p :: rest => if isBefore (start p) (end_ (range ugly)) then rest else pre
                 end).
    assert (Hpre : List.length pre' <= List.length pre).
    { subst pre'. destruct pre as [|p rest]; [lia|].
      destruct (isBefore (start p) (end_ (range ugly))); simpl; lia. }
    destruct ((lastIndex (uglyAll this') <=? lastIndex (uglyAll this))
              && (List.length pre <=? List.length pre')) eqn:E; [reflexivity|].
    apply Bool.andb_false_iff in E.
    apply IH; destruct E as [E|E];
      try apply Nat.leb_gt in E; lia.
  - destruct (lastIndex (uglyAll this') <=? lastIndex (uglyAll this)) eqn:E; [reflexivity|].
    apply Nat.leb_gt in E. apply IH; lia.
  - destruct (lastIndex (uglyAll this') <=? lastIndex (uglyAll this)) eqn:E; [reflexivity|].
    apply Nat.leb_gt in E. apply IH; lia.
Qed.

(** * Further properties of [src/document.ts] *)

(** ** [arrayEqual] *)

Lemma arrayEqualFrom_pointwise {T : Type} (isEqual : T -> T -> bool) (a1 : list T) :
  forall a2 : list T,
    List.length a1 = List.length a2 ->
    (arrayEqualFrom isEqual a1 a2 = true
     <-> Forall2 (fun x y => isEqual x y = true) a1 a2).
Proof.
  induction a1 as [|x r1 IH]; intros [|y r2] Hlen; simpl in *; try discriminate.
  - split; [constructor | reflexivity].
  - injection Hlen as Hlen. specialize (IH r2 Hlen).
    destruct (isEqual x y) eqn:E; simpl.
    + rewrite IH. split.
      * intros H. constructor; assumption.
      * intros H. inversion H; assumption.
    + split; [discriminate|]. intros H. inversion H. congruence.
Qed.

Lemma arrayEqual_refl {T : Type} (isEqual : T -> T -> bool) (a : list T) :
  (forall x : T, isEqual x x = true) -> arrayEqual a a isEqual = true.
Proof.
  intros Hrefl. unfold arrayEqual. rewrite Nat.eqb_refl. simpl.
  induction a as [|x r IH]; simpl; [reflexivity|].
  rewrite Hrefl. exact IH.
Qed.

(** X1.  [arrayEqual] is true exactly for two arrays of the same length whose
    elements at the same index are all accepted by [isEqual]; in particular an
    array is never equal to a proper prefix of itself, and [isEqual] is not
    asked about elements of arrays of different lengths. *)
Theorem arrayEqual_pointwise :
  forall (T : Type) (isEqual : T -> T -> bool) (a1 a2 : list T),
    (arrayEqual a1 a2 isEqual = true
     <-> List.length a1 = List.length a2
         /\ forall idx x y,
              nth_error a1 idx = Some x -> nth_error a2 idx = Some y ->
              isEqual x y = true)
    /\ (List.length a1 <> List.length a2 ->
        forall isEqual' : T -> T -> bool, arrayEqual a1 a2 isEqual' = false).
Proof.
  intros T isEqual a1 a2. split.
  - unfold arrayEqual.
    destruct (List.length a1 =? List.length a2) eqn:E; simpl.
    + apply Nat.eqb_eq in E.
      rewrite (arrayEqualFrom_pointwise isEqual a1 a2 E). split.
      * intros H. split; [exact E|].
        induction H as [|x y r1 r2 Hxy H IH]; intros [|idx] x' y' H1 H2; simpl in *;
          try discriminate.
        -- congruence.
        -- apply (IH ltac:(simpl in E; lia) idx x' y' H1 H2).
      * intros [_ H]. revert a2 E H.
        induction a1 as [|x r1 IH]; intros [|y r2] E H; simpl in *; try discriminate.
        -- constructor.
        -- constructor.
           ++ apply (H 0 x y); reflexivity.
           ++ apply IH; [lia|]. intros idx x' y'. apply (H (S idx) x' y').
    + apply Nat.eqb_neq in E. split; [discriminate | intros [H _]; contradiction].
  - intros Hne isEqual'. unfold arrayEqual.
    apply Nat.eqb_neq in Hne. rewrite Hne. reflexivity.
Qed.

(** ** The redraw timers *)

Lemma setPrettyDecorations_editor (editor : TextEditor) (substs : list PrettySubstitution) :
  forall (idx : nat) (call : SetDecorations),
    In call (setPrettyDecorations editor idx substs) ->
    decoratedEditor call = editorId editor.
Proof.
  induction substs as [|subst rest IH]; intros idx call H; simpl in H; [contradiction|].
  destruct H as [<-|H]; [reflexivity|]. apply (IH (S idx)). exact H.
Qed.

Lemma setDecorationsOf_editor (this : PrettyDocumentController) (editor : TextEditor)
      (call : SetDecorations) :
  In call (setDecorationsOf this editor) -> decoratedEditor call = editorId editor.
Proof.
  intros [<-|H]; [reflexivity|]. apply (setPrettyDecorations_editor _ _ _ _ H).
Qed.

Lemma inactiveEditorsLoop_editor (a : TextEditor) (this : PrettyDocumentController)
      (editors : list TextEditor) (call : SetDecorations) :
  In call (inactiveEditorsLoop (Some a) this editors) ->
  decoratedEditor call <> editorId a.
Proof.
  induction editors as [|editor rest IH];
    cbn [inactiveEditorsLoop isActiveTextEditor]; [contradiction|].
  destruct (editorId editor =? editorId a) eqn:E; [contradiction|].
  apply Nat.eqb_neq in E. intros H. apply in_app_or in H. destruct H as [H|H].
  - apply setDecorationsOf_editor in H. congruence.
  - apply IH. exact H.
Qed.

(** X4.  When the two timers fire, the editors are handled up to the first
    change between the active editor and the others, and no further: if the
    first of the editors is the active one, it is the only editor that gets
    its decorations; if another editor comes first, the active editor gets
    none, from neither timer. *)
Theorem redraw_stops_at_first_other_editor :
  forall (a : TextEditor) (editors : list TextEditor) (this : PrettyDocumentController),
    NoDup (map editorId editors) ->
    let calls := (fst (activeTimeoutFires (Some a) editors this)
                  ++ fst (inactiveTimeoutFires (Some a) editors this))%list in
    match editors with
    | [] => calls = []
    | first :: _ =>
        if isActiveTextEditor (Some a) first
        then calls = setDecorationsOf this first
        else forall call : SetDecorations,
               In call calls -> decoratedEditor call <> editorId a
    end.
Proof.
  intros a editors this Hnd calls. subst calls.
  destruct editors as [|first rest]; [reflexivity|].
  unfold activeTimeoutFires, inactiveTimeoutFires, fst.
  cbn [activeEditorLoop inactiveEditorsLoop isActiveTextEditor].
  destruct (editorId first =? editorId a) eqn:E; cbn [negb].
  - rewrite app_nil_r.
    destruct rest as [|second rest];
      cbn [activeEditorLoop isActiveTextEditor]; [apply app_nil_r|].
    apply Nat.eqb_eq in E.
    assert (Hne : (editorId second =? editorId a) = false).
    { apply Nat.eqb_neq. intros Heq. inversion Hnd as [|x l Hnot _]; subst.
      apply Hnot. simpl. left. congruence. }
    rewrite Hne. cbn [negb]. apply app_nil_r.
  - intros call H.
    apply (inactiveEditorsLoop_editor a this (first :: rest) call).
    cbn [inactiveEditorsLoop isActiveTextEditor]. rewrite E. exact H.
Qed.

(** Two editors show the document and the second one is the active editor:
    it gets no decoration. *)
Lemma redraw_stops_at_first_other_editor_witness :
  let this := Examples.controller (Examples.openDocument [Examples.rule "->"] ["a -> b"]) in
  let other := mkEditor 2 0 [] in
  let a := mkEditor 1 0 [] in
  NoDup (map editorId [other; a])
  /\ forall call : SetDecorations,
       In call (fst (activeTimeoutFires (Some a) [other; a] this)
                ++ fst (inactiveTimeoutFires (Some a) [other; a] this))%list ->
       decoratedEditor call <> 1.
Proof.
  cbv zeta.
  assert (Hnd : NoDup (map editorId [mkEditor 2 0 []; mkEditor 1 0 []])).
  { simpl. repeat constructor; simpl; intuition lia. }
  split; [exact Hnd|].
  exact (redraw_stops_at_first_other_editor (mkEditor 1 0 [])
           [mkEditor 2 0 []; mkEditor 1 0 []]
           (Examples.controller (Examples.openDocument [Examples.rule "->"] ["a -> b"]))
           Hnd).
Defined.

(** ** The cursor *)

Section CursorProperties.

Variable adjustCursorMovement : Position -> Position -> TextDocument -> list Range -> Position.
Variable sameObject : Selection -> Selection -> bool.

Lemma isEqualPos_refl (p : Position) : isEqualPos p p = true.
Proof. apply isEqualPos_eq. reflexivity. Qed.

(** What [adjustCursor] may do to a selection. *)
Lemma adjustSelection_anchor (before : list Selection) (this : PrettyDocumentController)
      (sel : Selection) (idx : nat) :
  let sel' := fst (adjustSelection adjustCursorMovement before this sel idx) in
  (isEqualPos (anchor sel) (active sel) = false -> anchor sel' = anchor sel)
  /\ (isEqualPos (anchor sel) (active sel) = true ->
      isEqualPos (anchor sel') (active sel') = true).
Proof.
  unfold adjustSelection.
  destruct (nth_error before idx) as [b|]; simpl.
  - destruct (isEqualPos (anchor sel) (active sel)) eqn:E; simpl; split;
      try discriminate; auto using isEqualPos_refl.
  - split; auto.
Qed.

Lemma adjustSelections_anchors (before : list Selection) (this : PrettyDocumentController)
      (after : list Selection) :
  forall idx : nat,
    let adjustedSelections :=
      fst (adjustSelections adjustCursorMovement before this idx after) in
    List.length adjustedSelections = List.length after
    /\ forall (k : nat) (sel : Selection),
         nth_error after k = Some sel ->
         exists sel' : Selection,
           nth_error adjustedSelections k = Some sel'
           /\ (isEqualPos (anchor sel) (active sel) = false -> anchor sel' = anchor sel)
           /\ (isEqualPos (anchor sel) (active sel) = true ->
               isEqualPos (anchor sel') (active sel') = true).
Proof.
  induction after as [|sel rest IH]; intros idx; simpl.
  - split; [reflexivity|]. intros [|k] sel' H; discriminate.
  - pose proof (adjustSelection_anchor before this sel idx) as Ha.
    destruct (adjustSelection adjustCursorMovement before this sel idx) as [adjusted updated].
    specialize (IH (S idx)).
    destruct (adjustSelections adjustCursorMovement before this (S idx) rest)
      as [adjustedSelections updated'].
    simpl in *. destruct IH as [Hlen IH]. split; [congruence|].
    intros [|k] sel0 H; simpl in *.
    + injection H as <-. exists adjusted. split; [reflexivity | exact Ha].
    + apply IH. exact H.
Qed.

(** X17.  [adjustCursor] keeps the editor's selections in number and order,
    never moves the anchor of a selection that is not empty, and leaves an
    empty selection (a plain cursor) empty, whatever
    [pos.adjustCursorMovement] answers and whatever has been remembered for
    the editor. *)
Theorem adjustCursor_keeps_anchors :
  forall (lastSelections : SelectionsMap) (editor : TextEditor)
         (this : PrettyDocumentController),
    let editor' :=
      snd (adjustCursor adjustCursorMovement sameObject lastSelections editor this) in
    editorId editor' = editorId editor
    /\ List.length (selections editor') = List.length (selections editor)
    /\ forall (idx : nat) (sel : Selection),
         nth_error (selections editor) idx = Some sel ->
         exists sel' : Selection,
           nth_error (selections editor') idx = Some sel'
           /\ (isEqualPos (anchor sel) (active sel) = false -> anchor sel' = anchor sel)
           /\ (isEqualPos (anchor sel) (active sel) = true ->
               isEqualPos (anchor sel') (active sel') = true).
Proof.
  intros lastSelections editor this.
  assert (Hsame : forall (idx : nat) (sel : Selection),
            nth_error (selections editor) idx = Some sel ->
            exists sel' : Selection,
              nth_error (selections editor) idx = Some sel'
              /\ (isEqualPos (anchor sel) (active sel) = false -> anchor sel' = anchor sel)
              /\ (isEqualPos (anchor sel) (active sel) = true ->
                  isEqualPos (anchor sel') (active sel') = true)).
  { intros idx sel H. exists sel. auto. }
  unfold adjustCursor.
  destruct (lastSelections (editorId editor)) as [before|]; simpl; auto.
  destruct (arrayEqual before (selections editor) sameObject); simpl; auto.
  pose proof (adjustSelections_anchors before this (selections editor) 0) as Ha.
  destruct (adjustSelections adjustCursorMovement before this 0 (selections editor))
    as [adjustedSelections updated].
  simpl in *. destruct Ha as [Hlen Ha]. destruct updated; simpl; auto.
Qed.

(** X18.  Once [adjustCursor] has seen an editor for the first time, or has
    replaced the editor's selections, a second call for that editor returns at
    once: it finds the selections that it has remembered, and neither the map
    nor the editor changes. *)
Theorem adjustCursor_settles :
  forall (lastSelections : SelectionsMap) (editor : TextEditor)
         (this : PrettyDocumentController),
    (forall s : Selection, sameObject s s = true) ->
    let lastSelections' :=
      fst (adjustCursor adjustCursorMovement sameObject lastSelections editor this) in
    let editor' :=
      snd (adjustCursor adjustCursorMovement sameObject lastSelections editor this) in
    lastSelections (editorId editor) = None
    \/ selections editor' <> selections editor ->
    adjustCursor adjustCursorMovement sameObject lastSelections' editor' this
    = (lastSelections', editor').
Proof.
  intros lastSelections editor this Hrefl. cbv zeta.
  remember (adjustCursor adjustCursorMovement sameObject lastSelections editor this)
    as r eqn:Er.
  unfold adjustCursor in Er.
  destruct (lastSelections (editorId editor)) as [before|] eqn:Eb.
  - destruct (arrayEqual before (selections editor) sameObject) eqn:Ea.
    + subst r. simpl. intros [H|H]; [discriminate | contradiction].
    + destruct (adjustSelections adjustCursorMovement before this 0 (selections editor))
        as [adjustedSelections updated].
      destruct updated; subst r; cbn [fst snd].
      * intros _. unfold adjustCursor, SelectionsMap_set; simpl.
        rewrite Nat.eqb_refl. rewrite arrayEqual_refl by exact Hrefl. reflexivity.
      * intros [H|H]; [discriminate | contradiction].
  - subst r; cbn [fst snd]. intros _. unfold adjustCursor, SelectionsMap_set; simpl.
    rewrite Nat.eqb_refl. rewrite arrayEqual_refl by exact Hrefl. reflexivity.
Qed.

End CursorProperties.

(** The editor's cursor at column 2 was at column 1 before; the movement is
    adjusted one column to the right, and the call after that one settles. *)
Lemma adjustCursor_settles_witness :
  let adjustCursorMovement :=
    fun (_ e : Position) (_ : TextDocument) (_ : list Range) =>
      mkPosition (line e) (S (character e)) in
  let sameObject :=
    fun s s' : Selection =>
      isEqualPos (anchor s) (anchor s') && isEqualPos (active s) (active s') in
  let this := Examples.controller (Examples.openDocument [Examples.rule "->"] ["a -> b"]) in
  let lastSelections : SelectionsMap :=
    fun _ => Some [mkSelection (mkPosition 0 1) (mkPosition 0 1)] in
  let editor := mkEditor 1 0 [mkSelection (mkPosition 0 2) (mkPosition 0 2)] in
  let lastSelections' :=
    fst (adjustCursor adjustCursorMovement sameObject lastSelections editor this) in
  let editor' :=
    snd (adjustCursor adjustCursorMovement sameObject lastSelections editor this) in
  (forall s : Selection, sameObject s s = true)
  /\ selections editor' = [mkSelection (mkPosition 0 3) (mkPosition 0 3)]
  /\ adjustCursor adjustCursorMovement sameObject lastSelections' editor' this
     = (lastSelections', editor').
Proof.
  cbv zeta.
  assert (Hrefl : forall s : Selection,
            isEqualPos (anchor s) (anchor s) && isEqualPos (active s) (active s) = true).
  { intros s. rewrite !isEqualPos_refl. reflexivity. }
  split; [exact Hrefl|]. split; [reflexivity|].
  apply (adjustCursor_settles
           (fun (_ e : Position) (_ : TextDocument) (_ : list Range) =>
              mkPosition (line e) (S (character e)))
           (fun s s' : Selection =>
              isEqualPos (anchor s) (anchor s') && isEqualPos (active s) (active s'))
           (fun _ => Some [mkSelection (mkPosition 0 1) (mkPosition 0 1)])
           (mkEditor 1 0 [mkSelection (mkPosition 0 2) (mkPosition 0 2)])
           (Examples.controller (Examples.openDocument [Examples.rule "->"] ["a -> b"]))
           Hrefl).
  right. vm_compute. discriminate.
Defined.

(** ** What [parsePretty] leaves untouched *)

Lemma sameRules_refl (a : PrettyDocumentController) : sameRules a a.
Proof. unfold sameRules. split_all; reflexivity. Qed.

Lemma sameRules_trans (a b c : PrettyDocumentController) :
  sameRules a b -> sameRules b c -> sameRules a c.
Proof.
  unfold sameRules.
  intros (H1 & H2 & H3 & H4 & H5 & H6 & H7 & H8 & H9 & H10)
         (K1 & K2 & K3 & K4 & K5 & K6 & K7 & K8 & K9 & K10).
  split_all; congruence.
Qed.

Lemma sameButLastIndex_sameRules (a b : PrettyDocumentController) :
  sameButLastIndex a b -> sameRules a b.
Proof. intros H. rewrite H. unfold sameRules. split_all; reflexivity. Qed.

Lemma zipRanges_rules (f : DisjointRangeSet -> DisjointRangeSet -> DisjointRangeSet)
      (l : list PrettySubstitution) :
  forall news : list DisjointRangeSet,
    map ugly (zipRanges f l news) = map ugly l
    /\ map pretty (zipRanges f l news) = map pretty l.
Proof.
  induction l as [|p l IH]; intros [|n news]; simpl; auto.
  destruct (IH news) as [H1 H2]. rewrite H1, H2. auto.
Qed.

Lemma set_ranges_rules (g : PrettySubstitution -> DisjointRangeSet)
      (l : list PrettySubstitution) :
  map ugly (map (fun subst => set_ranges subst (g subst)) l) = map ugly l
  /\ map pretty (map (fun subst => set_ranges subst (g subst)) l) = map pretty l.
Proof. rewrite !map_map. simpl. auto. Qed.

Lemma mergeFresh_sameRules (range : Range) (startCharacter : nat) (fresh : Fresh)
      (this : PrettyDocumentController) :
  sameRules this (snd (mergeFresh range startCharacter fresh this))
  /\ (changedUglies this = true ->
      changedUglies (snd (mergeFresh range startCharacter fresh this)) = true).
Proof.
  unfold mergeFresh.
  destruct (isBefore (end_ range) (getEnd (newUglyRanges fresh)));
    destruct (negb (isEmpty (newUglyRanges fresh))); simpl;
    (split; [|auto]); unfold sameRules; simpl;
    match goal with
    | |- context [zipRanges ?f ?l ?n] => destruct (zipRanges_rules f l n) as [-> ->]
    end;
    rewrite ?map_map; simpl; split_all; reflexivity.
Qed.

Lemma parsePretty_frame (range : Range) (this : PrettyDocumentController) :
  match parsePretty range this with
  | Normal _ this' =>
      sameRules this this'
      /\ (changedUglies this = true -> changedUglies this' = true)
  | Throw _ this' => sameButLastIndex this this'
  | Hang => True
  end.
Proof.
  unfold parsePretty.
  destruct (List.length (prettyDecorations this) =? 0);
    [split; [apply sameRules_refl | auto]|].
  set (r := validateRange (document this) range).
  set (this0 := set_uglyAll_lastIndex this (resumeCharacter r this)).
  pose proof (scanRange_framed r this0) as Hf.
  destruct (scanRange r this0) as [fresh this1|e this1|]; simpl in Hf; auto.
  - match goal with
    | |- context [mergeFresh ?a ?b ?c ?d] =>
        pose proof (mergeFresh_sameRules a b c d) as [Hm Hc];
        destruct (mergeFresh a b c d) as [reparsed this2]
    end.
    simpl in Hm, Hc.
    assert (H01 : sameButLastIndex this this1).
    { eapply sameButLastIndex_trans; [apply sameButLastIndex_set | exact Hf]. }
    split.
    + eapply sameRules_trans; [apply sameButLastIndex_sameRules; exact H01 | exact Hm].
    + intros Hch. apply Hc. rewrite H01. exact Hch.
Qed.

(** X7.  [parsePretty] writes the indices, the flag [changedUglies] and the
    [lastIndex] of the combined expression, and nothing else: the document,
    the rules and their expressions, the console and the timers are as they
    were.  It never takes the flag [changedUglies] back.  When it leaves with
    an exception it has written nothing but [lastIndex]: the indices are those
    of before the call, without any of the matches found so far. *)
Theorem parsePretty_touches_indices_only :
  forall (range : Range) (this : PrettyDocumentController),
    match parsePretty range this with
    | Normal _ this' =>
        sameRules this this'
        /\ (changedUglies this = true -> changedUglies this' = true)
    | Throw _ this' => sameButLastIndex this this'
    | Hang => True
    end.
Proof. exact parsePretty_frame. Qed.

(** ** The range that [parsePretty] returns *)

Lemma mergeFresh_end (range : Range) (startCharacter : nat) (fresh : Fresh)
      (this : PrettyDocumentController) :
  isBeforeOrEqual (start range) (end_ range) = true ->
  startCharacter <= character (start range) ->
  isBeforeOrEqual (end_ range)
                  (end_ (fst (mergeFresh range startCharacter fresh this))) = true.
Proof.
  intros Hord Hle. unfold mergeFresh.
  destruct (negb (isEmpty (newUglyRanges fresh))); simpl.
  - rewrite newRange_ordered.
    + simpl. unfold maxPosition.
      destruct (isBefore (end_ range) (getEnd (newUglyRanges fresh))) eqn:E.
      * unfold isBeforeOrEqual. rewrite E. reflexivity.
      * apply isBeforeOrEqual_refl.
    + unfold maxPosition, with_character.
      destruct (isBefore (end_ range) (getEnd (newUglyRanges fresh))) eqn:E; pos_bool.
  - rewrite newRange_ordered; [apply isBeforeOrEqual_refl|].
    unfold with_character. pos_bool.
Qed.

(** X8.  With rules, the range that [parsePretty] returns covers the validated
    range it was asked to parse: it starts on the same line at or before the
    start of that range and ends at or after its end. *)
Theorem parsePretty_covers_range :
  forall (range reparsed : Range) (this this' : PrettyDocumentController),
    prettyDecorations this <> [] ->
    parsePretty range this = Normal reparsed this' ->
    let r := validateRange (document this) range in
    line (start reparsed) = line (start r)
    /\ isBeforeOrEqual (start reparsed) (start r) = true
    /\ isBeforeOrEqual (end_ r) (end_ reparsed) = true.
Proof.
  intros range reparsed this this' Hrules Hp r.
  destruct (parsePretty_with_rules range reparsed this this' Hrules Hp)
    as (fresh & this1 & _ & _ & Hm).
  fold r in Hm.
  pose proof (validateRange_ordered (document this) range) as Hord. fold r in Hord.
  pose proof (resumeCharacter_le r this) as Hle.
  pose proof (mergeFresh_start r (resumeCharacter r this) fresh this1 Hord Hle) as Hs.
  pose proof (mergeFresh_end r (resumeCharacter r this) fresh this1 Hord Hle) as He.
  rewrite Hm in Hs, He. simpl in Hs, He.
  rewrite Hs. split; [reflexivity|]. split; [|exact He]. pos_bool.
Qed.

(** The rule [->] on the line [a -> b], of which the columns 3 to 4 are
    parsed again: the scan resumes at column 0 and runs past the match. *)
Lemma parsePretty_covers_range_witness :
  let this := Examples.controller (Examples.openDocument [Examples.rule "->"] ["a -> b"]) in
  let range := Examples.rangeOf 0 3 0 4 in
  let reparsed := Examples.rangeOf 0 0 0 4 in
  let this' := Examples.controller (parsePretty range this) in
  prettyDecorations this <> []
  /\ parsePretty range this = Normal reparsed this'
  /\ line (start reparsed) = line (start (validateRange (document this) range))
  /\ isBeforeOrEqual (start reparsed) (start (validateRange (document this) range)) = true
  /\ isBeforeOrEqual (end_ (validateRange (document this) range)) (end_ reparsed) = true.
Proof.
  cbv zeta.
  assert (Hrules : prettyDecorations
            (Examples.controller (Examples.openDocument [Examples.rule "->"] ["a -> b"]))
            <> []) by (vm_compute; discriminate).
  assert (Hp : parsePretty (Examples.rangeOf 0 3 0 4)
                 (Examples.controller (Examples.openDocument [Examples.rule "->"] ["a -> b"]))
               = Normal (Examples.rangeOf 0 0 0 4)
                   (Examples.controller
                      (parsePretty (Examples.rangeOf 0 3 0 4)
                         (Examples.controller
                            (Examples.openDocument [Examples.rule "->"] ["a -> b"])))))
    by (vm_compute; reflexivity).
  split; [exact Hrules|]. split; [exact Hp|].
  exact (parsePretty_covers_range _ _ _ _ Hrules Hp).
Defined.

(** ** The exceptions of [parsePretty] *)

Lemma sameButLastIndex_document (a b : PrettyDocumentController) :
  sameButLastIndex a b -> document b = document a.
Proof. intros H. rewrite H. reflexivity. Qed.

Lemma getUglyFromMatch_throws (m : RegExpExecArray) (ln : nat)
      (this this' : PrettyDocumentController) (e : string) :
  getUglyFromMatch m ln this = Throw e this' -> e = "illegal argument".
Proof.
  unfold getUglyFromMatch.
  destruct (_ <=? 1); [discriminate|].
  destruct (_ <? 0)%Z; [|discriminate].
  intros H. injection H as <- _. reflexivity.
Qed.

Lemma scanLine_throws (fuel : nat) (text : string) (idx : nat) :
  forall (this this' : PrettyDocumentController) (fresh : Fresh) (e : string),
    scanLine fuel text idx this fresh = Throw e this' ->
    e = "TypeError" \/ e = "illegal argument".
Proof.
  induction fuel as [|fuel IH]; intros this this' fresh e; simpl; [discriminate|].
  destruct (exec (uglyAll this) text) as [[m|] re]; [|discriminate].
  destruct (getUglyFromMatch m idx (set_uglyAll this re)) as [[ugly|] this1|e1 this1|] eqn:Eg;
    try discriminate.
  - destruct (nth_error _ _).
    + destruct (_ <=? _); [discriminate|]. apply IH.
    + intros H. injection H as <- _. left. reflexivity.
  - destruct (_ <=? _); [discriminate|]. apply IH.
  - intros H. injection H as <- _. right.
    apply (getUglyFromMatch_throws _ _ _ _ _ Eg).
Qed.

Lemma scanLines_throws (n : nat) :
  forall (idx : nat) (this this' : PrettyDocumentController) (fresh : Fresh) (e : string),
    idx + n <= lineCount (document this) ->
    scanLines n idx this fresh = Throw e this' ->
    e = "TypeError" \/ e = "illegal argument".
Proof.
  induction n as [|n IH]; intros idx this this' fresh e Hb; simpl; [discriminate|].
  unfold lineAt. destruct (nth_error (lines (document this)) idx) as [text|] eqn:El.
  - pose proof (scanLine_framed (String.length text + 2) text idx this fresh) as Hf.
    destruct (scanLine (String.length text + 2) text idx this fresh)
      as [fresh1 this1|e1 this1|] eqn:Es; try discriminate.
    + simpl in Hf. apply IH. simpl.
      rewrite (sameButLastIndex_document _ _ Hf). lia.
    + intros H. injection H as <- _. apply (scanLine_throws _ _ _ _ _ _ _ Es).
  - apply nth_error_None in El. unfold lineCount in Hb. lia.
Qed.

Lemma scanLastLine_returns (fuel : nat) (text : string) (ln : nat) :
  forall (this this' : PrettyDocumentController) (pre : list Range) (fresh : Fresh)
         (e : string),
    scanLastLine fuel text ln this pre fresh <> Throw e this'.
Proof.
  induction fuel as [|fuel IH]; intros this this' pre fresh e; simpl; [discriminate|].
  destruct (exec (uglyAll this) text) as [[m|] re]; [|discriminate].
  destruct (getUglyFromMatch m ln (set_uglyAll this re)) as [[ugly|] this1|e1 this1|];
    try discriminate.
  - destruct (match pre with [] => false | p :: _ => isEqual p (range ugly) end);
      [discriminate|].
    destruct (_ && _); [discriminate|]. apply IH.
  - destruct (_ <=? _); [discriminate|]. apply IH.
  - destruct (_ <=? _); [discriminate|]. apply IH.
Qed.

Lemma validatePosition_line (d : TextDocument) (p : Position) :
  lines d <> [] ->
  line (validatePosition d p) < lineCount d
  /\ line (validatePosition d p)
     = if lineCount d <=? line p then lineCount d - 1 else line p.
Proof.
  intros Hne. unfold validatePosition, lineCount.
  destruct (lines d) as [|l ls]; [contradiction|]. simpl List.length.
  destruct (S (List.length ls) <=? line p) eqn:E; simpl; split; try reflexivity; try lia.
  apply Nat.leb_gt in E. lia.
Qed.

Lemma validateRange_lines (d : TextDocument) (range : Range) :
  lines d <> [] ->
  line (start (validateRange d range)) < lineCount d
  /\ line (end_ (validateRange d range)) < lineCount d
  /\ (line (start range) = line (end_ range) ->
      line (start (validateRange d range)) = line (end_ (validateRange d range))).
Proof.
  intros Hne.
  destruct (validatePosition_line d (start range) Hne) as [Hs Hs'].
  destruct (validatePosition_line d (end_ range) Hne) as [He He'].
  unfold validateRange, newRange.
  destruct (isBefore _ _); simpl; split_all; auto; intros Heq; rewrite Hs', He', Heq;
    reflexivity.
Qed.

Lemma scanRange_throws (range : Range) (this this' : PrettyDocumentController) (e : string) :
  line (start range) < lineCount (document this) ->
  line (end_ range) < lineCount (document this) ->
  scanRange range this = Throw e this' ->
  (e = "TypeError" \/ e = "illegal argument")
  /\ line (start range) <> line (end_ range).
Proof.
  intros Hs He. unfold scanRange.
  set (fresh0 := mkFresh empty (map (fun _ => empty) (prettyDecorations this))).
  pose proof (scanLines_framed (line (end_ range) - line (start range))
                (line (start range)) this fresh0) as Hf.
  destruct (scanLines (line (end_ range) - line (start range)) (line (start range))
                      this fresh0) as [fresh this1|e1 this1|] eqn:E1.
  - simpl in Hf. unfold lineAt.
    destruct (nth_error (lines (document this1)) (line (end_ range))) as [text|] eqn:El.
    + match goal with
      | |- context [scanLastLine ?f ?t ?l ?c ?p ?fr] =>
          pose proof (fun e' t' => scanLastLine_returns f t l c t' p fr e') as Hr;
          destruct (scanLastLine f t l c p fr) as [[fresh' pre'] this2|e2 this2|]
      end; try discriminate.
      exfalso. apply (Hr e2 this2). reflexivity.
    + apply nth_error_None in El.
      rewrite (sameButLastIndex_document _ _ Hf) in El. unfold lineCount in He. lia.
  - intros H. injection H as <- _. split.
    + assert (Hb : line (start range) + (line (end_ range) - line (start range))
                   <= lineCount (document this)) by lia.
      apply (scanLines_throws _ _ _ _ _ _ Hb E1).
    + intros Heq. rewrite Heq, Nat.sub_diag in E1. discriminate.
  - discriminate.
Qed.

Lemma parsePretty_throws (range : Range) (this this' : PrettyDocumentController)
      (e : string) :
  lines (document this) <> [] ->
  parsePretty range this = Throw e this' ->
  (e = "TypeError" \/ e = "illegal argument")
  /\ line (start (validateRange (document this) range))
     < line (end_ (validateRange (document this) range)).
Proof.
  intros Hne. unfold parsePretty.
  destruct (List.length (prettyDecorations this) =? 0); [discriminate|].
  set (r := validateRange (document this) range).
  set (this0 := set_uglyAll_lastIndex this (resumeCharacter r this)).
  destruct (validateRange_lines (document this) range Hne) as (Hs & He & _).
  fold r in Hs, He.
  pose proof (validateRange_ordered (document this) range) as Hord. fold r in Hord.
  destruct (scanRange r this0) as [fresh this1|e1 this1|] eqn:E.
  - destruct (mergeFresh _ _ _ _). discriminate.
  - intros H. injection H as <- _.
    destruct (scanRange_throws r this0 this1 e1 Hs He E) as [H1 H2].
    split; [exact H1|]. pos_bool.
  - discriminate.
Qed.

(** X9.  Every line that [parsePretty] reads is a line of the document: on a
    document with at least one line the host's [lineAt] never refuses a line
    number, whatever range is given.  The exceptions with which [parsePretty]
    can leave are the [TypeError] of a match that names no rule and the host's
    refusal of a negative column, and both come from the lines before the last
    line of the range only: a range within one line is parsed without an
    exception. *)
Theorem parsePretty_reads_lines_of_document :
  forall (range : Range) (this this' : PrettyDocumentController) (e : string),
    lines (document this) <> [] ->
    parsePretty range this = Throw e this' ->
    (e = "TypeError" \/ e = "illegal argument")
    /\ line (start (validateRange (document this) range))
       < line (end_ (validateRange (document this) range)).
Proof. exact parsePretty_throws. Qed.

(** The rule [a(b)] has a group of its own: on the first of two lines its
    match names a rule that does not exist, and the scan of the document
    leaves with the [TypeError]. *)
Lemma parsePretty_reads_lines_of_document_witness :
  let this :=
    Examples.controller
      (loadDecorations MiniRegExp.compile
         (mkController (mkDocument ["ab"; "x"]) [] [Examples.rule "a(b)"] emptyRegExp
                       empty false false false 0 [])) in
  let this' := Examples.controller (parsePretty (docRange this) this) in
  lines (document this) <> []
  /\ parsePretty (docRange this) this = Throw "TypeError" this'
  /\ ("TypeError" = "TypeError" \/ "TypeError" = "illegal argument")
  /\ line (start (validateRange (document this) (docRange this)))
     < line (end_ (validateRange (document this) (docRange this))).
Proof.
  cbv zeta.
  set (this := Examples.controller
                 (loadDecorations MiniRegExp.compile
                    (mkController (mkDocument ["ab"; "x"]) [] [Examples.rule "a(b)"]
                                  emptyRegExp empty false false false 0 []))).
  assert (Hne : lines (document this) <> []) by (vm_compute; discriminate).
  assert (Hp : parsePretty (docRange this) this
               = Throw "TypeError" (Examples.controller (parsePretty (docRange this) this)))
    by (vm_compute; reflexivity).
  split; [exact Hne|]. split; [exact Hp|].
  exact (parsePretty_reads_lines_of_document _ _ _ _ Hne Hp).
Defined.

(** ** Change events that change no match *)

Lemma onChange_without_rules (this : PrettyDocumentController)
      (change : vscode.TextDocumentContentChangeEvent) :
  prettyDecorations this = [] ->
  uglyDecorationRanges this = [] ->
  onChange this change = Normal tt this.
Proof.
  intros Hr Hu. destruct this as [d pd ps re u ch t ta n con]. simpl in Hr, Hu. subst pd u.
  reflexivity.
Qed.

(** X13.  A controller without a compiled rule and with an empty index stays
    so: a change event, whatever its changes, only clears the flag
    [changedUglies] and calls [applyDecorations]; nothing is scanned, nothing
    is reported on the console, and the index stays empty. *)
Theorem onChangeDocument_without_rules :
  forall (event : vscode.TextDocumentChangeEvent) (this : PrettyDocumentController),
    prettyDecorations this = [] ->
    uglyDecorationRanges this = [] ->
    onChangeDocument event this
    = Normal tt (applyDecorations (set_changedUglies this false)).
Proof.
  intros event this Hr Hu. unfold onChangeDocument.
  assert (H : forall changes, onChanges (set_changedUglies this false) changes
                              = Normal tt (set_changedUglies this false)).
  { induction changes as [|change rest IH]; simpl; [reflexivity|].
    rewrite onChange_without_rules by assumption. exact IH. }
  rewrite H. rewrite Bool.orb_true_r. reflexivity.
Qed.

(** The only configured rule does not compile; two changes arrive in one
    event. *)
Lemma onChangeDocument_without_rules_witness :
  let this := Examples.controller (Examples.openDocument [Examples.rule "("] ["a -> b"]) in
  let event :=
    vscode.mkChangeEvent (mkDocument ["a -> bxy"])
      [Examples.change 0 6 0 6 "x"; Examples.change 0 7 0 7 "y"] in
  prettyDecorations this = []
  /\ uglyDecorationRanges this = []
  /\ onChangeDocument event this
     = Normal tt (applyDecorations (set_changedUglies this false)).
Proof.
  cbv zeta. split; [reflexivity|]. split; [reflexivity|].
  apply onChangeDocument_without_rules; reflexivity.
Defined.

Lemma filter_none {A : Type} (f : A -> bool) (l : list A) :
  filter f l = [] -> filter (fun x => negb (f x)) l = l.
Proof.
  induction l as [|x l IH]; simpl; [reflexivity|].
  destruct (f x); simpl; [discriminate|]. intros H. rewrite IH by exact H. reflexivity.
Qed.

Lemma isBefore_origin (p : Position) : isBefore p (mkPosition 0 0) = false.
Proof. pos_bool. Qed.

(** A merge that does not set [changedUglies] had no fresh match and leaves
    the aggregate index as it was. *)
Lemma mergeFresh_unchanged (range : Range) (startCharacter : nat) (fresh : Fresh)
      (this : PrettyDocumentController) :
  changedUglies (snd (mergeFresh range startCharacter fresh this)) = false ->
  uglyDecorationRanges (snd (mergeFresh range startCharacter fresh this))
  = uglyDecorationRanges this.
Proof.
  unfold mergeFresh.
  destruct (newUglyRanges fresh) as [|x l] eqn:E.
  - unfold getEnd. simpl last. rewrite isBefore_origin. simpl. reflexivity.
  - simpl isEmpty. cbn [negb]. simpl. discriminate.
Qed.

Lemma parsePretty_unchanged (range : Range) (this : PrettyDocumentController) :
  match parsePretty range this with
  | Normal _ this' =>
      changedUglies this' = false ->
      uglyDecorationRanges this' = uglyDecorationRanges this
  | Throw _ this' =>
      uglyDecorationRanges this' = uglyDecorationRanges this
      /\ changedUglies this' = changedUglies this
  | Hang => True
  end.
Proof.
  unfold parsePretty.
  destruct (List.length (prettyDecorations this) =? 0); [reflexivity|].
  set (r := validateRange (document this) range).
  set (this0 := set_uglyAll_lastIndex this (resumeCharacter r this)).
  pose proof (scanRange_framed r this0) as Hf.
  destruct (scanRange r this0) as [fresh this1|e this1|]; simpl in Hf; auto.
  - match goal with
    | |- context [mergeFresh ?a ?b ?c ?d] =>
        pose proof (mergeFresh_unchanged a b c d) as Hm;
        destruct (mergeFresh a b c d) as [reparsed this2]
    end.
    simpl in Hm. intros Hch. rewrite (Hm Hch). rewrite Hf. reflexivity.
  - rewrite Hf. split; reflexivity.
Qed.

Lemma onChange_unchanged (this this' : PrettyDocumentController)
      (change : vscode.TextDocumentContentChangeEvent) :
  onChange this change = Normal tt this' ->
  changedUglies this' = false ->
  changedUglies this = false
  /\ uglyDecorationRanges this'
     = shiftRangeDelta (toRangeDelta (vscode.range change) (vscode.text change))
                       (uglyDecorationRanges this).
Proof.
  unfold onChange, removeOverlapping.
  set (delta := toRangeDelta (vscode.range change) (vscode.text change)).
  set (removed := filter (overlaps true true (vscode.range change)) (uglyDecorationRanges this)).
  set (kept := filter (fun r => negb (overlaps true true (vscode.range change) r))
                      (uglyDecorationRanges this)).
  set (this1 := set_uglyDecorationRanges this (shiftRangeDelta delta kept)).
  set (this2 := if 0 <? List.length removed then set_changedUglies this1 true else this1).
  set (this3 := set_prettyDecorations this2 _).
  assert (Hkey : changedUglies this3 = false ->
                 changedUglies this = false
                 /\ uglyDecorationRanges this3
                    = shiftRangeDelta delta (uglyDecorationRanges this)).
  { subst this3 this2 this1. destruct removed as [|x l] eqn:E; simpl.
    - intros H. split; [exact H|]. subst kept.
      rewrite (filter_none _ _ E). reflexivity.
    - discriminate. }
  pose proof (parsePretty_frame (rangeDeltaNewRange delta) this3) as Hfr.
  pose proof (parsePretty_unchanged (rangeDeltaNewRange delta) this3) as Hun.
  destruct (parsePretty (rangeDeltaNewRange delta) this3) as [rp this4|e this4|];
    try discriminate.
  - intros H Hch. apply Normal_controller in H. subst this4.
    destruct Hfr as [_ Hmono].
    assert (H3 : changedUglies this3 = false).
    { destruct (changedUglies this3); [|reflexivity]. rewrite Hmono in Hch by reflexivity.
      discriminate. }
    destruct (Hkey H3) as [H0 Hs]. split; [exact H0|]. rewrite (Hun Hch). exact Hs.
  - intros H Hch. apply Normal_controller in H. subst this'.
    destruct Hun as [Hu Hc]. simpl in Hch |- *. rewrite Hc in Hch.
    destruct (Hkey Hch) as [H0 Hs]. split; [exact H0|]. rewrite Hu. exact Hs.
Qed.

Lemma onChanges_not_changed (changes : list vscode.TextDocumentContentChangeEvent) :
  forall this this' : PrettyDocumentController,
    onChanges this changes = Normal tt this' ->
    changedUglies this' = false ->
    changedUglies this = false.
Proof.
  induction changes as [|change rest IH]; intros this this' H Hch; simpl in H.
  - apply Normal_controller in H. congruence.
  - destruct (onChange this change) as [[] this1|e this1|] eqn:E; try discriminate.
    pose proof (IH this1 this' H Hch) as H1.
    apply (onChange_unchanged this this1 change E H1).
Qed.

Lemma onChanges_unchanged (changes : list vscode.TextDocumentContentChangeEvent) :
  forall this this' : PrettyDocumentController,
    onChanges this changes = Normal tt this' ->
    changedUglies this' = false ->
    uglyDecorationRanges this' = shiftedBy changes (uglyDecorationRanges this).
Proof.
  induction changes as [|change rest IH]; intros this this' H Hch; simpl in H.
  - apply Normal_controller in H. subst this'. reflexivity.
  - destruct (onChange this change) as [[] this1|e this1|] eqn:E; try discriminate.
    pose proof (IH this1 this' H Hch) as Hrest.
    pose proof (onChanges_not_changed rest this1 this' H Hch) as H1.
    destruct (onChange_unchanged this this1 change E H1) as [_ Hs].
    unfold shiftedBy in *. simpl. rewrite <- Hs. exact Hrest.
Qed.

(** X14.  When [onChangeDocument] returns with [changedUglies] still false, no
    match was removed from the aggregate index and none was added to it: the
    index is the one of before the event, moved by each change in turn. *)
Theorem onChangeDocument_unchanged_uglies :
  forall (event : vscode.TextDocumentChangeEvent) (this this' : PrettyDocumentController),
    onChangeDocument event this = Normal tt this' ->
    changedUglies this' = false ->
    uglyDecorationRanges this'
    = shiftedBy (vscode.contentChanges event) (uglyDecorationRanges this).
Proof.
  intros event this this' H Hch. unfold onChangeDocument in H.
  destruct (onChanges (set_changedUglies this false) (vscode.contentChanges event))
    as [[] this1|e this1|] eqn:E; try discriminate.
  rewrite Bool.orb_true_r in H. apply Normal_controller in H. subst this'.
  simpl in Hch |- *.
  apply (onChanges_unchanged _ _ _ E Hch).
Qed.

(** The rule [->] on the line [a -> b]; the host puts [z] in front of the
    line.  The match moves from the columns 2 to 4 to the columns 3 to 5. *)
Lemma onChangeDocument_unchanged_uglies_witness :
  let this := Examples.controller (Examples.openDocument [Examples.rule "->"] ["a -> b"]) in
  let event := vscode.mkChangeEvent (mkDocument ["za -> b"]) [Examples.change 0 0 0 0 "z"] in
  let this' := Examples.controller (onDidChangeTextDocument event this) in
  onChangeDocument event (set_document this (vscode.document event)) = Normal tt this'
  /\ changedUglies this' = false
  /\ uglyDecorationRanges this = [Examples.rangeOf 0 2 0 4]
  /\ uglyDecorationRanges this' = [Examples.rangeOf 0 3 0 5].
Proof.
  cbv zeta.
  set (this := Examples.controller (Examples.openDocument [Examples.rule "->"] ["a -> b"])).
  set (event := vscode.mkChangeEvent (mkDocument ["za -> b"]) [Examples.change 0 0 0 0 "z"]).
  assert (H : onChangeDocument event (set_document this (vscode.document event))
              = Normal tt (Examples.controller (onDidChangeTextDocument event this)))
    by (vm_compute; reflexivity).
  assert (Hch : changedUglies (Examples.controller (onDidChangeTextDocument event this))
                = false) by (vm_compute; reflexivity).
  split; [exact H|]. split; [exact Hch|]. split; [reflexivity|].
  rewrite (onChangeDocument_unchanged_uglies _ _ _ H Hch). vm_compute. reflexivity.
Defined.

(** ** What a scan depends on

    The scanning loops read the document, the combined expression, the
    number of the rules and the aggregate index, and nothing else of the
    controller. *)

Lemma getUglyFromMatch_withRest (src : PrettyDocumentController) (m : RegExpExecArray)
      (ln : nat) (this : PrettyDocumentController) :
  getUglyFromMatch m ln (withRest src this)
  = mapCompletion (withRest src) (getUglyFromMatch m ln this).
Proof.
  unfold getUglyFromMatch.
  destruct (_ <=? 1); [reflexivity|].
  destruct (_ <? 0)%Z; reflexivity.
Qed.

Lemma scanLine_withRest (src : PrettyDocumentController) (text : string) (idx : nat)
      (fuel : nat) :
  forall (this : PrettyDocumentController) (fresh : Fresh),
    scanLine fuel text idx (withRest src this) fresh
    = mapCompletion (withRest src) (scanLine fuel text idx this fresh).
Proof.
  induction fuel as [|fuel IH]; intros this fresh; [reflexivity|].
  cbn [scanLine]. change (uglyAll (withRest src this)) with (uglyAll this).
  destruct (exec (uglyAll this) text) as [[m|] re]; [|reflexivity].
  change (set_uglyAll (withRest src this) re) with (withRest src (set_uglyAll this re)).
  rewrite getUglyFromMatch_withRest.
  destruct (getUglyFromMatch m idx (set_uglyAll this re)) as [[ugly|] this'|e this'|];
    cbn [mapCompletion]; try reflexivity;
    change (uglyAll (withRest src this')) with (uglyAll this').
  - destruct (nth_error _ _); [|reflexivity].
    destruct (_ <=? _); [reflexivity | apply IH].
  - destruct (_ <=? _); [reflexivity | apply IH].
Qed.

Lemma scanLines_withRest (src : PrettyDocumentController) (n : nat) :
  forall (idx : nat) (this : PrettyDocumentController) (fresh : Fresh),
    scanLines n idx (withRest src this) fresh
    = mapCompletion (withRest src) (scanLines n idx this fresh).
Proof.
  induction n as [|n IH]; intros idx this fresh; [reflexivity|].
  cbn [scanLines]. change (document (withRest src this)) with (document this).
  destruct (lineAt (document this) idx) as [text|]; [|reflexivity].
  rewrite scanLine_withRest.
  destruct (scanLine (String.length text + 2) text idx this fresh)
    as [fresh' this'|e this'|]; cbn [mapCompletion]; try reflexivity.
  change (set_uglyAll_lastIndex (withRest src this') 0)
    with (withRest src (set_uglyAll_lastIndex this' 0)).
  apply IH.
Qed.

Lemma scanLastLine_withRest (src : PrettyDocumentController) (text : string) (ln : nat)
      (fuel : nat) :
  forall (this : PrettyDocumentController) (pre : list Range) (fresh : Fresh),
    scanLastLine fuel text ln (withRest src this) pre fresh
    = mapCompletion (withRest src) (scanLastLine fuel text ln this pre fresh).
Proof.
  induction fuel as [|fuel IH]; intros this pre fresh; [reflexivity|].
  cbn [scanLastLine]. change (uglyAll (withRest src this)) with (uglyAll this).
  destruct (exec (uglyAll this) text) as [[m|] re]; [|reflexivity].
  change (set_uglyAll (withRest src this) re) with (withRest src (set_uglyAll this re)).
  rewrite getUglyFromMatch_withRest.
  destruct (getUglyFromMatch m ln (set_uglyAll this re)) as [[ugly|] this'|e this'|];
    cbn [mapCompletion]; try reflexivity;
    change (uglyAll (withRest src this')) with (uglyAll this').
  - destruct (match pre with [] => false | p :: _ => isEqual p (range ugly) end);
      [reflexivity|].
    destruct (_ && _); [reflexivity | apply IH].
  - destruct (_ <=? _); [reflexivity | apply IH].
  - destruct (_ <=? _); [reflexivity | apply IH].
Qed.

Lemma scanRange_withRest (src : PrettyDocumentController) (range : Range)
      (this : PrettyDocumentController) :
  scanRange range (withRest src this)
  = mapCompletion (withRest src) (scanRange range this).
Proof.
  unfold scanRange.
  change (prettyDecorations (withRest src this)) with (prettyDecorations this).
  rewrite scanLines_withRest.
  destruct (scanLines _ _ this _) as [fresh this1|e this1|]; cbn [mapCompletion];
    try reflexivity.
  change (document (withRest src this1)) with (document this1).
  destruct (lineAt (document this1) (line (end_ range))) as [text|]; [|reflexivity].
  change (uglyDecorationRanges (withRest src this1)) with (uglyDecorationRanges this1).
  rewrite scanLastLine_withRest.
  destruct (scanLastLine _ text _ this1 _ fresh) as [[fresh' pre'] this2|e this2|];
    reflexivity.
Qed.

Lemma mergeFresh_withRest (src : PrettyDocumentController) (range : Range)
      (startCharacter : nat) (fresh : Fresh) (this : PrettyDocumentController) :
  fst (mergeFresh range startCharacter fresh (withRest src this))
  = fst (mergeFresh range startCharacter fresh this)
  /\ indices (snd (mergeFresh range startCharacter fresh (withRest src this)))
     = indices (snd (mergeFresh range startCharacter fresh this)).
Proof.
  unfold mergeFresh.
  destruct (isBefore (end_ range) (getEnd (newUglyRanges fresh)));
    destruct (negb (isEmpty (newUglyRanges fresh))); split; reflexivity.
Qed.

(** Two controllers with the same document, rules, aggregate index and
    combined expression parse a range alike, whatever their flags, their
    console and the [lastIndex] that earlier scans have left. *)
Lemma parsePretty_alike (range : Range) (a b : PrettyDocumentController) :
  document a = document b ->
  prettyDecorations a = prettyDecorations b ->
  uglyDecorationRanges a = uglyDecorationRanges b ->
  source (uglyAll a) = source (uglyAll b) ->
  matcher (uglyAll a) = matcher (uglyAll b) ->
  alike (parsePretty range b) (parsePretty range a).
Proof.
  intros Hd Hp Hu Hs Hm.
  assert (Hkey : forall c, set_uglyAll_lastIndex b c
                           = withRest b (set_uglyAll_lastIndex a c)).
  { intros c. destruct a as [d pd ps [s i m] u ch t ta n con].
    destruct b as [d' pd' ps' [s' i' m'] u' ch' t' ta' n' con'].
    simpl in *. subst. reflexivity. }
  unfold parsePretty. rewrite <- Hp.
  destruct (List.length (prettyDecorations a) =? 0).
  - simpl. split; [reflexivity|]. unfold indices. rewrite Hp, Hu. reflexivity.
  - rewrite <- Hd.
    set (r := validateRange (document a) range).
    assert (Hc : resumeCharacter r b = resumeCharacter r a)
      by (unfold resumeCharacter; rewrite Hu; reflexivity).
    rewrite Hc, Hkey, scanRange_withRest.
    destruct (scanRange r (set_uglyAll_lastIndex a (resumeCharacter r a)))
      as [fresh this1|e this1|]; cbn [mapCompletion]; simpl lastIndex.
    + pose proof (mergeFresh_withRest b r (resumeCharacter r a) fresh this1) as [H1 H2].
      destruct (mergeFresh r (resumeCharacter r a) fresh (withRest b this1)) as [rp1 t1].
      destruct (mergeFresh r (resumeCharacter r a) fresh this1) as [rp2 t2].
      simpl in *. auto.
    + reflexivity.
    + exact I.
Qed.

Lemma map_clear_rules (l : list PrettySubstitution) :
  forall l' : list PrettySubstitution,
    map ugly l = map ugly l' ->
    map pretty l = map pretty l' ->
    map (fun subst => set_ranges subst empty) l
    = map (fun subst => set_ranges subst empty) l'.
Proof.
  induction l as [|p l IH]; intros [|p' l'] Hu Hp; simpl in *; try discriminate; auto.
  injection Hu as Hu1 Hu. injection Hp as Hp1 Hp.
  rewrite (IH l' Hu Hp). unfold set_ranges at 1 3. rewrite Hu1, Hp1. reflexivity.
Qed.

(** What [refresh] computes depends on the document and the rules alone. *)
Lemma refresh_alike (a b : PrettyDocumentController) :
  document b = document a ->
  map ugly (prettyDecorations b) = map ugly (prettyDecorations a) ->
  map pretty (prettyDecorations b) = map pretty (prettyDecorations a) ->
  source (uglyAll b) = source (uglyAll a) ->
  matcher (uglyAll b) = matcher (uglyAll a) ->
  alike (refresh b) (refresh a).
Proof.
  intros Hd Hu Hp Hs Hm. unfold refresh. cbv zeta.
  set (ta := set_prettyDecorations (set_uglyDecorationRanges a empty)
               (map (fun subst => set_ranges subst empty)
                    (prettyDecorations (set_uglyDecorationRanges a empty)))).
  set (tb := set_prettyDecorations (set_uglyDecorationRanges b empty)
               (map (fun subst => set_ranges subst empty)
                    (prettyDecorations (set_uglyDecorationRanges b empty)))).
  assert (Hr : docRange tb = docRange ta)
    by (unfold docRange; subst ta tb; simpl; rewrite Hd; reflexivity).
  rewrite Hr.
  assert (Ha : alike (parsePretty (docRange ta) tb) (parsePretty (docRange ta) ta)).
  { apply parsePretty_alike; subst ta tb; simpl; auto.
    symmetry. apply map_clear_rules; assumption. }
  destruct (parsePretty (docRange ta) tb) as [r1 t1|e1 t1|];
    destruct (parsePretty (docRange ta) ta) as [r2 t2|e2 t2|];
    simpl in *; try contradiction; auto.
  destruct Ha as [_ Ha]. split; [reflexivity | exact Ha].
Qed.

(** [refresh] keeps the rules. *)
Lemma refresh_sameRules (this this' : PrettyDocumentController) :
  refresh this = Normal tt this' ->
  document this' = document this
  /\ map ugly (prettyDecorations this') = map ugly (prettyDecorations this)
  /\ map pretty (prettyDecorations this') = map pretty (prettyDecorations this)
  /\ source (uglyAll this') = source (uglyAll this)
  /\ matcher (uglyAll this') = matcher (uglyAll this).
Proof.
  unfold refresh.
  match goal with
  | |- context [parsePretty ?r ?t] =>
      pose proof (parsePretty_frame r t) as Hf;
      destruct (parsePretty r t) as [rp t1|e t1|]; try discriminate
  end.
  intros H. apply Normal_controller in H. subst this'.
  destruct Hf as [(Hd & _ & Hu & Hp & Hs & Hm & _) _]. simpl in *.
  rewrite !map_map in Hu, Hp. simpl in Hu, Hp.
  split_all; assumption.
Qed.

(** X16.  [refresh] is idempotent on the indices: what it computes does not
    depend on the indices, the flags or the [lastIndex] that it finds, so a
    second [refresh] ends as the first one did and gives the same aggregate
    index and the same index for every rule. *)
Theorem refresh_idempotent :
  forall this this1 : PrettyDocumentController,
    refresh this = Normal tt this1 ->
    exists this2 : PrettyDocumentController,
      refresh this1 = Normal tt this2 /\ indices this2 = indices this1.
Proof.
  intros this this1 H.
  destruct (refresh_sameRules this this1 H) as (Hd & Hu & Hp & Hs & Hm).
  pose proof (refresh_alike this this1 Hd Hu Hp Hs Hm) as Ha.
  rewrite H in Ha.
  destruct (refresh this1) as [[] this2|e this2|]; simpl in Ha; try contradiction.
  exists this2. split; [reflexivity|]. destruct Ha as [_ Ha]. exact Ha.
Qed.

(** The rule [->] on the line [a -> b]. *)
Lemma refresh_idempotent_witness :
  let this := Examples.controller (Examples.openDocument [Examples.rule "->"] ["a -> b"]) in
  let this1 := Examples.controller (refresh this) in
  refresh this = Normal tt this1
  /\ exists this2 : PrettyDocumentController,
       refresh this1 = Normal tt this2 /\ indices this2 = indices this1.
Proof.
  cbv zeta.
  assert (H : refresh (Examples.controller
                         (Examples.openDocument [Examples.rule "->"] ["a -> b"]))
              = Normal tt
                  (Examples.controller
                     (refresh (Examples.controller
                                 (Examples.openDocument [Examples.rule "->"] ["a -> b"])))))
    by (vm_compute; reflexivity).
  split; [exact H|].
  exact (refresh_idempotent _ _ H).
Defined.

(** X10.  [parsePretty] reads the document, the rules, the indices and the
    combined expression, and nothing else: two controllers that agree on these
    parse a range alike, with the same returned range and the same indices or
    with the same exception, whatever the flags, the console and the timers
    are and wherever an earlier scan has left [lastIndex]. *)
Theorem parsePretty_ignores_flags_and_lastIndex :
  forall (range : Range) (a b : PrettyDocumentController),
    document a = document b ->
    prettyDecorations a = prettyDecorations b ->
    uglyDecorationRanges a = uglyDecorationRanges b ->
    source (uglyAll a) = source (uglyAll b) ->
    matcher (uglyAll a) = matcher (uglyAll b) ->
    alike (parsePretty range b) (parsePretty range a).
Proof. intros range a b. apply parsePretty_alike. Qed.

(** The controller of the rule [->] on the line [a -> b], and the same
    controller with [lastIndex] at column 5, the flag [changedUglies] set and
    a message on the console. *)
Lemma parsePretty_ignores_flags_and_lastIndex_witness :
  let a := Examples.controller (Examples.openDocument [Examples.rule "->"] ["a -> b"]) in
  let b := log (set_changedUglies (set_uglyAll_lastIndex a 5) true) "message" in
  document a = document b
  /\ prettyDecorations a = prettyDecorations b
  /\ uglyDecorationRanges a = uglyDecorationRanges b
  /\ source (uglyAll a) = source (uglyAll b)
  /\ matcher (uglyAll a) = matcher (uglyAll b)
  /\ lastIndex (uglyAll a) <> lastIndex (uglyAll b)
  /\ alike (parsePretty (Examples.rangeOf 0 0 0 6) b) (parsePretty (Examples.rangeOf 0 0 0 6) a).
Proof.
  cbv zeta.
  remember (Examples.controller (Examples.openDocument [Examples.rule "->"] ["a -> b"]))
    as a eqn:Ea.
  split; [reflexivity|]. split; [reflexivity|]. split; [reflexivity|].
  split; [reflexivity|]. split; [reflexivity|]. split.
  - rewrite Ea. vm_compute. discriminate.
  - apply parsePretty_ignores_flags_and_lastIndex; reflexivity.
Defined.

(** ** [refresh] after the constructor *)

Section Reconstruction.

Variable RegExp_new : string -> option RegExp.

Lemma compiledRule_cleared (substs : list configuration.Substitution) :
  map (fun subst => set_ranges subst empty) (flat_map (compiledRule RegExp_new) substs)
  = flat_map (compiledRule RegExp_new) substs.
Proof.
  induction substs as [|s substs IH]; simpl; [reflexivity|].
  rewrite map_app, IH. unfold compiledRule at 1 3.
  destruct (RegExp_new (uglyStrOf s)); reflexivity.
Qed.

(** [loadDecorations] leaves every index empty. *)
Lemma loadDecorations_cleared (this this' : PrettyDocumentController) :
  loadDecorations RegExp_new this = Normal tt this' ->
  uglyDecorationRanges this' = empty
  /\ map (fun subst => set_ranges subst empty) (prettyDecorations this')
     = prettyDecorations this'.
Proof.
  unfold loadDecorations. cbv zeta. rewrite loadDecoration_fold.
  destruct (RegExp_new _) as [re|]; [|discriminate].
  intros H. apply Normal_controller in H. subst this'. simpl.
  split; [reflexivity | apply compiledRule_cleared].
Qed.

(** X3.  A [refresh] right after the constructor ends normally and computes
    the indices that the constructor has computed: the first scan of the
    document and the re-scan agree. *)
Theorem refresh_after_construct :
  forall (doc : TextDocument) (settings : configuration.LanguageEntry)
         (this : PrettyDocumentController),
    construct RegExp_new doc settings = Normal tt this ->
    exists this' : PrettyDocumentController,
      refresh this = Normal tt this' /\ indices this' = indices this.
Proof.
  intros doc settings this. unfold construct. cbv zeta.
  destruct (loadDecorations RegExp_new _) as [[] L|e L|] eqn:El; try discriminate.
  destruct (loadDecorations_cleared _ _ El) as [Hu Hp].
  pose proof (parsePretty_frame (docRange L) L) as Hf.
  destruct (parsePretty (docRange L) L) as [rp P|e P|] eqn:Ep; try discriminate.
  intros H. apply Normal_controller in H. subst this.
  destruct Hf as [(Hd & _ & Hug & Hpr & Hs & Hm & _) _].
  assert (HL : refresh L = Normal tt (applyDecorations P)).
  { unfold refresh. cbv zeta. simpl prettyDecorations. rewrite Hp.
    assert (E : set_prettyDecorations (set_uglyDecorationRanges L empty)
                  (prettyDecorations L) = L).
    { destruct L; simpl in *. subst. reflexivity. }
    rewrite E, Ep. reflexivity. }
  pose proof (refresh_alike L (applyDecorations P) Hd Hug Hpr Hs Hm) as Ha.
  rewrite HL in Ha.
  destruct (refresh (applyDecorations P)) as [[] this'|e this'|]; simpl in Ha;
    try contradiction.
  exists this'. split; [reflexivity|]. destruct Ha as [_ Ha]. exact Ha.
Qed.

End Reconstruction.

(** The rules [->] and [<=] on two lines. *)
Lemma refresh_after_construct_witness :
  let doc := mkDocument ["a -> b"; "c <= d"] in
  let settings := configuration.mkLanguageEntry [Examples.rule "->"; Examples.rule "<="] in
  let this := Examples.controller (construct MiniRegExp.compile doc settings) in
  construct MiniRegExp.compile doc settings = Normal tt this
  /\ exists this' : PrettyDocumentController,
       refresh this = Normal tt this' /\ indices this' = indices this.
Proof.
  cbv zeta.
  assert (H : construct MiniRegExp.compile (mkDocument ["a -> b"; "c <= d"])
                (configuration.mkLanguageEntry [Examples.rule "->"; Examples.rule "<="])
              = Normal tt
                  (Examples.controller
                     (construct MiniRegExp.compile (mkDocument ["a -> b"; "c <= d"])
                        (configuration.mkLanguageEntry
                           [Examples.rule "->"; Examples.rule "<="]))))
    by (vm_compute; reflexivity).
  split; [exact H|].
  exact (refresh_after_construct MiniRegExp.compile _ _ _ H).
Defined.

(** ** Scans that end, scans that do not *)

Lemma namesUglyAt_progresses (re : RegExp) (text : string) (L : nat) :
  namesUglyAt re text L = true -> progressesAt re text L = true.
Proof.
  unfold namesUglyAt, progressesAt.
  destruct (exec (set_lastIndex re L) text) as [[m|] re'] eqn:E; [|reflexivity].
  apply exec_some in E. destruct E as (Hi & _). simpl in Hi.
  intros H. apply Bool.andb_true_iff in H. destruct H as [H H3].
  apply Bool.andb_true_iff in H. destruct H as [H1 H2].
  apply Nat.ltb_lt in H1, H2. apply Z.leb_le in H3.
  unfold lastIndexAfter.
  assert (E1 : (List.length (definedFrom 0 (toArray m)) <=? 1) = false)
    by (apply Nat.leb_gt; exact H1).
  rewrite E1.
  set (str := snd (last (definedFrom 0 (toArray m)) (0, EmptyString))) in *.
  assert (E2 : (Z.of_nat (index m) + indexOf (match0 m) str <? 0)%Z = false)
    by (apply Z.ltb_ge; lia).
  rewrite E2. apply Nat.ltb_lt. lia.
Qed.

Lemma namesUglies_scansEnd (this : PrettyDocumentController) :
  namesUglies this = true -> scansEnd this = true.
Proof.
  unfold namesUglies, scansEnd. rewrite !forallb_forall.
  intros H text Ht. specialize (H text Ht).
  unfold namesUglyOn, progressesOn in *. rewrite forallb_forall in *.
  intros L HL. apply namesUglyAt_progresses. apply H. exact HL.
Qed.

Lemma endsWell_ended {A : Type} (c : Completion A) : endsWell c -> ended c.
Proof. destruct c; simpl; auto. Qed.

(** X11.  The scanning loops end when every match that the combined expression
    has on a line of the document names an ugly text that is not empty and
    that occurs in the whole match: then [parsePretty] ends for every range,
    and so do [refresh] and [onChangeDocument]. *)
Theorem scans_end_when_matches_name_uglies :
  forall this : PrettyDocumentController,
    namesUglies this = true ->
    (forall range : Range, ended (parsePretty range this))
    /\ ended (refresh this)
    /\ forall event : vscode.TextDocumentChangeEvent, ended (onChangeDocument event this).
Proof.
  intros this H. apply namesUglies_scansEnd in H. split_all.
  - intros range. apply endsWell_ended. apply parsePretty_ends. exact H.
  - unfold refresh.
    match goal with
    | |- context [parsePretty ?r ?t] =>
        pose proof (parsePretty_ends r t H) as He;
        destruct (parsePretty r t) as [rp t1|e t1|]; simpl in *; auto
    end.
  - intros event. unfold onChangeDocument.
    destruct (onChanges_ends (vscode.contentChanges event) (set_changedUglies this false) H)
      as (this1 & -> & _).
    rewrite Bool.orb_true_r. exact I.
Qed.

(** The rules [->] and [<=] on two lines. *)
Lemma scans_end_when_matches_name_uglies_witness :
  let this :=
    Examples.controller
      (Examples.openDocument [Examples.rule "->"; Examples.rule "<="] ["a -> b"; "c <= d"]) in
  namesUglies this = true
  /\ (forall range : Range, ended (parsePretty range this))
  /\ ended (refresh this)
  /\ forall event : vscode.TextDocumentChangeEvent, ended (onChangeDocument event this).
Proof.
  cbv zeta.
  assert (H : namesUglies
                (Examples.controller
                   (Examples.openDocument [Examples.rule "->"; Examples.rule "<="]
                                          ["a -> b"; "c <= d"])) = true)
    by (vm_compute; reflexivity).
  split; [exact H|].
  exact (scans_end_when_matches_name_uglies _ H).
Defined.

Lemma searchFrom_here (mt : string -> nat -> option (nat * list (option string)))
      (s : string) (i n : nat) (r : nat * list (option string)) :
  mt s i = Some r -> searchFrom mt s i n = Some (i, r).
Proof. intros H. destruct n; simpl; rewrite H; reflexivity. Qed.

(** A search that starts where a match was found finds that match again. *)
Lemma exec_again (re re' re2 : RegExp) (text : string) (m : RegExpExecArray) :
  exec re text = (Some m, re') ->
  matcher re2 = matcher re ->
  lastIndex re2 = index m ->
  exists re3 : RegExp, exec re2 text = (Some m, re3).
Proof.
  unfold exec. destruct (String.length text <? lastIndex re) eqn:E; [discriminate|].
  apply Nat.ltb_ge in E.
  destruct (searchFrom _ _ _ _) as [[i [len caps]]|] eqn:Es; [|discriminate].
  apply searchFrom_sound in Es. destruct Es as [Hi Hmt].
  intros H Hm Hl. injection H as <- _. simpl in Hl.
  assert (E2 : (String.length text <? lastIndex re2) = false)
    by (apply Nat.ltb_ge; lia).
  rewrite E2, Hm, Hl, (searchFrom_here _ _ _ _ _ Hmt). eexists. reflexivity.
Qed.

Lemma index_empty (s : string) : String.index 0 EmptyString s = Some 0.
Proof. destruct s; reflexivity. Qed.

(** The loop over the last line, with nothing left in the iterator, never
    ends when a match names the empty text. *)
Lemma scanLastLine_stalls (text : string) (ln : nat) (this : PrettyDocumentController)
      (m : RegExpExecArray) (re : RegExp) (fresh : Fresh) (fuel : nat) :
  exec (uglyAll this) text = (Some m, re) ->
  1 < List.length (definedFrom 0 (toArray m)) ->
  snd (last (definedFrom 0 (toArray m)) (0, EmptyString)) = EmptyString ->
  scanLastLine (S (S fuel)) text ln this [] fresh = Hang.
Proof.
  intros He Hlen Hstr.
  assert (Hg : forall t : PrettyDocumentController,
            getUglyFromMatch m ln t
            = Normal (Some (mkUgly (mkRange (mkPosition ln (index m)) (mkPosition ln (index m)))
                                   (fst (last (definedFrom 0 (toArray m)) (0, EmptyString)) - 1)))
                     (set_uglyAll_lastIndex t (index m))).
  { intros t. unfold getUglyFromMatch.
    apply Nat.leb_gt in Hlen. rewrite Hlen, Hstr.
    unfold indexOf. rewrite index_empty. simpl String.length.
    replace (Z.of_nat (index m) + Z.of_nat 0)%Z with (Z.of_nat (index m)) by lia.
    replace (Z.of_nat (index m) + Z.of_nat 0)%Z with (Z.of_nat (index m)) by lia.
    assert (E : (Z.of_nat (index m) <? 0)%Z = false) by (apply Z.ltb_ge; lia).
    rewrite E, Nat2Z.id. rewrite newRange_ordered by apply isBeforeOrEqual_refl.
    reflexivity. }
  pose proof (exec_some _ _ _ _ He) as (Hi & _ & Hm & _).
  cbn [scanLastLine]. rewrite He, Hg. simpl lastIndex.
  destruct (index m <=? lastIndex (uglyAll this)) eqn:E; [reflexivity|].
  cbn [andb List.length].
  destruct (exec_again (uglyAll this) re (set_lastIndex re (index m)) text m He)
    as [re3 He3]; [exact Hm | reflexivity |].
  cbn [scanLastLine]. simpl uglyAll. rewrite He3, Hg. simpl lastIndex.
  rewrite Nat.leb_refl. reflexivity.
Qed.

(** X12.  On a document of one line, [refresh] never returns when the first
    match of the combined expression on that line names the empty text (an
    ugly pattern that can match nothing): [getUglyFromMatch] puts [lastIndex]
    back to where the match starts, and the loop finds the same match again
    and again. *)
Theorem refresh_never_returns_on_empty_ugly :
  forall (this : PrettyDocumentController) (text : string)
         (m : RegExpExecArray) (re : RegExp),
    prettyDecorations this <> [] ->
    lines (document this) = [text] ->
    exec (set_lastIndex (uglyAll this) 0) text = (Some m, re) ->
    1 < List.length (definedFrom 0 (toArray m)) ->
    snd (last (definedFrom 0 (toArray m)) (0, EmptyString)) = EmptyString ->
    refresh this = Hang.
Proof.
  intros this text m re Hrules Hdoc He Hlen Hstr.
  unfold refresh, parsePretty. cbv zeta.
  simpl prettyDecorations. rewrite length_map.
  destruct (prettyDecorations this) as [|p l] eqn:Ep; [contradiction|].
  simpl List.length. cbn [Nat.eqb].
  unfold docRange, validateRange, validatePosition, lineCount. simpl document.
  rewrite Hdoc. simpl.
  unfold scanRange. simpl. unfold lineAt. simpl. rewrite Hdoc. simpl.
  replace (String.length text + 2 + 0) with (S (S (String.length text))) by lia.
  erewrite scanLastLine_stalls; [reflexivity | exact He | exact Hlen | exact Hstr].
Qed.

(** The rule [b?] on the line [a]: the match at column 0 is empty, and so is
    the text of its group. *)
Lemma refresh_never_returns_on_empty_ugly_witness :
  let this :=
    Examples.controller
      (loadDecorations MiniRegExp.compile
         (mkController (mkDocument ["a"]) [] [Examples.rule "b?"] emptyRegExp
                       empty false false false 0 [])) in
  let m := mkExecArray 0 EmptyString [Some EmptyString] in
  prettyDecorations this <> []
  /\ lines (document this) = ["a"]
  /\ fst (exec (set_lastIndex (uglyAll this) 0) "a") = Some m
  /\ refresh this = Hang.
Proof.
  cbv zeta.
  set (this := Examples.controller
                 (loadDecorations MiniRegExp.compile
                    (mkController (mkDocument ["a"]) [] [Examples.rule "b?"] emptyRegExp
                                  empty false false false 0 []))).
  assert (Hrules : prettyDecorations this <> []) by (vm_compute; discriminate).
  assert (Hdoc : lines (document this) = ["a"]) by reflexivity.
  assert (He : exec (set_lastIndex (uglyAll this) 0) "a"
               = (Some (mkExecArray 0 EmptyString [Some EmptyString]),
                  snd (exec (set_lastIndex (uglyAll this) 0) "a")))
    by (vm_compute; reflexivity).
  split; [exact Hrules|]. split; [exact Hdoc|]. split; [rewrite He; reflexivity|].
  apply (refresh_never_returns_on_empty_ugly this "a" _ _ Hrules Hdoc He).
  - simpl. lia.
  - reflexivity.
Defined.

(** ** A configuration without a valid rule *)

Section NoValidRule.

Variable RegExp_new : string -> option RegExp.

Lemma no_rule_compiles (substs : list configuration.Substitution) :
  (forall s, In s substs -> RegExp_new (uglyStrOf s) = None) ->
  filter (compiles RegExp_new) substs = []
  /\ flat_map (compiledRule RegExp_new) substs = []
  /\ filter (fun s => negb (compiles RegExp_new s)) substs = substs.
Proof.
  induction substs as [|s substs IH]; intros H; [simpl; auto|].
  destruct IH as (H1 & H2 & H3); [intros s' Hs'; apply H; right; exact Hs'|].
  assert (Hc : compiles RegExp_new s = false)
    by (unfold compiles; rewrite (H s (or_introl eq_refl)); reflexivity).
  assert (Hr : compiledRule RegExp_new s = [])
    by (unfold compiledRule; rewrite (H s (or_introl eq_refl)); reflexivity).
  cbn [filter flat_map]. rewrite Hc, Hr, H1, H2, H3. auto.
Qed.

(** X2.  When none of the configured substitutions compiles, the constructor
    ends normally with a controller that has no rule and empty indices: every
    substitution has its warning on the console, in order, the combined
    expression is the one of the empty pattern, the document is not scanned,
    and [applyDecorations] has been called twice, by [unloadDecorations] and
    by the constructor. *)
Theorem construct_without_valid_rules :
  forall (doc : TextDocument) (settings : configuration.LanguageEntry) (re : RegExp),
    (forall s, In s (configuration.substitutions settings) ->
               RegExp_new (uglyStrOf s) = None) ->
    RegExp_new EmptyString = Some re ->
    construct RegExp_new doc settings
    = Normal tt (mkController doc [] (configuration.substitutions settings) re empty
                              false true true 2
                              (map warning (configuration.substitutions settings))).
Proof.
  intros doc settings re Hnone Hre.
  destruct (no_rule_compiles _ Hnone) as (H1 & H2 & H3).
  unfold construct, loadDecorations. cbv zeta. rewrite loadDecoration_fold.
  simpl prettySubstitutions. rewrite H1. simpl map. simpl String.concat. rewrite Hre.
  unfold loaded. simpl. rewrite H2, H3. reflexivity.
Qed.

End NoValidRule.

(** Both configured substitutions have an unbalanced parenthesis. *)
Lemma construct_without_valid_rules_witness :
  let settings := configuration.mkLanguageEntry [Examples.rule "("; Examples.rule "a(b"] in
  let re := Examples.controller (loadDecorations MiniRegExp.compile (initial (mkDocument []))) in
  (forall s, In s (configuration.substitutions settings) ->
             MiniRegExp.compile (uglyStrOf s) = None)
  /\ MiniRegExp.compile EmptyString = Some (uglyAll re)
  /\ construct MiniRegExp.compile (mkDocument ["a -> b"]) settings
     = Normal tt (mkController (mkDocument ["a -> b"]) []
                               (configuration.substitutions settings) (uglyAll re) empty
                               false true true 2
                               (map warning (configuration.substitutions settings))).
Proof.
  cbv zeta.
  assert (Hnone : forall s,
            In s (configuration.substitutions
                    (configuration.mkLanguageEntry [Examples.rule "("; Examples.rule "a(b"])) ->
            MiniRegExp.compile (uglyStrOf s) = None).
  { intros s [<-|[<-|[]]]; vm_compute; reflexivity. }
  assert (Hre : MiniRegExp.compile EmptyString
                = Some (uglyAll (Examples.controller
                                   (loadDecorations MiniRegExp.compile
                                      (initial (mkDocument []))))))
    by (vm_compute; reflexivity).
  split; [exact Hnone|]. split; [exact Hre|].
  exact (construct_without_valid_rules MiniRegExp.compile _ _ _ Hnone Hre).
Defined.

(** ** Exceptions during a change event *)

Lemma onChange_console (this this' : PrettyDocumentController)
      (change : vscode.TextDocumentContentChangeEvent) :
  lines (document this) <> [] ->
  onChange this change = Normal tt this' ->
  document this' = document this
  /\ (console this' = console this
      \/ exists e : string,
           console this' = (console this ++ [e])%list
           /\ (e = "TypeError" \/ e = "illegal argument")).
Proof.
  intros Hne. unfold onChange, removeOverlapping.
  set (delta := toRangeDelta (vscode.range change) (vscode.text change)).
  set (this1 := set_uglyDecorationRanges this _).
  set (this2 := if _ <? _ then set_changedUglies this1 true else this1).
  set (this3 := set_prettyDecorations this2 _).
  assert (Hd : document this3 = document this /\ console this3 = console this).
  { subst this3 this2 this1. destruct (_ <? _); split; reflexivity. }
  destruct Hd as [Hd Hc].
  pose proof (parsePretty_frame (rangeDeltaNewRange delta) this3) as Hf.
  pose proof (fun e t => parsePretty_throws (rangeDeltaNewRange delta) this3 t e) as Ht.
  destruct (parsePretty (rangeDeltaNewRange delta) this3) as [rp this4|e this4|];
    try discriminate.
  - intros H. apply Normal_controller in H. subst this4.
    destruct Hf as [(Hd' & _ & _ & _ & _ & _ & Hc' & _) _].
    split; [congruence|]. left. congruence.
  - intros H. apply Normal_controller in H. subst this'.
    destruct (Ht e this4) as [He _]; [rewrite Hd; exact Hne | reflexivity |].
    apply sameButLastIndex_sameRules in Hf.
    destruct Hf as (Hd' & _ & _ & _ & _ & _ & Hc' & _).
    simpl. split; [congruence|]. right. exists e. split; [congruence | exact He].
Qed.

Lemma onChanges_console (changes : list vscode.TextDocumentContentChangeEvent) :
  forall this this' : PrettyDocumentController,
    lines (document this) <> [] ->
    onChanges this changes = Normal tt this' ->
    exists messages : list string,
      console this' = (console this ++ messages)%list
      /\ List.length messages <= List.length changes
      /\ forall e : string, In e messages -> e = "TypeError" \/ e = "illegal argument".
Proof.
  induction changes as [|change rest IH]; intros this this' Hne H; simpl in H.
  - apply Normal_controller in H. subst this'. exists []. rewrite app_nil_r.
    split; [reflexivity|]. split; [simpl; lia | intros e []].
  - destruct (onChange this change) as [[] this1|e this1|] eqn:E; try discriminate.
    destruct (onChange_console this this1 change Hne E) as [Hd Hc].
    destruct (IH this1 this' ltac:(rewrite Hd; exact Hne) H) as (msgs & Hm & Hl & Hall).
    destruct Hc as [Hc|(e & Hc & He)].
    + exists msgs. rewrite Hm, Hc. split; [reflexivity|]. split; [simpl; lia | exact Hall].
    + exists (e :: msgs). rewrite Hm, Hc, <- app_assoc. split; [reflexivity|].
      split; [simpl; lia|]. intros e' [<-|H']; [exact He | apply Hall; exact H'].
Qed.

Lemma onChange_prepared (t : PrettyDocumentController)
      (change : vscode.TextDocumentContentChangeEvent) :
  onChange t change
  = match parsePretty (editRangeOf change) (prepared t change) with
    | Normal _ t' => Normal tt t'
    | Throw e t' => Normal tt (log t' e)
    | Hang => Hang
    end.
Proof. reflexivity. Qed.

Lemma onChanges_app (changes1 : list vscode.TextDocumentContentChangeEvent) :
  forall (changes2 : list vscode.TextDocumentContentChangeEvent)
         (this : PrettyDocumentController),
    onChanges this (changes1 ++ changes2)
    = match onChanges this changes1 with
      | Normal _ this1 => onChanges this1 changes2
      | Throw e this1 => Throw e this1
      | Hang => Hang
      end.
Proof.
  induction changes1 as [|change rest IH]; intros changes2 this; [reflexivity|].
  simpl. destruct (onChange this change) as [[] this1|e this1|]; try reflexivity.
  apply IH.
Qed.

(** X15.  An exception during the re-parsing of one change of an event does
    not stop the other changes.  For every change the loop of
    [onChangeDocument] hands [parsePretty] the controller from which the
    ranges at the change are removed and the others shifted; when
    [parsePretty] leaves with an exception, the exception is reported on the
    console, the indices stay as they were handed, and the changes that
    follow in the event are processed from there, each in its turn, before
    [applyDecorations] is called.  When [onChangeDocument] returns, the
    console has grown by at most one message for each change, and each
    message is the [TypeError] of a match that names no rule or the host's
    refusal of a negative column. *)
Theorem onChangeDocument_reports_exceptions :
  forall (event : vscode.TextDocumentChangeEvent) (this : PrettyDocumentController),
    (forall (t : PrettyDocumentController) (change : vscode.TextDocumentContentChangeEvent),
        onChange t change
        = match parsePretty (editRangeOf change) (prepared t change) with
          | Normal _ t' => Normal tt t'
          | Throw e t' => Normal tt (log t' e)
          | Hang => Hang
          end)
    /\ (forall (changes1 changes2 : list vscode.TextDocumentContentChangeEvent)
               (change : vscode.TextDocumentContentChangeEvent)
               (t1 t2 : PrettyDocumentController) (e : string),
           vscode.contentChanges event = (changes1 ++ change :: changes2)%list ->
           onChanges (set_changedUglies this false) changes1 = Normal tt t1 ->
           parsePretty (editRangeOf change) (prepared t1 change) = Throw e t2 ->
           sameButLastIndex (prepared t1 change) t2
           /\ onChanges (set_changedUglies this false) (changes1 ++ [change])
              = Normal tt (log t2 e)
           /\ onChangeDocument event this
              = match onChanges (log t2 e) changes2 with
                | Normal _ t3 => Normal tt (applyDecorations t3)
                | Throw e' t3 => Throw e' t3
                | Hang => Hang
                end)
    /\ (forall this' : PrettyDocumentController,
           lines (document this) <> [] ->
           onChangeDocument event this = Normal tt this' ->
           exists messages : list string,
             console this' = (console this ++ messages)%list
             /\ List.length messages <= List.length (vscode.contentChanges event)
             /\ forall e : string,
                  In e messages -> e = "TypeError" \/ e = "illegal argument").
Proof.
  intros event this. split; [intros t change; apply onChange_prepared|]. split.
  - intros changes1 changes2 change t1 t2 e Hsplit H1 Hthrow.
    assert (Hc : onChange t1 change = Normal tt (log t2 e))
      by (rewrite onChange_prepared, Hthrow; reflexivity).
    split; [|split].
    + pose proof (parsePretty_frame (editRangeOf change) (prepared t1 change)) as Hf.
      rewrite Hthrow in Hf. exact Hf.
    + rewrite onChanges_app, H1. simpl. rewrite Hc. reflexivity.
    + unfold onChangeDocument. rewrite Hsplit, onChanges_app, H1. simpl. rewrite Hc.
      destruct (onChanges (log t2 e) changes2) as [[] t3|e' t3|]; try reflexivity.
      rewrite Bool.orb_true_r. reflexivity.
  - intros this' Hne H. unfold onChangeDocument in H.
    destruct (onChanges (set_changedUglies this false) (vscode.contentChanges event))
      as [[] this1|e this1|] eqn:E; try discriminate.
    rewrite Bool.orb_true_r in H. apply Normal_controller in H. subst this'.
    exact (onChanges_console _ (set_changedUglies this false) _ Hne E).
Qed.

(** The rules [->] and [a(b)], of which the second has a group of its own,
    on the lines [x] and [y].  The host replaces the [x] of the first line by
    the two lines [ab] and [z], and the [y] of the last line by [->]; both
    changes arrive in one event.  The match on the line [ab], which is not
    the last line of the first changed range, names a rule that does not
    exist: the [TypeError] is reported on the console.  The second change is
    processed after that: its match is in the index. *)
Lemma onChangeDocument_reports_exceptions_witness :
  let opened :=
    Examples.controller
      (Examples.openDocument [Examples.rule "->"; Examples.rule "a(b)"] ["x"; "y"]) in
  let first := Examples.change 0 0 0 1 ("ab" ++ String LF "z") in
  let second := Examples.change 2 0 2 1 "->" in
  let event := vscode.mkChangeEvent (mkDocument ["ab"; "z"; "->"]) [first; second] in
  let this := set_document opened (vscode.document event) in
  let t1 := set_changedUglies this false in
  let t2 := Examples.controller (parsePretty (editRangeOf first) (prepared t1 first)) in
  let this' := Examples.controller (onChangeDocument event this) in
  parsePretty (editRangeOf first) (prepared t1 first) = Throw "TypeError" t2
  /\ onChangeDocument event this
     = match onChanges (log t2 "TypeError") [second] with
       | Normal _ t3 => Normal tt (applyDecorations t3)
       | Throw e' t3 => Throw e' t3
       | Hang => Hang
       end
  /\ onChangeDocument event this = Normal tt this'
  /\ uglyDecorationRanges opened = []
  /\ console this' = ["TypeError"]
  /\ uglyDecorationRanges this' = [Examples.rangeOf 2 0 2 2].
Proof.
  cbv zeta.
  set (first := Examples.change 0 0 0 1 ("ab" ++ String LF "z")).
  set (second := Examples.change 2 0 2 1 "->").
  set (event := vscode.mkChangeEvent (mkDocument ["ab"; "z"; "->"]) [first; second]).
  set (this := set_document
                 (Examples.controller
                    (Examples.openDocument [Examples.rule "->"; Examples.rule "a(b)"]
                                           ["x"; "y"]))
                 (vscode.document event)).
  assert (Hthrow : parsePretty (editRangeOf first) (prepared (set_changedUglies this false) first)
                   = Throw "TypeError"
                       (Examples.controller
                          (parsePretty (editRangeOf first)
                             (prepared (set_changedUglies this false) first))))
    by (vm_compute; reflexivity).
  split; [exact Hthrow|]. split.
  - destruct (onChangeDocument_reports_exceptions event this) as (_ & Hgoes & _).
    destruct (Hgoes [] [second] first (set_changedUglies this false) _ _
                    eq_refl eq_refl Hthrow) as (_ & _ & H).
    exact H.
  - split_all; vm_compute; reflexivity.
Defined.

(** ** Where [parsePretty] changes the aggregate index *)

Lemma getUglyFromMatch_line (m : RegExpExecArray) (ln : nat)
      (this this' : PrettyDocumentController) (ugly : Ugly) :
  getUglyFromMatch m ln this = Normal (Some ugly) this' ->
  line (start (range ugly)) = ln /\ line (end_ (range ugly)) = ln.
Proof.
  intros H. apply getUglyFromMatch_some in H. cbv zeta in H.
  destruct H as (_ & _ & -> & _). split; reflexivity.
Qed.

Lemma scanLine_fresh (Q : Range -> Prop) (text : string) (idx : nat) (fuel : nat) :
  forall (this this' : PrettyDocumentController) (fresh fresh' : Fresh),
    (forall x, line (start x) = idx -> line (end_ x) = idx -> Q x) ->
    (forall x, In x (newUglyRanges fresh) -> Q x) ->
    scanLine fuel text idx this fresh = Normal fresh' this' ->
    forall x, In x (newUglyRanges fresh') -> Q x.
Proof.
  induction fuel as [|fuel IH]; intros this this' fresh fresh' HQ Hf; cbn [scanLine];
    [discriminate|].
  destruct (exec (uglyAll this) text) as [[m|] re].
  - destruct (getUglyFromMatch m idx (set_uglyAll this re)) as [[ugly|] this1|e this1|] eqn:Eg;
      try discriminate.
    + destruct (nth_error _ _); [|discriminate].
      destruct (_ <=? _); [discriminate|].
      apply IH; [exact HQ|]. simpl. intros x Hx. apply insert_In in Hx.
      destruct Hx as [->|Hx]; [|apply Hf; exact Hx].
      destruct (getUglyFromMatch_line _ _ _ _ _ Eg) as [H1 H2]. apply HQ; assumption.
    + destruct (_ <=? _); [discriminate|]. apply IH; assumption.
  - intros H. injection H as <- _. exact Hf.
Qed.

Lemma scanLines_fresh (Q : Range -> Prop) (n : nat) :
  forall (idx : nat) (this this' : PrettyDocumentController) (fresh fresh' : Fresh),
    (forall x l, idx <= l < idx + n -> line (start x) = l -> line (end_ x) = l -> Q x) ->
    (forall x, In x (newUglyRanges fresh) -> Q x) ->
    scanLines n idx this fresh = Normal fresh' this' ->
    forall x, In x (newUglyRanges fresh') -> Q x.
Proof.
  induction n as [|n IH]; intros idx this this' fresh fresh' HQ Hf; cbn [scanLines].
  - intros H. injection H as <- _. exact Hf.
  - destruct (lineAt (document this) idx) as [text|]; [|discriminate].
    destruct (scanLine (String.length text + 2) text idx this fresh)
      as [fresh1 this1|e this1|] eqn:Es; try discriminate.
    apply IH.
    + intros x l Hl. apply HQ. lia.
    + apply (scanLine_fresh Q text idx (String.length text + 2) this this1 fresh fresh1);
        auto.
      intros x. apply HQ. lia.
Qed.

Lemma scanLastLine_fresh (Q : Range -> Prop) (text : string) (ln : nat) (fuel : nat) :
  forall (this this' : PrettyDocumentController) (pre pre' : list Range)
         (fresh fresh' : Fresh),
    (forall x, line (start x) = ln -> line (end_ x) = ln -> Q x) ->
    (forall x, In x (newUglyRanges fresh) -> Q x) ->
    scanLastLine fuel text ln this pre fresh = Normal (fresh', pre') this' ->
    forall x, In x (newUglyRanges fresh') -> Q x.
Proof.
  induction fuel as [|fuel IH]; intros this this' pre pre' fresh fresh' HQ Hf;
    cbn [scanLastLine]; [discriminate|].
  destruct (exec (uglyAll this) text) as [[m|] re].
  - destruct (getUglyFromMatch m ln (set_uglyAll this re)) as [[ugly|] this1|e this1|] eqn:Eg;
      try discriminate.
    + destruct (match pre with [] => false | p :: _ => isEqual p (range ugly) end).
      * intros H. injection H as <- _ _. exact Hf.
      * destruct (_ && _); [discriminate|].
        apply IH; [exact HQ|]. intros x Hx.
        assert (Hin : In x (insert (range ugly) (newUglyRanges fresh))).
        { unfold insertFresh in Hx. destruct (nth_error _ _); exact Hx. }
        apply insert_In in Hin. destruct Hin as [->|Hin]; [|apply Hf; exact Hin].
        destruct (getUglyFromMatch_line _ _ _ _ _ Eg) as [H1 H2]. apply HQ; assumption.
    + destruct (_ <=? _); [discriminate|]. apply IH; assumption.
    + destruct (_ <=? _); [discriminate|]. apply IH; assumption.
  - intros H. injection H as <- _ _. exact Hf.
Qed.

Lemma scanRange_fresh (range : Range) (this this' : PrettyDocumentController)
      (fresh : Fresh) :
  line (start range) <= line (end_ range) ->
  scanRange range this = Normal fresh this' ->
  forall x, In x (newUglyRanges fresh) ->
    line (start x) = line (end_ x)
    /\ line (start range) <= line (start x) <= line (end_ range).
Proof.
  intros Hord. unfold scanRange.
  set (Q := fun x : Range =>
              line (start x) = line (end_ x)
              /\ line (start range) <= line (start x) <= line (end_ range)).
  destruct (scanLines _ _ this _) as [fresh1 this1|e this1|] eqn:E1; try discriminate.
  destruct (lineAt (document this1) (line (end_ range))) as [text|]; [|discriminate].
  destruct (scanLastLine _ text _ this1 _ fresh1) as [[fresh2 pre2] this2|e this2|] eqn:E2;
    try discriminate.
  intros H. injection H as <- _.
  assert (H1 : forall x, In x (newUglyRanges fresh1) -> Q x).
  { apply (scanLines_fresh Q _ _ _ _ _ _) with (3 := E1).
    - intros x l Hl Hs He. unfold Q. lia.
    - intros x []. }
  apply (scanLastLine_fresh Q _ _ _ _ _ _ _ _ _) with (3 := E2); [|exact H1].
  intros x Hs He. unfold Q. lia.
Qed.

(** X19.  With rules, a [parsePretty] that returns changes the aggregate
    index near the parsed range only: every range that it adds lies within
    one line, and that line is a line of the validated range; and every range
    that ends at or before the end of the validated range stays in the
    index. *)
Theorem parsePretty_changes_index_locally :
  forall (range reparsed : Range) (this this' : PrettyDocumentController),
    prettyDecorations this <> [] ->
    parsePretty range this = Normal reparsed this' ->
    let r := validateRange (document this) range in
    (forall x : Range,
        In x (uglyDecorationRanges this') ->
        In x (uglyDecorationRanges this)
        \/ (line (start x) = line (end_ x)
            /\ line (start r) <= line (start x) <= line (end_ r)))
    /\ (forall x : Range,
           In x (uglyDecorationRanges this) ->
           isBeforeOrEqual (end_ x) (end_ r) = true ->
           In x (uglyDecorationRanges this')).
Proof.
  intros range reparsed this this' Hrules Hp r.
  destruct (parsePretty_with_rules range reparsed this this' Hrules Hp)
    as (fresh & this1 & Hscan & Hsame & Hm).
  fold r in Hscan, Hm.
  pose proof (validateRange_ordered (document this) range) as Hord. fold r in Hord.
  assert (Hlines : line (start r) <= line (end_ r)) by pos_bool.
  pose proof (scanRange_fresh r _ _ _ Hlines Hscan) as Hfresh.
  assert (Hu1 : uglyDecorationRanges this1 = uglyDecorationRanges this)
    by (rewrite Hsame; reflexivity).
  assert (Hagg : uglyDecorationRanges this'
                 = insertRanges (newUglyRanges fresh)
                     (if isBefore (end_ r) (getEnd (newUglyRanges fresh))
                      then snd (removeOverlapping
                                  (newRange (end_ r) (getEnd (newUglyRanges fresh)))
                                  false false (uglyDecorationRanges this))
                      else uglyDecorationRanges this)).
  { apply (f_equal snd) in Hm. simpl in Hm. rewrite <- Hm, <- Hu1. unfold mergeFresh.
    destruct (isBefore (end_ r) (getEnd (newUglyRanges fresh)));
      destruct (negb (isEmpty (newUglyRanges fresh))); reflexivity. }
  rewrite Hagg. split.
  - intros x Hx. apply insertRanges_In in Hx. destruct Hx as [Hx|Hx].
    + right. apply Hfresh. exact Hx.
    + left. destruct (isBefore (end_ r) (getEnd (newUglyRanges fresh))); [|exact Hx].
      apply removeOverlapping_kept in Hx. tauto.
  - intros x Hx Hend. apply insertRanges_keeps.
    destruct (isBefore (end_ r) (getEnd (newUglyRanges fresh))) eqn:E; [|exact Hx].
    apply removeOverlapping_kept. split; [exact Hx|].
    rewrite newRange_ordered by (unfold isBeforeOrEqual; rewrite E; reflexivity).
    unfold overlaps. simpl.
    assert (Hnot : isBefore (end_ r) (end_ x) = false)
      by (apply isBeforeOrEqual_not_before; exact Hend).
    rewrite Hnot, Bool.andb_false_r. reflexivity.
Qed.

(** The rule [->] on two lines, of which the second is parsed again. *)
Lemma parsePretty_changes_index_locally_witness :
  let this :=
    Examples.controller (Examples.openDocument [Examples.rule "->"] ["a -> b"; "c -> d"]) in
  let range := Examples.rangeOf 1 0 1 6 in
  let this' := Examples.controller (parsePretty range this) in
  prettyDecorations this <> []
  /\ parsePretty range this = Normal range this'
  /\ (forall x : Range,
         In x (uglyDecorationRanges this') ->
         In x (uglyDecorationRanges this)
         \/ (line (start x) = line (end_ x)
             /\ line (start (validateRange (document this) range)) <= line (start x)
                <= line (end_ (validateRange (document this) range))))
  /\ (forall x : Range,
         In x (uglyDecorationRanges this) ->
         isBeforeOrEqual (end_ x) (end_ (validateRange (document this) range)) = true ->
         In x (uglyDecorationRanges this')).
Proof.
  cbv zeta.
  set (this := Examples.controller
                 (Examples.openDocument [Examples.rule "->"] ["a -> b"; "c -> d"])).
  assert (Hrules : prettyDecorations this <> []) by (vm_compute; discriminate).
  assert (Hp : parsePretty (Examples.rangeOf 1 0 1 6) this
               = Normal (Examples.rangeOf 1 0 1 6)
                   (Examples.controller (parsePretty (Examples.rangeOf 1 0 1 6) this)))
    by (vm_compute; reflexivity).
  split; [exact Hrules|]. split; [exact Hp|].
  exact (parsePretty_changes_index_locally _ _ _ _ Hrules Hp).
Defined.

(** ** [dispose] *)

Lemma setPrettyDecorations_cleared (editor : TextEditor) (substs : list PrettySubstitution) :
  forall (idx : nat) (call : SetDecorations),
    In call (setPrettyDecorations editor idx
               (map (fun subst => set_ranges subst empty) substs)) ->
    decorationRanges call = [].
Proof.
  induction substs as [|subst rest IH]; intros idx call H; simpl in H; [contradiction|].
  destruct H as [<-|H]; [reflexivity|]. apply (IH (S idx)). exact H.
Qed.

Lemma setDecorationsOf_unloaded (this : PrettyDocumentController) (editor : TextEditor)
      (call : SetDecorations) :
  In call (setDecorationsOf (unloadDecorations this) editor) -> decorationRanges call = [].
Proof.
  intros [<-|H]; [reflexivity|]. apply (setPrettyDecorations_cleared _ _ _ _ H).
Qed.

(** X20.  [dispose] does not cancel the redraw: it leaves both timers
    armed, and when they fire on the controller as [dispose] has left it,
    every call of [setDecorations] that they make, for the ugly decoration
    and for the decoration of every rule, carries no range. *)
Theorem dispose_redraws_without_ranges :
  forall (activeTextEditor : option TextEditor) (editors : list TextEditor)
         (this : PrettyDocumentController),
    applyDecorationsTimeout (dispose this) = true
    /\ applyDecorationsTimeoutActive (dispose this) = true
    /\ forall call : SetDecorations,
         In call (fst (activeTimeoutFires activeTextEditor editors (dispose this))
                  ++ fst (inactiveTimeoutFires activeTextEditor editors (dispose this)))%list ->
         decorationRanges call = [].
Proof.
  intros activeTextEditor editors this. split; [reflexivity|]. split; [reflexivity|].
  intros call H. apply in_app_or in H. unfold dispose in H.
  unfold activeTimeoutFires, inactiveTimeoutFires, fst in H.
  destruct H as [H|H].
  - induction editors as [|editor rest IH]; cbn [activeEditorLoop] in H; [contradiction|].
    destruct (negb (isActiveTextEditor activeTextEditor editor)); [contradiction|].
    apply in_app_or in H. destruct H as [H|H]; [|apply IH; exact H].
    apply (setDecorationsOf_unloaded this editor call H).
  - induction editors as [|editor rest IH]; cbn [inactiveEditorsLoop] in H; [contradiction|].
    destruct (isActiveTextEditor activeTextEditor editor); [contradiction|].
    apply in_app_or in H. destruct H as [H|H]; [|apply IH; exact H].
    apply (setDecorationsOf_unloaded this editor call H).
Qed.

(** ** The columns that a scan reads

    A scanning loop asks the combined expression about the columns from its
    [lastIndex] on, and about no other: with another matcher that answers the
    same from that column on, the loop does the same. *)














